(** * A shallow embedding of the Redux store core and reducer composer

    Sources embedded here:
    - [src/createStore.ts]: [createStore] and the closures it returns
      ([ensureCanMutateNextListeners], [getState], [subscribe],
      [unsubscribe], [dispatch], [replaceReducer], and the [subscribe]
      method of [observable]);
    - the source file of the reducer composer: [assertReducerShape],
      [getUnexpectedStateShapeWarningMessage], [combineReducers] and the
      closure [combination] it returns;
    - the source file of [bindActionCreators].

    What the code reads from its surroundings (the prototype chain of an
    object, the build, the key of the observable method) is the
    environment [Env], a parameter of every definition that depends on it.

    JavaScript callbacks (reducers, listeners) are programs over the store
    interface: a free monad [Prog] whose commands are the store's methods,
    interpreted by the fuel-indexed function [run].  All the closure
    variables of one store ([currentReducer], [currentState],
    [currentListeners], [nextListeners], [isDispatching]) live in the record
    [World], together with the heap of listener arrays (arrays are shared by
    reference between [currentListeners], [nextListeners] and the local
    [listeners] of [dispatch]). *)

From Stdlib Require Import List String ZArith Bool Arith Lia DecimalString.
Import ListNotations.
Open Scope string_scope.
Open Scope list_scope.

Set Implicit Arguments.
Set Warnings "-register-all".

(** ** Values *)

(** JavaScript values.  Numbers are the integer-valued ones plus [NaN] (the
    only number that is not strictly equal to itself).  An object carries its
    identity [addr], whether [isPlainObject] accepts it ([plain]: an object
    literal, as opposed to an array or a class instance) and its own
    enumerable data properties in [Object.keys] order; what it holds besides
    (the members of its prototype chain, own properties that are not
    enumerable) is given by the environment [Env] below.  The code under
    study never mutates an object after building it.  [VFun] is a user
    function, [VUnsub] the [unsubscribe] closure returned by the [sid]-th
    call of [subscribe], [VStore] the store object. *)
Inductive JsVal : Type :=
| VUndefined
| VNull
| VBool (b : bool)
| VNum (z : Z)
| VNaN
| VStr (s : string)
| VObj (addr : nat) (plain : bool) (props : list (string * JsVal))
| VFun (id : nat)
| VUnsub (sid : nat)
| VStore.

(** [typeof v === 'function'] *)
Definition is_function (v : JsVal) : bool :=
  match v with
  | VFun _ | VUnsub _ => true
  | _ => false
  end.

(** [typeof v === 'undefined'] *)
Definition is_undefined (v : JsVal) : bool :=
  match v with
  | VUndefined => true
  | _ => false
  end.

(** [a === b] *)
Definition strict_eq (a b : JsVal) : bool :=
  match a, b with
  | VUndefined, VUndefined => true
  | VNull, VNull => true
  | VBool x, VBool y => Bool.eqb x y
  | VNum x, VNum y => Z.eqb x y
  | VStr x, VStr y => String.eqb x y
  | VObj x _ _, VObj y _ _ => Nat.eqb x y
  | VFun x, VFun y => Nat.eqb x y
  | VUnsub x, VUnsub y => Nat.eqb x y
  | VStore, VStore => true
  | _, _ => false
  end.

(** Own-property lookup in a property list. *)
Fixpoint lookup (key : string) (props : list (string * JsVal)) : JsVal :=
  match props with
  | [] => VUndefined
  | (k, v) :: rest => if String.eqb k key then v else lookup key rest
  end.

(** Whether a property list has the key. *)
Fixpoint has_own {A : Type} (key : string) (props : list (string * A))
  : bool :=
  match props with
  | [] => false
  | (k, _) :: rest => String.eqb k key || has_own key rest
  end.

(** [object[key] = v] on the property list of an object built in the
    code, for a key other than [__proto__] (an assignment to that key
    reaches the setter of [Object.prototype] and adds no property). *)
Fixpoint assign {A : Type} (key : string) (v : A) (props : list (string * A))
  : list (string * A) :=
  match props with
  | [] => [(key, v)]
  | (k, x) :: rest =>
      if String.eqb k key then (k, v) :: rest else (k, x) :: assign key v rest
  end.

(** JavaScript's truthiness. *)
Definition truthy (v : JsVal) : bool :=
  match v with
  | VUndefined | VNull | VNaN => false
  | VBool b => b
  | VNum z => negb (Z.eqb z 0)
  | VStr s => negb (String.eqb s EmptyString)
  | _ => true
  end.

(** ** The environment *)

(** What the values do not record, and what the code reads from its
    environment:
    - [inherited addr key]: what a read of [key] gives on the object of
      identity [addr] when [key] is not one of its own enumerable
      properties, that is the member of that name of its prototype chain
      (or an own property that is not enumerable), [undefined] when there
      is none.  For an object literal this is [Object.prototype]:
      [toString], [constructor], [hasOwnProperty] and so on;
    - [for_in_inherited addr]: the enumerable keys of the prototype chain
      of that object, in the order [for ... in] visits them;
    - [member v key]: what a read of [key] gives on a value that is not an
      object of the model (a character or the length of a string, a
      property of a function, a method of the store object, a member of
      the prototype of a primitive);
    - [production]: whether [process.env.NODE_ENV] is ['production'];
    - [observable_key]: the key [$$observable] of [utils/symbol-observable]
      (not among the sources) when it is a string
      (['@@observable'], where [Symbol.observable] does not exist), [None]
      when it is a symbol. *)
Record Env : Type := mkEnv {
  inherited : nat -> string -> JsVal;
  for_in_inherited : nat -> list string;
  member : JsVal -> string -> JsVal;
  production : bool;
  observable_key : option string
}.

(** ** Errors *)

(** One constructor per [throw] site of the two source files, plus the
    runtime's [TypeError] and what user callbacks throw: an [Error] object
    ([ErrUser]) or any other value ([ErrThrown], as in [throw null]). *)
Inductive Error : Type :=
| ErrSeveralEnhancers
| ErrEnhancerNotFunction
| ErrReducerNotFunction
| ErrGetStateWhileDispatching
| ErrListenerNotFunction
| ErrSubscribeWhileDispatching
| ErrUnsubscribeWhileDispatching
| ErrActionNotPlain
| ErrActionTypeUndefined
| ErrReducersMayNotDispatch
| ErrNextReducerNotFunction
| ErrUndefinedDuringInit (key : string)
| ErrUndefinedOnProbe (key : string)
| ErrUndefinedState (key : string) (action : JsVal)
| ErrTypeError
| ErrUser (code : nat)
| ErrThrown (v : JsVal).

(** The taxonomy of section 7 of the specification. *)
Inductive ErrorClass : Type :=
| ArgumentError
| ActionShapeError
| ReentrancyError
| ReducerContractError
| RuntimeTypeError
| UserError.

Definition error_class (e : Error) : ErrorClass :=
  match e with
  | ErrSeveralEnhancers | ErrEnhancerNotFunction | ErrReducerNotFunction
  | ErrListenerNotFunction | ErrNextReducerNotFunction => ArgumentError
  | ErrActionNotPlain | ErrActionTypeUndefined => ActionShapeError
  | ErrGetStateWhileDispatching | ErrSubscribeWhileDispatching
  | ErrUnsubscribeWhileDispatching | ErrReducersMayNotDispatch => ReentrancyError
  | ErrUndefinedDuringInit _ | ErrUndefinedOnProbe _ | ErrUndefinedState _ _ =>
      ReducerContractError
  | ErrTypeError => RuntimeTypeError
  | ErrUser _ | ErrThrown _ => UserError
  end.

(** Truthiness of a thrown value: [Error] objects are truthy. *)
Definition error_truthy (e : Error) : bool :=
  match e with
  | ErrThrown v => truthy v
  | _ => true
  end.

Inductive Result (A : Type) : Type :=
| Ok (a : A)
| Err (e : Error).

Arguments Ok {A} a.
Arguments Err {A} e.

(** ** Programs run by callbacks *)

(** What a callback can do: call the store's methods, call a function value
    (a user function or an [unsubscribe] closure) and build an object. *)
Inductive Cmd : Type :=
| OGetState
| ODispatch (action : JsVal)
| OSubscribe (listener : JsVal)
| OReplaceReducer (nextReducer : JsVal)
| OCall (f : JsVal) (args : list JsVal)
| ONewObject (plain : bool) (props : list (string * JsVal)).

(** A callback body.  The continuation of a command receives its outcome, an
    error included, so that a body can catch what a store method throws. *)
Inductive Prog (A : Type) : Type :=
| Ret (a : A)
| Throw (e : Error)
| Do (c : Cmd) (k : Result JsVal -> Prog A).

Arguments Ret {A} a.
Arguments Throw {A} e.
Arguments Do {A} c k.

Fixpoint bind {A B : Type} (p : Prog A) (f : A -> Prog B) : Prog B :=
  match p with
  | Ret a => f a
  | Throw e => Throw e
  | Do c k => Do c (fun r => bind (k r) f)
  end.

(** A command whose error is not caught: it propagates. *)
Definition perform {A : Type} (c : Cmd) (k : JsVal -> Prog A) : Prog A :=
  Do c (fun r => match r with Ok v => k v | Err e => Throw e end).

Notation "x <- c ;; p" := (perform c (fun x => p))
  (at level 61, c at next level, right associativity).

(** ** The store's closure variables *)

(** A call made into a callback, recorded in call order. *)
Inductive Event : Type :=
| EvCall (f : JsVal) (args : list JsVal).

Record World : Type := mkWorld {
  currentReducer : JsVal;
  currentState : JsVal;
  currentListeners : option nat;  (* an array reference, or [null] *)
  nextListeners : nat;            (* an array reference *)
  isDispatching : bool;
  arrays : list (list JsVal);     (* the heap of listener arrays *)
  subscriptions : list (JsVal * bool);
    (* per [subscribe] call: its [listener] and its [isSubscribed] *)
  nextAddr : nat;                 (* the next fresh object identity *)
  trace : list Event              (* instrumentation: calls into callbacks *)
}.

Definition set_reducer (r : JsVal) (w : World) : World :=
  mkWorld r (currentState w) (currentListeners w) (nextListeners w)
    (isDispatching w) (arrays w) (subscriptions w) (nextAddr w) (trace w).

Definition set_state (s : JsVal) (w : World) : World :=
  mkWorld (currentReducer w) s (currentListeners w) (nextListeners w)
    (isDispatching w) (arrays w) (subscriptions w) (nextAddr w) (trace w).

Definition set_current (c : option nat) (w : World) : World :=
  mkWorld (currentReducer w) (currentState w) c (nextListeners w)
    (isDispatching w) (arrays w) (subscriptions w) (nextAddr w) (trace w).

Definition set_next (n : nat) (w : World) : World :=
  mkWorld (currentReducer w) (currentState w) (currentListeners w) n
    (isDispatching w) (arrays w) (subscriptions w) (nextAddr w) (trace w).

Definition set_dispatching (b : bool) (w : World) : World :=
  mkWorld (currentReducer w) (currentState w) (currentListeners w)
    (nextListeners w) b (arrays w) (subscriptions w) (nextAddr w) (trace w).

Definition set_arrays (a : list (list JsVal)) (w : World) : World :=
  mkWorld (currentReducer w) (currentState w) (currentListeners w)
    (nextListeners w) (isDispatching w) a (subscriptions w) (nextAddr w)
    (trace w).

Definition set_subscriptions (s : list (JsVal * bool)) (w : World) : World :=
  mkWorld (currentReducer w) (currentState w) (currentListeners w)
    (nextListeners w) (isDispatching w) (arrays w) s (nextAddr w) (trace w).

Definition set_addr (n : nat) (w : World) : World :=
  mkWorld (currentReducer w) (currentState w) (currentListeners w)
    (nextListeners w) (isDispatching w) (arrays w) (subscriptions w) n
    (trace w).

Definition log (e : Event) (w : World) : World :=
  mkWorld (currentReducer w) (currentState w) (currentListeners w)
    (nextListeners w) (isDispatching w) (arrays w) (subscriptions w)
    (nextAddr w) (trace w ++ [e]).

(** ** Listener arrays *)

Definition array_at (w : World) (ref : nat) : list JsVal :=
  nth ref (arrays w) [].

Fixpoint update_nth {A : Type} (n : nat) (x : A) (l : list A) : list A :=
  match l, n with
  | [], _ => []
  | _ :: t, O => x :: t
  | h :: t, S m => h :: update_nth m x t
  end.

(** [arr.indexOf(x)]: the first position strictly equal to [x], or [-1]. *)
Fixpoint indexOf (x : JsVal) (l : list JsVal) : option nat :=
  match l with
  | [] => None
  | y :: t =>
      if strict_eq y x then Some O
      else match indexOf x t with
           | Some i => Some (S i)
           | None => None
           end
  end.

Fixpoint remove_at {A : Type} (n : nat) (l : list A) : list A :=
  match l, n with
  | [], _ => []
  | _ :: t, O => t
  | h :: t, S m => h :: remove_at m t
  end.

(** [arr.splice(index, 1)] where [index] is the result of [indexOf]: a
    start of [-1] counts from the end, so it removes the last element. *)
Definition splice1 (index : option nat) (l : list JsVal) : list JsVal :=
  match index with
  | Some i => remove_at i l
  | None => removelast l
  end.

(** ** The store's methods (createStore.ts) *)

Definition ensureCanMutateNextListeners (w : World) : World :=
  match currentListeners w with
  | Some c =>
      if Nat.eqb (nextListeners w) c then
        (* nextListeners = currentListeners.slice() *)
        set_next (List.length (arrays w))
          (set_arrays (arrays w ++ [array_at w c]) w)
      else w
  | None => w
  end.

Definition getState (w : World) : Result JsVal * World :=
  if isDispatching w then (Err ErrGetStateWhileDispatching, w)
  else (Ok (currentState w), w).

Definition subscribe (listener : JsVal) (w : World) : Result JsVal * World :=
  if negb (is_function listener) then (Err ErrListenerNotFunction, w)
  else if isDispatching w then (Err ErrSubscribeWhileDispatching, w)
  else
    let w1 := ensureCanMutateNextListeners w in
    (* nextListeners.push(listener) *)
    let w2 :=
      set_arrays
        (update_nth (nextListeners w1)
           (array_at w1 (nextListeners w1) ++ [listener]) (arrays w1)) w1 in
    (* the closure [unsubscribe], with [isSubscribed = true] *)
    let sid := List.length (subscriptions w2) in
    (Ok (VUnsub sid),
     set_subscriptions (subscriptions w2 ++ [(listener, true)]) w2).

(** The closure returned by the [sid]-th call of [subscribe].  A [VUnsub]
    value only comes from [subscribe], so its entry exists; the first case
    stands for a call of something that is not a function. *)
Definition unsubscribe (sid : nat) (w : World) : Result JsVal * World :=
  match nth_error (subscriptions w) sid with
  | None => (Err ErrTypeError, w)
  | Some (listener, isSubscribed) =>
      if negb isSubscribed then (Ok VUndefined, w)
      else if isDispatching w then (Err ErrUnsubscribeWhileDispatching, w)
      else
        let w1 :=
          set_subscriptions
            (update_nth sid (listener, false) (subscriptions w)) w in
        let w2 := ensureCanMutateNextListeners w1 in
        let arr := array_at w2 (nextListeners w2) in
        let index := indexOf listener arr in
        let w3 :=
          set_arrays
            (update_nth (nextListeners w2) (splice1 index arr) (arrays w2))
            w2 in
        (Ok VUndefined, set_current None w3)
  end.

(** Modelled from the spec: [utils/isPlainObject] is not among the sources;
    section 4.1 has it accept plain structural mappings and reject arrays,
    class instances and primitives.  The store object is an object literal. *)
Definition isPlainObject (v : JsVal) : bool :=
  match v with
  | VObj _ plain _ => plain
  | VStore => true
  | _ => false
  end.

(** [v === null || v === undefined] *)
Definition is_nullish (v : JsVal) : bool :=
  match v with
  | VUndefined | VNull => true
  | _ => false
  end.

(** [v[key]]: an own property first, then what the environment gives;
    [null] and [undefined] have no properties and the access throws. *)
Definition get_prop (env : Env) (v : JsVal) (key : string) : Result JsVal :=
  match v with
  | VUndefined | VNull => Err ErrTypeError
  | VObj addr _ props =>
      Ok (if has_own key props then lookup key props
          else inherited env addr key)
  | _ => Ok (member env v key)
  end.

(** The keys of the store object: the object literal at the end of
    [createStore]. *)
Definition store_keys (env : Env) : list string :=
  ["dispatch"; "subscribe"; "getState"; "replaceReducer"]
  ++ match observable_key env with
     | Some key => [key]
     | None => []
     end.

(** [Object.keys(v)] for a value other than [null] and [undefined]: the
    own enumerable properties of an object, the indices of a string,
    nothing for the other primitives and for functions. *)
Definition own_keys (env : Env) (v : JsVal) : list string :=
  match v with
  | VObj _ _ props => map fst props
  | VStore => store_keys env
  | VStr s =>
      map (fun i => NilZero.string_of_uint (Nat.to_uint i))
        (seq 0 (String.length s))
  | _ => []
  end.

(** [Object.keys(v).length] *)
Definition keys_length (env : Env) (v : JsVal) : Result nat :=
  if is_nullish v then Err ErrTypeError
  else Ok (List.length (own_keys env v)).

Definition Outcome : Type := option (Result JsVal * World).

Module Redux.

Section Store.

Variable env : Env.

(** The bodies of the user's functions: [fenv id args] is what calling
    [VFun id] with [args] runs. *)
Variable fenv : nat -> list JsVal -> Prog JsVal.

(** [utils/actionTypes] is not among the sources: the reserved action
    types are parameters.  [PROBE_UNKNOWN_ACTION] draws a new random type
    at each call; the argument is the position of the key it is drawn
    for. *)
Variable INIT : string.
Variable REPLACE : string.
Variable PROBE_UNKNOWN_ACTION : nat -> string.

(** [enhancer(createStore)(reducer, preloadedState)]: what an enhancer
    does is not the core's business. *)
Variable enhancerCall : JsVal -> JsVal -> JsVal -> nat -> Outcome.

(** [{ type: t }] *)
Definition action_of (addr : nat) (t : string) : JsVal :=
  VObj addr true [("type", VStr t)].

Section Methods.

(** Running a callback body; [None] is "out of fuel". *)
Variable rec : Prog JsVal -> World -> Outcome.

(** [f(...args)] *)
Definition call (f : JsVal) (args : list JsVal) (w : World) : Outcome :=
  match f with
  | VFun id => rec (fenv id args) (log (EvCall f args) w)
  | VUnsub sid => Some (unsubscribe sid (log (EvCall f args) w))
  | _ => Some (Err ErrTypeError, w)
  end.

(** The loop [for (let i = 0; i < listeners.length; i++) listeners[i]()]
    of [dispatch], from index [i]; [listeners] is an array reference, read
    again at each iteration. *)
Fixpoint notify (fuel : nat) (i : nat) (listeners : nat) (w : World)
  : Outcome :=
  match fuel with
  | O => None
  | S fuel' =>
      match nth_error (array_at w listeners) i with
      | None => Some (Ok VUndefined, w)
      | Some listener =>
          match call listener [] w with
          | None => None
          | Some (Err e, w') => Some (Err e, w')
          | Some (Ok _, w') => notify fuel' (S i) listeners w'
          end
      end
  end.

(** [dispatch] once its three guards are passed: the [try]/[finally]
    around the reducer call, then the notification loop. *)
Definition dispatch_body (fuel : nat) (action : JsVal) (w : World)
  : Outcome :=
  (* try { isDispatching = true; currentState = ... }
     finally { isDispatching = false } *)
  let w1 := set_dispatching true w in
  match call (currentReducer w1) [currentState w1; action] w1 with
  | None => None
  | Some (Err e, w2) => Some (Err e, set_dispatching false w2)
  | Some (Ok s, w2) =>
      let w3 := set_dispatching false (set_state s w2) in
      (* const listeners = (currentListeners = nextListeners) *)
      let w4 := set_current (Some (nextListeners w3)) w3 in
      match notify fuel O (nextListeners w3) w4 with
      | None => None
      | Some (Err e, w5) => Some (Err e, w5)
      | Some (Ok _, w5) => Some (Ok action, w5)
      end
  end.

Definition dispatch (fuel : nat) (action : JsVal) (w : World) : Outcome :=
  if negb (isPlainObject action) then Some (Err ErrActionNotPlain, w)
  else
    match get_prop env action "type" with
    | Err e => Some (Err e, w)
    | Ok type =>
        if is_undefined type then Some (Err ErrActionTypeUndefined, w)
        else if isDispatching w then Some (Err ErrReducersMayNotDispatch, w)
        else dispatch_body fuel action w
    end.

Definition replaceReducer (fuel : nat) (nextReducer : JsVal) (w : World)
  : Outcome :=
  if negb (is_function nextReducer) then
    Some (Err ErrNextReducerNotFunction, w)
  else
    let w1 := set_reducer nextReducer w in
    let action := action_of (nextAddr w1) REPLACE in
    match dispatch fuel action (set_addr (S (nextAddr w1)) w1) with
    | None => None
    | Some (Err e, w2) => Some (Err e, w2)
    | Some (Ok _, w2) => Some (Ok VStore, w2)
    end.

Definition exec (fuel : nat) (c : Cmd) (w : World) : Outcome :=
  match c with
  | OGetState => Some (getState w)
  | ODispatch action => dispatch fuel action w
  | OSubscribe listener => Some (subscribe listener w)
  | OReplaceReducer nextReducer => replaceReducer fuel nextReducer w
  | OCall f args => call f args w
  | ONewObject plain props =>
      Some (Ok (VObj (nextAddr w) plain props),
            set_addr (S (nextAddr w)) w)
  end.

End Methods.

(** The interpreter: every command costs one unit of fuel. *)
Fixpoint run (fuel : nat) (A : Type) (p : Prog A) (w : World)
  : option (Result A * World) :=
  match p with
  | Ret a => Some (Ok a, w)
  | Throw e => Some (Err e, w)
  | Do c k =>
      match fuel with
      | O => None
      | S fuel' =>
          match exec (@run fuel' JsVal) fuel' c w with
          | None => None
          | Some (r, w') => run fuel' (k r) w'
          end
      end
  end.

(** The closure variables right after their declarations in
    [createStore]. *)
Definition initial (reducer preloadedState : JsVal) (addr : nat) : World :=
  mkWorld reducer preloadedState (Some O) O false [[]] [] addr [].

(** [createStore(reducer, preloadedState, enhancer, arguments[3])], with
    [addr] the next fresh object identity.  When it throws before the store
    exists, the world returned is the one of the declarations. *)
Definition createStore (fuel : nat)
    (reducer preloadedState enhancer arg3 : JsVal) (addr : nat) : Outcome :=
  if (is_function preloadedState && is_function enhancer)
     || (is_function enhancer && is_function arg3)
  then Some (Err ErrSeveralEnhancers, initial reducer preloadedState addr)
  else
    let '(preloadedState, enhancer) :=
      if is_function preloadedState && is_undefined enhancer
      then (VUndefined, preloadedState)
      else (preloadedState, enhancer) in
    if negb (is_undefined enhancer) then
      if negb (is_function enhancer) then
        Some (Err ErrEnhancerNotFunction,
              initial reducer preloadedState addr)
      else enhancerCall enhancer reducer preloadedState addr
    else if negb (is_function reducer) then
      Some (Err ErrReducerNotFunction, initial reducer preloadedState addr)
    else
      let w := initial reducer preloadedState addr in
      match dispatch (@run fuel JsVal) fuel (action_of (nextAddr w) INIT)
              (set_addr (S (nextAddr w)) w) with
      | None => None
      | Some (Err e, w') => Some (Err e, w')
      | Some (Ok _, w') => Some (Ok VStore, w')
      end.

(** ** The reducer composer (combineReducers.ts) *)

Fixpoint try_catch {A : Type} (p : Prog A) (handler : Error -> Prog A)
  : Prog A :=
  match p with
  | Ret a => Ret a
  | Throw e => handler e
  | Do c k => Do c (fun r => try_catch (k r) handler)
  end.

(** The body of the [forEach] of [assertReducerShape], over the entries of
    [reducers] from position [i]. *)
Fixpoint assertReducerShape_from (i : nat) (reducers : list (string * JsVal))
  : Prog unit :=
  match reducers with
  | [] => Ret tt
  | (key, reducer) :: rest =>
      initAction <- ONewObject true [("type", VStr INIT)] ;;
      initialState <- OCall reducer [VUndefined; initAction] ;;
      if is_undefined initialState then Throw (ErrUndefinedDuringInit key)
      else
        probeAction <-
          ONewObject true [("type", VStr (PROBE_UNKNOWN_ACTION i))] ;;
        probed <- OCall reducer [VUndefined; probeAction] ;;
        if is_undefined probed then Throw (ErrUndefinedOnProbe key)
        else assertReducerShape_from (S i) rest
  end.

Definition assertReducerShape (reducers : list (string * JsVal))
  : Prog unit :=
  assertReducerShape_from O reducers.

(** The double-quote character. *)
Definition quote : string := String (Ascii.ascii_of_nat 34) EmptyString.

(** The messages of the two errors of [assertReducerShape]. *)
Definition shape_error_message (e : Error) : option string :=
  match e with
  | ErrUndefinedDuringInit key =>
      Some ("Reducer " ++ quote ++ key ++ quote
            ++ " returned undefined during initialization. "
            ++ "If the state passed to the reducer is undefined, you must "
            ++ "explicitly return the initial state. The initial state may "
            ++ "not be undefined. If you don't want to set a value for this reducer, "
            ++ "you can use null instead of undefined.")%string
  | ErrUndefinedOnProbe key =>
      Some ("Reducer " ++ quote ++ key ++ quote
            ++ " returned undefined when probed with a random type. "
            ++ "Don't try to handle " ++ INIT
            ++ " or other actions in " ++ quote ++ "redux/*" ++ quote ++ " "
            ++ "namespace. They are considered private. Instead, you must return the "
            ++ "current state for any unknown actions, unless it is undefined, "
            ++ "in which case you must return the initial state, regardless of the "
            ++ "action type. The initial state may not be undefined, but can be null.")%string
  | _ => None
  end.

(** What the closure [combination] captures. *)
Record Composite : Type := mkComposite {
  finalReducers : list (string * JsVal);
  shapeAssertionError : option Error
}.

Definition finalReducerKeys (c : Composite) : list string :=
  map fst (finalReducers c).

(** Whether the first loop of [combineReducers] retains the entry: its
    value is a function, and [finalReducers[key] = reducers[key]] adds a
    property, which it does not for the key [__proto__] (the assignment
    then sets the prototype of [finalReducers]). *)
Definition retained (kv : string * JsVal) : bool :=
  is_function (snd kv) && negb (String.eqb (fst kv) "__proto__").

(** [combineReducers(reducers)]; [reducers] lists the entries of the
    argument in [Object.keys] order.  The [warning] of the development
    build for a key without reducer only writes to the console and is left
    out.  The [catch] block stores whatever was thrown. *)
Definition combineReducers (reducers : list (string * JsVal))
  : Prog Composite :=
  let final := filter retained reducers in
  bind
    (try_catch
       (bind (assertReducerShape final) (fun _ => Ret None))
       (fun e => Ret (Some e)))
    (fun err => Ret (mkComposite final err)).

(** The calls [reducers.hasOwnProperty(key)] that the [filter] of
    [getUnexpectedStateShapeWarningMessage] makes, one per key of the
    state, when [hasOwnProperty] is a retained reducer [f] (it then hides
    the method of [Object.prototype]). *)
Fixpoint hasOwnProperty_calls (f : JsVal) (keys : list string) : Prog unit :=
  match keys with
  | [] => Ret tt
  | key :: rest => _ <- OCall f [VStr key] ;; hasOwnProperty_calls f rest
  end.

(** What the development build's call of
    [getUnexpectedStateShapeWarningMessage] in [combination] does to the
    store: the message it composes goes to the console, and its cache of
    keys only decides the message; but the function returns early without
    reducers or on a state that is not a plain object, and otherwise calls
    a reducer that is named [hasOwnProperty]. *)
Definition shape_warning_calls (reducers : list (string * JsVal))
    (state : JsVal) : Prog unit :=
  if Nat.eqb (List.length reducers) 0 then Ret tt
  else if negb (isPlainObject state) then Ret tt
  else if has_own "hasOwnProperty" reducers then
    hasOwnProperty_calls (lookup "hasOwnProperty" reducers)
      (own_keys env state)
  else Ret tt.

(** The [for] loop of [combination] over the remaining entries, threading
    [hasChanged] and the properties of [nextState]. *)
Fixpoint combination_loop (rs : list (string * JsVal))
    (state action : JsVal) (hasChanged : bool)
    (nextState : list (string * JsVal))
  : Prog (bool * list (string * JsVal)) :=
  match rs with
  | [] => Ret (hasChanged, nextState)
  | (key, reducer) :: rest =>
      match get_prop env state key with
      | Err e => Throw e
      | Ok previousStateForKey =>
          nextStateForKey <- OCall reducer [previousStateForKey; action] ;;
          if is_undefined nextStateForKey then
            Throw (ErrUndefinedState key action)
          else
            combination_loop rest state action
              (hasChanged
               || negb (strict_eq nextStateForKey previousStateForKey))
              (assign key nextStateForKey nextState)
      end
  end.

(** [if (shapeAssertionError) throw shapeAssertionError]: what the test
    lets through is a truthy captured value. *)
Definition rethrown (c : Composite) : option Error :=
  match shapeAssertionError c with
  | Some e => if error_truthy e then Some e else None
  | None => None
  end.

(** [combination(state = {}, action)] *)
Definition combination (c : Composite) (state action : JsVal)
  : Prog JsVal :=
  (* the default value of [state] is evaluated on entry *)
  bind (if is_undefined state then perform (ONewObject true []) Ret
        else Ret state)
    (fun state =>
       match rethrown c with
       | Some e => Throw e
       | None =>
           (* if (process.env.NODE_ENV !== 'production') { ... } *)
           bind (if production env then Ret tt
                 else shape_warning_calls (finalReducers c) state)
             (fun _ =>
           (* const nextState = {} *)
           fresh <- ONewObject true [] ;;
           bind (combination_loop (finalReducers c) state action false [])
             (fun '(hasChanged, nextState) =>
                (* hasChanged || finalReducerKeys.length !==
                   Object.keys(state).length *)
                bind
                  (if hasChanged then Ret true
                   else
                     match keys_length env state with
                     | Err e => Throw e
                     | Ok n =>
                         Ret (negb (Nat.eqb
                                      (List.length (finalReducerKeys c)) n))
                     end)
                  (fun hasChanged =>
                     if hasChanged then
                       match fresh with
                       | VObj addr plain _ =>
                           Ret (VObj addr plain nextState)
                       | _ => Ret fresh
                       end
                     else Ret state)))
       end).

(** A function value whose body is a composite: it reads its two
    arguments. *)
Definition composite_body (c : Composite) (args : list JsVal)
  : Prog JsVal :=
  combination c (nth 0 args VUndefined) (nth 1 args VUndefined).

End Store.

End Redux.

Import Redux.

(** * Vocabulary of the statements *)

Section Vocabulary.

Variable env : Env.
Variable fenv : nat -> list JsVal -> Prog JsVal.
Variable INIT : string.
Variable PROBE_UNKNOWN_ACTION : nat -> string.

(** [rec2] gives every outcome that [rec1] gives. *)
Definition extends (rec1 rec2 : Prog JsVal -> World -> Outcome) : Prop :=
  forall p w o, rec1 p w = Some o -> rec2 p w = Some o.

(** [w'] differs from [w] at most in the active reducer, the object
    counter and the trace. *)
Definition same_store (w w' : World) : Prop :=
  currentState w' = currentState w /\
  currentListeners w' = currentListeners w /\
  nextListeners w' = nextListeners w /\
  isDispatching w' = isDispatching w /\
  arrays w' = arrays w /\
  subscriptions w' = subscriptions w.

(** What the interpreter of callbacks promises under the flag. *)
Definition closed_when_busy (rec : Prog JsVal -> World -> Outcome) : Prop :=
  forall p w r w',
    isDispatching w = true -> rec p w = Some (r, w') -> same_store w w'.

(** What the interpreter of callbacks promises when the flag is down. *)
Definition keeps_idle (rec : Prog JsVal -> World -> Outcome) : Prop :=
  forall p w r w',
    isDispatching w = false -> rec p w = Some (r, w') ->
    isDispatching w' = false.

(** The trace of [w'] extends the trace of [w]. *)
Definition grows (w w' : World) : Prop :=
  exists t, trace w' = trace w ++ t.

Definition growing (rec : Prog JsVal -> World -> Outcome) : Prop :=
  forall p w r w', rec p w = Some (r, w') -> grows w w'.

(** A well-formed action: a plain object whose [type] is defined. *)
Definition well_formed (a : JsVal) : bool :=
  isPlainObject a &&
  match get_prop env a "type" with
  | Ok t => negb (is_undefined t)
  | Err _ => false
  end.

(** [f] is a user function that, called with [args], returns [v] and does
    nothing else. *)
Definition returns (f : JsVal) (args : list JsVal) (v : JsVal) : Prop :=
  exists id, f = VFun id /\ fenv id args = Ret v.

(** A listener that only returns. *)
Definition quiet (l : JsVal) : Prop := exists v, returns l [] v.

(** [w] after the calls of the listeners [ls], when they only return. *)
Definition log_calls (ls : list JsVal) (w : World) : World :=
  mkWorld (currentReducer w) (currentState w) (currentListeners w)
    (nextListeners w) (isDispatching w) (arrays w) (subscriptions w)
    (nextAddr w) (trace w ++ map (fun l => EvCall l []) ls).

(** The world after a dispatch whose reducer returned [s] and whose
    listeners [ls] all returned. *)
Definition after_dispatch (w : World) (a s : JsVal) (ls : list JsVal)
  : World :=
  mkWorld (currentReducer w) s (Some (nextListeners w)) (nextListeners w)
    false (arrays w) (subscriptions w) (nextAddr w)
    (trace w ++ EvCall (currentReducer w) [currentState w; a]
       :: map (fun l => EvCall l []) ls).

(** A store whose array references point into the heap. *)
Definition valid_refs (w : World) : Prop :=
  nextListeners w < List.length (arrays w) /\
  match currentListeners w with
  | Some c => c < List.length (arrays w)
  | None => True
  end.

(** What [state[key]] is, for a state other than [null] and [undefined]:
    for an object, its own property of that name if it has one, and
    otherwise what it inherits under that name; for another value, the
    member of that name. *)
Definition slice (state : JsVal) (key : string) : JsVal :=
  match state with
  | VObj addr _ props =>
      if has_own key props then lookup key props
      else inherited env addr key
  | VUndefined | VNull => VUndefined
  | _ => member env state key
  end.

(** [vs] are the values the per-key reducers [rs] return for the slices of
    [state] and [action]; none is [undefined]. *)
Definition slice_results (rs : list (string * JsVal))
    (state : JsVal) (action : JsVal) (vs : list JsVal)
  : Prop :=
  Forall2
    (fun kr v =>
       returns (snd kr) [slice state (fst kr); action] v /\
       is_undefined v = false)
    rs vs.

(** The properties of [nextState] after the loop. *)
Fixpoint next_props (rs : list (string * JsVal)) (vs : list JsVal)
    (nextState : list (string * JsVal)) : list (string * JsVal) :=
  match rs, vs with
  | (key, _) :: rs', v :: vs' => next_props rs' vs' (assign key v nextState)
  | _, _ => nextState
  end.

(** Whether some result differs by reference from its slice. *)
Fixpoint slice_changed (rs : list (string * JsVal)) (vs : list JsVal)
    (state : JsVal) : bool :=
  match rs, vs with
  | (key, _) :: rs', v :: vs' =>
      negb (strict_eq v (slice state key)) || slice_changed rs' vs' state
  | _, _ => false
  end.

(** The calls of the loop, in order. *)
Definition reducer_calls (rs : list (string * JsVal))
    (state : JsVal) (action : JsVal) : list Event :=
  map (fun kr => EvCall (snd kr) [slice state (fst kr); action]) rs.

(** [Object.keys(state).length], for a state other than [null] and
    [undefined]. *)
Definition key_count (state : JsVal) : nat :=
  List.length (own_keys env state).

(** The composite [c] is one that [combineReducers] can build and whose
    shape warning calls no reducer: no retained key is [__proto__], and
    either the build is the production build or no retained key is
    [hasOwnProperty]. *)
Definition ordinary (c : Composite) : Prop :=
  has_own "__proto__" (finalReducers c) = false /\
  (production env = true \/
   has_own "hasOwnProperty" (finalReducers c) = false).

(** [w] with [evs] added to its trace. *)
Definition log_events (evs : list Event) (w : World) : World :=
  mkWorld (currentReducer w) (currentState w) (currentListeners w)
    (nextListeners w) (isDispatching w) (arrays w) (subscriptions w)
    (nextAddr w) (trace w ++ evs).

(** The reducers [rs], checked from position [i] on, return defined
    values for both probes. *)
Fixpoint passes_from (i : nat) (rs : list (string * JsVal)) : Prop :=
  match rs with
  | [] => True
  | (_, r) :: rest =>
      (exists v1 v2,
          (forall addr, returns r [VUndefined; action_of addr INIT] v1) /\
          is_undefined v1 = false /\
          (forall addr,
              returns r
                [VUndefined; action_of addr (PROBE_UNKNOWN_ACTION i)] v2) /\
          is_undefined v2 = false) /\
      passes_from (S i) rest
  end.

(** The reducer [r], checked at position [i], returns [undefined] for the
    [INIT] probe ([e] is then the first error), or a defined value for it
    and [undefined] for the random probe ([e] is the second error). *)
Definition offends (i : nat) (key : string) (r : JsVal) (e : Error) : Prop :=
  ((forall addr, returns r [VUndefined; action_of addr INIT] VUndefined) /\
   e = ErrUndefinedDuringInit key) \/
  ((exists v1,
       (forall addr, returns r [VUndefined; action_of addr INIT] v1) /\
       is_undefined v1 = false) /\
   (forall addr,
       returns r [VUndefined; action_of addr (PROBE_UNKNOWN_ACTION i)]
         VUndefined) /\
   e = ErrUndefinedOnProbe key).

(** [msg] contains [key]. *)
Definition names_key (msg key : string) : Prop :=
  exists pre post, msg = (pre ++ key ++ post)%string.

(** The body [function () { store.subscribe(added) }]. *)
Definition subscribes (l added : JsVal) : Prop :=
  exists lid,
    l = VFun lid /\
    fenv lid [] = perform (OSubscribe added) (fun _ => Ret VUndefined).

End Vocabulary.

(** * A concrete application *)

(** A small application: function [0] is a counter reducer, [1] a listener
    that only returns, [2] a reducer that throws, [3] a reducer that
    dispatches the action it is given, [4] a listener that dispatches [INC]
    when the state is [0], [5] a listener that always dispatches, [6] a
    reducer that calls [replaceReducer], [7] a listener that subscribes
    listener [1], [8] the composite of the counter under the key [count],
    and [9] a reducer that returns [undefined]. *)
Definition demo_type (action : JsVal) : JsVal :=
  match action with
  | VObj _ _ props => lookup "type" props
  | _ => VUndefined
  end.

(** The members of [Object.prototype] other than [__proto__]. *)
Definition Object_prototype_keys : list string :=
  ["constructor"; "toString"; "toLocaleString"; "valueOf";
   "hasOwnProperty"; "isPrototypeOf"; "propertyIsEnumerable";
   "__defineGetter__"; "__defineSetter__"; "__lookupGetter__";
   "__lookupSetter__"].

(** An environment: every object inherits from [Object.prototype] (whose
    methods are all shown as function [30], and which [__proto__] gives as
    an object that is not plain) and has no enumerable inherited property;
    the other values have no property; the build is the development build
    and [Symbol.observable] does not exist. *)
Definition demo_env : Env :=
  mkEnv
    (fun _ key =>
       if String.eqb key "__proto__" then VObj 1000 false []
       else if existsb (String.eqb key) Object_prototype_keys then VFun 30
       else VUndefined)
    (fun _ => [])
    (fun _ _ => VUndefined)
    false
    (Some "@@observable").

Definition demo_fenv (id : nat) (args : list JsVal) : Prog JsVal :=
  let state := nth 0 args VUndefined in
  let action := nth 1 args VUndefined in
  match id with
  | 0 =>
      Ret (match state with
           | VUndefined => VNum 0
           | VNum z =>
               if strict_eq (demo_type action) (VStr "INC")
               then VNum (z + 1) else VNum z
           | s => s
           end)
  | 1 => Ret VUndefined
  | 2 => Throw (ErrUser 7)
  | 3 => perform (ODispatch action) (fun _ => Ret state)
  | 4 =>
      Do OGetState
        (fun r =>
           match r with
           | Ok (VNum 0) =>
               b <- ONewObject true [("type", VStr "INC")] ;;
               _ <- ODispatch b ;;
               Ret VUndefined
           | Ok _ => Ret VUndefined
           | Err e => Throw e
           end)
  | 5 => perform (ODispatch (VObj 0 true [("type", VStr "INC")]))
           (fun _ => Ret VUndefined)
  | 6 => perform (OReplaceReducer (VFun 0)) Ret
  | 7 => perform (OSubscribe (VFun 1)) (fun _ => Ret VUndefined)
  | 8 => composite_body demo_env (mkComposite [("count", VFun 0)] None) args
  | _ => Ret VUndefined
  end.

Definition demo_INIT : string := "@@redux/INIT".
Definition demo_REPLACE : string := "@@redux/REPLACE".
Definition demo_PROBE (i : nat) : string := "@@redux/PROBE_UNKNOWN_ACTION".

(** An enhancer that is never called. *)
Definition demo_enhancer (f reducer preloadedState : JsVal) (addr : nat)
  : Outcome := None.

Definition demo_run (n : nat) : Prog JsVal -> World -> Outcome :=
  run demo_env demo_fenv demo_REPLACE n (A:=JsVal).

Definition demo_action (addr : nat) (t : string) : JsVal :=
  VObj addr true [("type", VStr t)].

(** * Further vocabulary *)

(** The array [r] exists and no write can reach it: it is not the next
    list, or it is the list [currentListeners] points to (a write to the
    next list then copies it first). *)
Definition frozen (r : nat) (w : World) : Prop :=
  r < List.length (arrays w) /\
  (r <> nextListeners w \/ currentListeners w = Some r).

(** What the interpreter of callbacks promises about frozen arrays. *)
Definition keeps_frozen (rec : Prog JsVal -> World -> Outcome) : Prop :=
  forall r p w res w',
    frozen r w -> rec p w = Some (res, w') ->
    frozen r w' /\ array_at w' r = array_at w r.

(** How many entries of [arr] are strictly equal to [l]. *)
Fixpoint count_listener (l : JsVal) (arr : list JsVal) : nat :=
  match arr with
  | [] => 0
  | y :: t => (if strict_eq y l then 1 else 0) + count_listener l t
  end.

(** How many subscriptions of [l] still have [isSubscribed] set. *)
Fixpoint live_count (l : JsVal) (subs : list (JsVal * bool)) : nat :=
  match subs with
  | [] => 0
  | (y, b) :: t => (if b && strict_eq y l then 1 else 0) + live_count l t
  end.

(** The next list holds each listener once per live subscription, the
    subscribed values are functions, and the array references are valid. *)
Definition consistent (w : World) : Prop :=
  valid_refs w /\
  Forall (fun s => is_function (fst s) = true) (subscriptions w) /\
  forall l,
    count_listener l (array_at w (nextListeners w))
    = live_count l (subscriptions w).

(** What the interpreter of callbacks promises about consistency. *)
Definition keeps_consistent (rec : Prog JsVal -> World -> Outcome) : Prop :=
  forall p w res w', consistent w -> rec p w = Some (res, w') -> consistent w'.

(** The listener [l] is a user function whose body throws [e]. *)
Definition throws (fenv : nat -> list JsVal -> Prog JsVal)
    (l : JsVal) (e : Error) : Prop :=
  exists lid, l = VFun lid /\ fenv lid [] = Throw e.

(** The body [function () { unsubscribe() }], for the closure returned by
    the [sid]-th call of [subscribe]. *)
Definition unsubscribes (fenv : nat -> list JsVal -> Prog JsVal)
    (l : JsVal) (sid : nat) : Prop :=
  exists lid,
    l = VFun lid /\
    fenv lid [] = perform (OCall (VUnsub sid) []) (fun _ => Ret VUndefined).

(** [w] after [k] objects were built and the calls [evs] were made. *)
Definition advance (k : nat) (evs : list Event) (w : World) : World :=
  mkWorld (currentReducer w) (currentState w) (currentListeners w)
    (nextListeners w) (isDispatching w) (arrays w) (subscriptions w)
    (nextAddr w + k) (trace w ++ evs).

(** The calls of [assertReducerShape] for reducers that pass: for the key
    at position [i], the [INIT] probe then the random probe, each with a
    fresh action object, from the object identity [addr] on. *)
Fixpoint probe_calls (INIT : string) (PROBE_UNKNOWN_ACTION : nat -> string)
    (i addr : nat) (rs : list (string * JsVal)) : list Event :=
  match rs with
  | [] => []
  | (_, r) :: rest =>
      EvCall r [VUndefined; action_of addr INIT]
      :: EvCall r [VUndefined;
                   action_of (S addr) (PROBE_UNKNOWN_ACTION i)]
      :: probe_calls INIT PROBE_UNKNOWN_ACTION (S i) (S (S addr)) rest
  end.

(** The function value [f], called with [args], throws [e] and does
    nothing else. *)
Definition raises (fenv : nat -> list JsVal -> Prog JsVal)
    (f : JsVal) (args : list JsVal) (e : Error) : Prop :=
  exists id, f = VFun id /\ fenv id args = Throw e.

(** ** The shape warning of the composer *)

(** [action && action.type === t] *)
Definition action_has_type (env : Env) (action : JsVal) (t : string) : bool :=
  truthy action &&
  match get_prop env action "type" with
  | Ok v => strict_eq v (VStr t)
  | Err _ => false
  end.

(** Membership of a key in a list of keys. *)
Definition has_key (key : string) (keys : list string) : bool :=
  existsb (String.eqb key) keys.

Section ShapeWarning.

Variable env : Env.

(** [utils/actionTypes] is not among the sources. *)
Variable INIT : string.
Variable REPLACE : string.

(** The name that [Object.prototype.toString] and the regular expression
    of the function give for an object that is not plain; it depends on
    the class of the object, which the values do not record. *)
Variable class_name : JsVal -> string.

(** The letters that follow the blank in
    [Object.prototype.toString.call(v)]. *)
Definition matchType (v : JsVal) : string :=
  match v with
  | VUndefined => "Undefined"
  | VNull => "Null"
  | VBool _ => "Boolean"
  | VNum _ | VNaN => "Number"
  | VStr _ => "String"
  | VFun _ | VUnsub _ => "Function"
  | _ => class_name v
  end.

(** [keys.join('", "')] *)
Definition join_keys (keys : list string) : string :=
  String.concat (quote ++ ", " ++ quote)%string keys.

(** [reducers.hasOwnProperty(key)], for the object [finalReducers] that
    [combination] passes: the method of [Object.prototype], unless
    [hasOwnProperty] is itself a key of [reducers]; that reducer is then
    what is called, with the key as its first argument. *)
Definition hasOwnProperty (reducers : list (string * JsVal)) (key : string)
  : Prog bool :=
  if has_own "hasOwnProperty" reducers then
    owns <- OCall (lookup "hasOwnProperty" reducers) [VStr key] ;;
    Ret (truthy owns)
  else Ret (has_own key reducers).

(** [unexpectedKeyCache[key]], truthy or not, for the object [{}] that
    [combineReducers] builds, of identity [addr], in which the keys
    [cache] have been set to [true]: a key that was never set is read on
    the prototype. *)
Definition cached (addr : nat) (cache : list string) (key : string) : bool :=
  has_key key cache || truthy (inherited env addr key).

(** [keys.filter(key => !reducers.hasOwnProperty(key) &&
    !unexpectedKeyCache[key])] *)
Fixpoint unexpected_keys (reducers : list (string * JsVal))
    (addr : nat) (cache : list string) (keys : list string)
  : Prog (list string) :=
  match keys with
  | [] => Ret []
  | key :: rest =>
      bind (hasOwnProperty reducers key)
        (fun owns =>
           bind (unexpected_keys reducers addr cache rest)
             (fun found =>
                Ret (if negb owns && negb (cached addr cache key)
                     then key :: found else found)))
  end.

(** [unexpectedKeys.forEach(key => { unexpectedKeyCache[key] = true })]:
    the key [__proto__] is not added (the assignment of [true] reaches the
    setter of [Object.prototype], which ignores it). *)
Definition cache_add (cache : list string) (keys : list string)
  : list string :=
  cache ++ filter (fun key => negb (String.eqb key "__proto__")) keys.

(** [getUnexpectedStateShapeWarningMessage(inputState, reducers, action,
    unexpectedKeyCache)]: the message ([None] for [undefined]) and the
    keys of the cache after the call.  [reducers] lists the entries of
    [finalReducers] in [Object.keys] order; the cache is the object of
    identity [addr] with the keys [unexpectedKeyCache]. *)
Definition getUnexpectedStateShapeWarningMessage (inputState : JsVal)
    (reducers : list (string * JsVal)) (action : JsVal)
    (addr : nat) (unexpectedKeyCache : list string)
  : Prog (option string * list string) :=
  let reducerKeys := map fst reducers in
  let argumentName :=
    if action_has_type env action INIT
    then "preloadedState argument passed to createStore"
    else "previous state received by the reducer" in
  if Nat.eqb (List.length reducerKeys) 0 then
    Ret
      (Some ("Store does not have a valid reducer. Make sure the argument passed "
             ++ "to combineReducers is an object whose values are reducers.")%string,
       unexpectedKeyCache)
  else if negb (isPlainObject inputState) then
    Ret
      (Some ("The " ++ argumentName ++ " has unexpected type of " ++ quote
             ++ matchType inputState
             ++ quote ++ ". Expected argument to be an object with the following "
             ++ "keys: " ++ quote ++ join_keys reducerKeys ++ quote)%string,
       unexpectedKeyCache)
  else
    bind
      (unexpected_keys reducers addr unexpectedKeyCache
         (own_keys env inputState))
      (fun unexpectedKeys =>
         let cache := cache_add unexpectedKeyCache unexpectedKeys in
         if action_has_type env action REPLACE then Ret (None, cache)
         else if Nat.ltb 0 (List.length unexpectedKeys) then
           Ret
             (Some ("Unexpected "
                    ++ (if Nat.ltb 1 (List.length unexpectedKeys)
                        then "keys" else "key")
                    ++ " " ++ quote ++ join_keys unexpectedKeys ++ quote
                    ++ " found in " ++ argumentName ++ ". "
                    ++ "Expected to find one of the known reducer keys instead: "
                    ++ quote ++ join_keys reducerKeys ++ quote
                    ++ ". Unexpected keys will be ignored.")%string,
              cache)
         else Ret (None, cache)).

End ShapeWarning.

(** The test of the filter when it calls nobody: a key is unexpected when
    it is no reducer key and is not read as truthy in the cache. *)
Definition unexpected (env : Env) (reducers : list (string * JsVal))
    (addr : nat) (cache : list string) (key : string) : bool :=
  negb (has_own key reducers) && negb (cached env addr cache key).

(** ** Binding action creators *)

(** [typeof v] *)
Definition typeof (v : JsVal) : string :=
  match v with
  | VUndefined => "undefined"
  | VNull => "object"
  | VBool _ => "boolean"
  | VNum _ | VNaN => "number"
  | VStr _ => "string"
  | VObj _ _ _ | VStore => "object"
  | VFun _ | VUnsub _ => "function"
  end.

(** The [dispatch] argument of [bindActionCreators]: the store's own
    [dispatch] method, which is not a value of [JsVal], or a function
    value. *)
Inductive Dispatcher : Type :=
| StoreDispatch
| FunctionDispatch (f : JsVal).

(** The closure that [bindActionCreator] returns; it captures its two
    arguments. *)
Record BoundCreator : Type := mkBound {
  actionCreator : JsVal;
  boundDispatch : Dispatcher
}.

Definition bindActionCreator (actionCreator : JsVal) (dispatch : Dispatcher)
  : BoundCreator :=
  mkBound actionCreator dispatch.

(** Calling the closure: [dispatch(actionCreator.apply(this, args))]
    ([this] is not modelled). *)
Definition call_bound (b : BoundCreator) (args : list JsVal) : Prog JsVal :=
  action <- OCall (actionCreator b) args ;;
  match boundDispatch b with
  | StoreDispatch => perform (ODispatch action) Ret
  | FunctionDispatch f => perform (OCall f [action]) Ret
  end.

(** What [bindActionCreators] gives: one closure, an object of closures,
    or the error it throws, which carries what the message says was
    received. *)
Inductive Bindings : Type :=
| BoundFunction (b : BoundCreator)
| BoundObject (entries : list (string * BoundCreator))
| BindExpectedObjectOrFunction (received : string).

(** The message of the error of [bindActionCreators]. *)
Definition bind_error_message (received : string) : string :=
  ("bindActionCreators expected an object or a function, instead received "
   ++ received ++ ". "
   ++ "Did you write " ++ quote ++ "import ActionCreators from" ++ quote
   ++ " instead of " ++ quote ++ "import * as ActionCreators from" ++ quote
   ++ "?")%string.

(** The keys that [for (const key in actionCreators)] visits: the own
    enumerable ones, then the enumerable ones of the prototype chain that
    no own property hides. *)
Definition for_in_keys (env : Env) (v : JsVal) : list string :=
  match v with
  | VObj addr _ props =>
      map fst props
      ++ filter (fun key => negb (has_own key props))
           (for_in_inherited env addr)
  | _ => []
  end.

(** The body of the [for ... in] loop, over the keys still to visit;
    [boundActionCreators[key] = ...] adds no property for the key
    [__proto__]. *)
Fixpoint bind_entries (env : Env) (actionCreators : JsVal)
    (keys : list string) (dispatch : Dispatcher)
    (bound : list (string * BoundCreator)) : list (string * BoundCreator) :=
  match keys with
  | [] => bound
  | key :: rest =>
      bind_entries env actionCreators rest dispatch
        (match get_prop env actionCreators key with
         | Ok actionCreator =>
             if is_function actionCreator
                && negb (String.eqb key "__proto__")
             then assign key (bindActionCreator actionCreator dispatch) bound
             else bound
         | Err _ => bound
         end)
  end.

(** [bindActionCreators(actionCreators, dispatch)].  The store object,
    whose properties are its methods, is outside the model ([None]). *)
Definition bindActionCreators (env : Env) (actionCreators : JsVal)
    (dispatch : Dispatcher) : option Bindings :=
  if is_function actionCreators then
    Some (BoundFunction (bindActionCreator actionCreators dispatch))
  else
    match actionCreators with
    | VNull => Some (BindExpectedObjectOrFunction "null")
    | VObj _ _ _ =>
        Some (BoundObject
                (bind_entries env actionCreators
                   (for_in_keys env actionCreators) dispatch []))
    | VStore => None
    | _ => Some (BindExpectedObjectOrFunction (typeof actionCreators))
    end.

(** What the loop binds: the functions among [actionCreators[key]],
    [__proto__] excepted. *)
Definition bindable (env : Env) (actionCreators : JsVal) (key : string)
  : bool :=
  is_function (slice env actionCreators key)
  && negb (String.eqb key "__proto__").

(** ** The observable adapter of the store *)

(** The closure [observeState] of [observable().subscribe(observer)]:
    [if (observer.next) observer.next(getState())]. *)
Definition observeState (env : Env) (observer : JsVal) : Prog JsVal :=
  match get_prop env observer "next" with
  | Err e => Throw e
  | Ok next =>
      if truthy next then
        state <- OGetState ;;
        _ <- OCall next [state] ;;
        Ret VUndefined
      else Ret VUndefined
  end.

(** [observable().subscribe(observer)].  [observeStateFn] is the function
    value of the closure [observeState]: a [VFun] whose body is
    [observeState observer].  The error is the [TypeError] that the
    method throws itself. *)
Definition observable_subscribe (env : Env) (observeStateFn observer : JsVal)
  : Prog JsVal :=
  if negb (String.eqb (typeof observer) "object") || strict_eq observer VNull
  then Throw ErrTypeError
  else
    bind (observeState env observer)
      (fun _ =>
         unsubscribe <- OSubscribe observeStateFn ;;
         perform (ONewObject true [("unsubscribe", unsubscribe)]) Ret).

(** ** More of the concrete application *)

(** An observer whose [next] is listener [1]. *)
Definition demo_observer : JsVal := VObj 50 true [("next", VFun 1)].

(** The functions of [demo_fenv], and: [20] a listener that calls the
    [unsubscribe] closure of the first subscription, [21] the closure
    [observeState] for [demo_observer], [22] an action creator, [23] an
    action creator that returns a function, [24] a composite whose
    validation failed, [25] a reducer that throws [null]. *)
Definition more_fenv (id : nat) (args : list JsVal) : Prog JsVal :=
  match id with
  | 20 => perform (OCall (VUnsub 0) []) (fun _ => Ret VUndefined)
  | 21 => observeState demo_env demo_observer
  | 22 => Ret (VObj 60 true [("type", VStr "INC")])
  | 23 => Ret (VFun 22)
  | 24 =>
      composite_body demo_env
        (mkComposite [("bad", VFun 9)] (Some (ErrUndefinedDuringInit "bad")))
        args
  | 25 => Throw (ErrThrown VNull)
  | _ => demo_fenv id args
  end.

(** The environment [demo_env] with two class instances: the object of
    identity [80] inherits an enumerable method [dec] (function [22]) and
    the object of identity [81] a method [next] (function [1]) that is not
    enumerable. *)
Definition class_env : Env :=
  mkEnv
    (fun addr key =>
       if Nat.eqb addr 80 && String.eqb key "dec" then VFun 22
       else if Nat.eqb addr 81 && String.eqb key "next" then VFun 1
       else inherited demo_env addr key)
    (fun addr => if Nat.eqb addr 80 then ["dec"] else [])
    (member demo_env)
    (production demo_env)
    (observable_key demo_env).

(** A class name for objects that are not plain. *)
Definition demo_class_name (v : JsVal) : string := "Array".

(** * Properties *)

Unset Implicit Arguments.

Section Properties.

Variable env : Env.
Variable fenv : nat -> list JsVal -> Prog JsVal.
Variable INIT : string.
Variable REPLACE : string.
Variable PROBE_UNKNOWN_ACTION : nat -> string.
Variable enhancerCall : JsVal -> JsVal -> JsVal -> nat -> Outcome.

Local Abbreviation run := (run env fenv REPLACE).
Local Abbreviation runJ n := (@Redux.run env fenv REPLACE n JsVal).
Local Abbreviation exec := (exec env fenv REPLACE).
Local Abbreviation dispatch := (dispatch env fenv).
Local Abbreviation dispatch_body := (dispatch_body fenv).
Local Abbreviation notify := (notify fenv).
Local Abbreviation call := (call fenv).
Local Abbreviation replaceReducer := (replaceReducer env fenv REPLACE).
Local Abbreviation createStore :=
  (createStore env fenv INIT REPLACE enhancerCall).
Local Abbreviation combination := (combination env).
Local Abbreviation shape_warning_calls := (shape_warning_calls env).
Local Abbreviation composite_body := (composite_body env).
Local Abbreviation combineReducers :=
  (combineReducers INIT PROBE_UNKNOWN_ACTION).
Local Abbreviation assertReducerShape_from :=
  (assertReducerShape_from INIT PROBE_UNKNOWN_ACTION).
Local Abbreviation shape_error_message := (shape_error_message INIT).
Local Abbreviation returns := (returns fenv).
Local Abbreviation quiet := (quiet fenv).
Local Abbreviation subscribes := (subscribes fenv).
Local Abbreviation slice_results := (slice_results env fenv).
Local Abbreviation passes_from :=
  (passes_from fenv INIT PROBE_UNKNOWN_ACTION).
Local Abbreviation offends := (offends fenv INIT PROBE_UNKNOWN_ACTION).

(** ** The equations of the interpreter *)

Lemma run_ret n (A : Type) (a : A) w : run n (Ret a) w = Some (Ok a, w).
Proof. destruct n; reflexivity. Qed.

Lemma run_throw n (A : Type) (e : Error) w :
  run n (Throw (A:=A) e) w = Some (Err e, w).
Proof. destruct n; reflexivity. Qed.

Lemma run_do n (A : Type) c (k : Result JsVal -> Prog A) w :
  run (S n) (Do c k) w =
  match exec (runJ n) n c w with
  | None => None
  | Some (r, w') => run n (k r) w'
  end.
Proof. reflexivity. Qed.

(** ** More fuel never changes an outcome *)

Lemma call_mono rec1 rec2 f args w o :
  extends rec1 rec2 ->
  call rec1 f args w = Some o -> call rec2 f args w = Some o.
Proof.
  intros Hrec. destruct f; simpl; auto.
Qed.

Lemma notify_mono rec1 rec2 n1 :
  extends rec1 rec2 ->
  forall n2 i ref w o, n1 <= n2 ->
    notify rec1 n1 i ref w = Some o -> notify rec2 n2 i ref w = Some o.
Proof.
  intros Hrec. induction n1 as [|n1 IH]; intros n2 i ref w o Hle H.
  - discriminate.
  - destruct n2 as [|n2]; [lia|]. simpl in *.
    destruct (nth_error (array_at w ref) i) as [l|]; [|assumption].
    destruct (call rec1 l [] w) as [[r w']|] eqn:Hc; [|discriminate].
    rewrite (call_mono _ _ _ _ _ _ Hrec Hc).
    destruct r; [|assumption].
    apply IH; [lia|assumption].
Qed.

Lemma dispatch_mono rec1 rec2 n1 n2 a w o :
  extends rec1 rec2 -> n1 <= n2 ->
  dispatch rec1 n1 a w = Some o -> dispatch rec2 n2 a w = Some o.
Proof.
  intros Hrec Hle. unfold Redux.dispatch.
  destruct (negb (isPlainObject a)); [auto|].
  destruct (get_prop env a "type") as [t|e]; [|auto].
  destruct (is_undefined t); [auto|].
  destruct (isDispatching w); [auto|]. unfold Redux.dispatch_body.
  destruct (call rec1 _ _ _) as [[r w2]|] eqn:Hc; [|discriminate].
  rewrite (call_mono _ _ _ _ _ _ Hrec Hc).
  destruct r; [|auto].
  destruct (notify rec1 _ _ _ _) as [[r' w5]|] eqn:Hn; [|discriminate].
  rewrite (notify_mono _ _ _ Hrec _ _ _ _ _ Hle Hn). auto.
Qed.

Lemma exec_mono rec1 rec2 n1 n2 c w o :
  extends rec1 rec2 -> n1 <= n2 ->
  exec rec1 n1 c w = Some o -> exec rec2 n2 c w = Some o.
Proof.
  intros Hrec Hle. destruct c; simpl; auto.
  - apply dispatch_mono; assumption.
  - unfold Redux.replaceReducer.
    destruct (negb (is_function nextReducer)); [auto|].
    destruct (dispatch rec1 _ _ _) as [[r w2]|] eqn:Hd; [|discriminate].
    rewrite (dispatch_mono _ _ _ _ _ _ _ Hrec Hle Hd). auto.
  - apply call_mono; assumption.
Qed.

Lemma run_mono n1 :
  forall n2 (A : Type) (p : Prog A) w o, n1 <= n2 ->
    run n1 p w = Some o -> run n2 p w = Some o.
Proof.
  induction n1 as [|n1 IH]; intros n2 A p w o Hle H.
  - destruct p; simpl in *; try discriminate;
      destruct n2; simpl; assumption.
  - destruct p; simpl in *.
    + destruct n2; assumption.
    + destruct n2; assumption.
    + destruct n2 as [|n2]; [lia|]. simpl.
      destruct (exec (Redux.run env fenv REPLACE n1 (A:=JsVal)) n1 c w)
        as [[r w']|] eqn:He; [|discriminate].
      assert (Hext : extends (Redux.run env fenv REPLACE n1 (A:=JsVal))
                             (Redux.run env fenv REPLACE n2 (A:=JsVal))).
      { intros p' w0 o' Hp. apply (IH n2 JsVal p' w0 o'); [lia|assumption]. }
      rewrite (exec_mono _ _ n1 n2 _ _ _ Hext ltac:(lia) He).
      apply IH; [lia|assumption].
Qed.

(** ** While a dispatch is in progress, the store is closed *)

Lemma same_store_refl w : same_store w w.
Proof. repeat split. Qed.

Lemma same_store_trans w1 w2 w3 :
  same_store w1 w2 -> same_store w2 w3 -> same_store w1 w3.
Proof.
  unfold same_store. intros (A1 & A2 & A3 & A4 & A5 & A6)
    (B1 & B2 & B3 & B4 & B5 & B6).
  repeat split; congruence.
Qed.

Lemma unsubscribe_busy sid w r w' :
  isDispatching w = true -> unsubscribe sid w = (r, w') -> w' = w.
Proof.
  intros Hb. unfold unsubscribe.
  destruct (nth_error (subscriptions w) sid) as [[l b]|];
    [|intros H; inversion H; reflexivity].
  destruct b; simpl; rewrite ?Hb; intros H; inversion H; reflexivity.
Qed.

Lemma call_busy rec f args w r w' :
  closed_when_busy rec -> isDispatching w = true ->
  call rec f args w = Some (r, w') -> same_store w w'.
Proof.
  intros Hrec Hb. destruct f; simpl; intros H;
    try (inversion H; subst; apply same_store_refl).
  - apply Hrec in H; [|assumption].
    eapply same_store_trans; [|exact H]. repeat split.
  - inversion H as [H1]. apply unsubscribe_busy in H1; [|assumption].
    subst w'. repeat split.
Qed.

Lemma dispatch_busy rec n a w r w' :
  isDispatching w = true -> dispatch rec n a w = Some (r, w') ->
  w' = w /\ (isPlainObject a = true -> get_prop env a "type" <> Ok VUndefined ->
             r = Err ErrReducersMayNotDispatch).
Proof.
  intros Hb. unfold Redux.dispatch.
  destruct (isPlainObject a) eqn:Hp; simpl.
  - destruct (get_prop env a "type") as [t|e] eqn:Ht.
    + destruct t; simpl; rewrite ?Hb; intros H; inversion H; subst;
        split; try reflexivity; intros _ Hne; congruence.
    + destruct a; simpl in Ht, Hp; discriminate.
  - intros H; inversion H; subst; split; [reflexivity|intros Hq; discriminate Hq].
Qed.

Lemma exec_busy rec n c w r w' :
  closed_when_busy rec -> isDispatching w = true ->
  exec rec n c w = Some (r, w') -> same_store w w'.
Proof.
  intros Hrec Hb. destruct c; simpl.
  - unfold getState. rewrite Hb. intros H; inversion H. apply same_store_refl.
  - intros H. apply dispatch_busy in H; [|assumption].
    destruct H as [-> _]. apply same_store_refl.
  - unfold subscribe. rewrite Hb.
    destruct (negb (is_function listener)); intros H; inversion H;
      apply same_store_refl.
  - unfold Redux.replaceReducer.
    destruct (negb (is_function nextReducer));
      [intros H; inversion H; apply same_store_refl|].
    destruct (dispatch rec n _ _) as [[r2 w2]|] eqn:Hd; [|discriminate].
    apply dispatch_busy in Hd; [|assumption]. destruct Hd as [-> _].
    destruct r2; intros H; inversion H; repeat split.
  - apply call_busy; assumption.
  - intros H; inversion H. repeat split.
Qed.

Lemma run_busy n :
  forall (A : Type) (p : Prog A) w r w',
    isDispatching w = true -> run n p w = Some (r, w') -> same_store w w'.
Proof.
  induction n as [|n IH]; intros A p w r w' Hb H.
  - destruct p; simpl in H; inversion H; apply same_store_refl.
  - destruct p; simpl in H; try (inversion H; apply same_store_refl).
    destruct (exec _ n c w) as [[r1 w1]|] eqn:He; [|discriminate].
    apply exec_busy in He; [|exact (IH JsVal)|assumption].
    eapply same_store_trans; [exact He|].
    apply (IH A (k r1) w1 r w'); [|assumption].
    destruct He as (_ & _ & _ & Hd & _). congruence.
Qed.

(** ** Outside the reducer call, the flag is down *)

Lemma ensure_flag w :
  isDispatching (ensureCanMutateNextListeners w) = isDispatching w.
Proof.
  unfold ensureCanMutateNextListeners.
  destruct (currentListeners w); [|reflexivity].
  destruct (Nat.eqb _ _); reflexivity.
Qed.

Lemma unsubscribe_flag sid w r w' :
  unsubscribe sid w = (r, w') -> isDispatching w' = isDispatching w.
Proof.
  unfold unsubscribe.
  destruct (nth_error (subscriptions w) sid) as [[l b]|];
    [|intros H; inversion H; reflexivity].
  destruct b; simpl; [|intros H; inversion H; reflexivity].
  destruct (isDispatching w) eqn:Hd; intros H; inversion H; subst; simpl;
    [assumption|].
  rewrite ensure_flag. simpl. assumption.
Qed.

Lemma subscribe_flag l w r w' :
  subscribe l w = (r, w') -> isDispatching w' = isDispatching w.
Proof.
  unfold subscribe.
  destruct (negb (is_function l)); [intros H; inversion H; reflexivity|].
  destruct (isDispatching w) eqn:Hd; intros H; inversion H; subst; simpl;
    [assumption|].
  rewrite ensure_flag. assumption.
Qed.

Lemma call_idle rec f args w r w' :
  keeps_idle rec -> isDispatching w = false ->
  call rec f args w = Some (r, w') -> isDispatching w' = false.
Proof.
  intros Hrec Hi. destruct f; simpl; intros H;
    try (inversion H; subst; assumption).
  - eapply Hrec; [|exact H]. exact Hi.
  - inversion H as [H1]. apply unsubscribe_flag in H1. rewrite H1. exact Hi.
Qed.

Lemma notify_idle rec n :
  keeps_idle rec ->
  forall i ref w r w', isDispatching w = false ->
    notify rec n i ref w = Some (r, w') -> isDispatching w' = false.
Proof.
  intros Hrec. induction n as [|n IH]; intros i ref w r w' Hi H;
    [discriminate|].
  simpl in H.
  destruct (nth_error (array_at w ref) i) as [l|];
    [|inversion H; subst; assumption].
  destruct (call rec l [] w) as [[r1 w1]|] eqn:Hc; [|discriminate].
  apply call_idle in Hc; [|assumption|assumption].
  destruct r1; [eapply IH; eassumption|].
  inversion H; subst; assumption.
Qed.

Lemma dispatch_body_idle rec n a w r w' :
  keeps_idle rec ->
  dispatch_body rec n a w = Some (r, w') -> isDispatching w' = false.
Proof.
  intros Hrec. unfold Redux.dispatch_body.
  destruct (call rec _ _ _) as [[r1 w1]|]; [|discriminate].
  destruct r1; [|intros H; inversion H; reflexivity].
  destruct (notify rec n _ _ _) as [[r2 w2]|] eqn:Hn; [|discriminate].
  apply notify_idle in Hn; [|assumption|reflexivity].
  destruct r2; intros H; inversion H; subst; assumption.
Qed.

Lemma dispatch_idle rec n a w r w' :
  keeps_idle rec -> isDispatching w = false ->
  dispatch rec n a w = Some (r, w') -> isDispatching w' = false.
Proof.
  intros Hrec Hi. unfold Redux.dispatch.
  destruct (negb (isPlainObject a)); [intros H; inversion H; subst; auto|].
  destruct (get_prop env a "type"); [|intros H; inversion H; subst; auto].
  destruct (is_undefined _); [intros H; inversion H; subst; auto|].
  rewrite Hi. apply dispatch_body_idle; assumption.
Qed.

Lemma exec_idle rec n c w r w' :
  keeps_idle rec -> isDispatching w = false ->
  exec rec n c w = Some (r, w') -> isDispatching w' = false.
Proof.
  intros Hrec Hi. destruct c; simpl.
  - unfold getState. rewrite Hi. intros H; inversion H; subst; assumption.
  - apply dispatch_idle; assumption.
  - intros H. inversion H as [H1]. apply subscribe_flag in H1. congruence.
  - unfold Redux.replaceReducer.
    destruct (negb (is_function nextReducer));
      [intros H; inversion H; subst; assumption|].
    destruct (dispatch rec n _ _) as [[r2 w2]|] eqn:Hd; [|discriminate].
    apply dispatch_idle in Hd; [|assumption|exact Hi].
    destruct r2; intros H; inversion H; subst; assumption.
  - apply call_idle; assumption.
  - intros H; inversion H; subst; assumption.
Qed.

Lemma run_idle n :
  forall (A : Type) (p : Prog A) w r w',
    isDispatching w = false -> run n p w = Some (r, w') ->
    isDispatching w' = false.
Proof.
  induction n as [|n IH]; intros A p w r w' Hi H.
  - destruct p; simpl in H; inversion H; subst; assumption.
  - destruct p; simpl in H; try (inversion H; subst; assumption).
    destruct (exec _ n c w) as [[r1 w1]|] eqn:He; [|discriminate].
    apply exec_idle in He; [|exact (IH JsVal)|assumption].
    apply (IH A (k r1) w1 r w'); assumption.
Qed.

(** ** The trace only grows *)

Lemma grows_refl w : grows w w.
Proof. exists []. symmetry. apply app_nil_r. Qed.

Lemma grows_trans w1 w2 w3 : grows w1 w2 -> grows w2 w3 -> grows w1 w3.
Proof.
  intros [t1 H1] [t2 H2]. exists (t1 ++ t2).
  rewrite H2, H1. symmetry. apply app_assoc.
Qed.

Lemma ensure_trace w :
  trace (ensureCanMutateNextListeners w) = trace w.
Proof.
  unfold ensureCanMutateNextListeners.
  destruct (currentListeners w); [|reflexivity].
  destruct (Nat.eqb _ _); reflexivity.
Qed.

Lemma unsubscribe_trace sid w r w' :
  unsubscribe sid w = (r, w') -> trace w' = trace w.
Proof.
  unfold unsubscribe.
  destruct (nth_error (subscriptions w) sid) as [[l b]|];
    [|intros H; inversion H; reflexivity].
  destruct b; simpl; [|intros H; inversion H; reflexivity].
  destruct (isDispatching w); intros H; inversion H; subst; simpl;
    [reflexivity|].
  rewrite ensure_trace. reflexivity.
Qed.

Lemma subscribe_trace l w r w' :
  subscribe l w = (r, w') -> trace w' = trace w.
Proof.
  unfold subscribe.
  destruct (negb (is_function l)); [intros H; inversion H; reflexivity|].
  destruct (isDispatching w); intros H; inversion H; subst; simpl;
    [reflexivity|].
  apply ensure_trace.
Qed.

(** A call of a function value is recorded first. *)
Lemma call_grows rec f args w r w' :
  growing rec -> is_function f = true ->
  call rec f args w = Some (r, w') ->
  exists t, trace w' = trace w ++ EvCall f args :: t.
Proof.
  intros Hrec Hf. destruct f; try discriminate; simpl; intros H.
  - apply Hrec in H. destruct H as [t H]. exists t. rewrite H. simpl.
    rewrite <- app_assoc. reflexivity.
  - inversion H as [H1]. apply unsubscribe_trace in H1. exists [].
    rewrite H1. reflexivity.
Qed.

Lemma call_grows_any rec f args w r w' :
  growing rec -> call rec f args w = Some (r, w') -> grows w w'.
Proof.
  intros Hrec H. destruct (is_function f) eqn:Hf.
  - destruct (call_grows _ _ _ _ _ _ Hrec Hf H) as [t Ht].
    exists (EvCall f args :: t). exact Ht.
  - destruct f; try discriminate; simpl in H; inversion H; apply grows_refl.
Qed.

Lemma notify_grows rec n :
  growing rec ->
  forall i ref w r w', notify rec n i ref w = Some (r, w') -> grows w w'.
Proof.
  intros Hrec. induction n as [|n IH]; intros i ref w r w' H;
    [discriminate|].
  simpl in H.
  destruct (nth_error (array_at w ref) i) as [l|];
    [|inversion H; apply grows_refl].
  destruct (call rec l [] w) as [[r1 w1]|] eqn:Hc; [|discriminate].
  apply call_grows_any in Hc; [|assumption].
  destruct r1.
  - eapply grows_trans; [exact Hc|]. eapply IH; eassumption.
  - inversion H; subst; assumption.
Qed.

(** A dispatch that gets past its guards first calls the active reducer
    with the current state and the action. *)
Lemma dispatch_body_grows rec n a w r w' :
  growing rec -> is_function (currentReducer w) = true ->
  dispatch_body rec n a w = Some (r, w') ->
  exists t,
    trace w' = trace w ++ EvCall (currentReducer w) [currentState w; a] :: t.
Proof.
  intros Hrec Hf. unfold Redux.dispatch_body.
  destruct (call rec _ _ _) as [[r1 w1]|] eqn:Hc; [|discriminate].
  apply call_grows in Hc; [|assumption|exact Hf].
  destruct Hc as [t Ht]. simpl in Ht.
  destruct r1; [|intros H; inversion H; subst; exists t; exact Ht].
  destruct (notify rec n _ _ _) as [[r2 w2]|] eqn:Hn; [|discriminate].
  apply notify_grows in Hn; [|assumption].
  destruct Hn as [t2 Ht2]. simpl in Ht2.
  intros H. exists (t ++ t2).
  assert (trace w' = trace w2) as -> by (destruct r2; inversion H; auto).
  rewrite Ht2, Ht, <- app_assoc. reflexivity.
Qed.

Lemma dispatch_body_grows_any rec n a w r w' :
  growing rec -> dispatch_body rec n a w = Some (r, w') -> grows w w'.
Proof.
  intros Hrec. unfold Redux.dispatch_body.
  destruct (call rec _ _ _) as [[r1 w1]|] eqn:Hc; [|discriminate].
  apply call_grows_any in Hc; [|assumption].
  destruct r1; [|intros H; inversion H; subst; exact Hc].
  destruct (notify rec n _ _ _) as [[r2 w2]|] eqn:Hn; [|discriminate].
  apply notify_grows in Hn; [|assumption].
  intros H. assert (w' = w2) as -> by (destruct r2; inversion H; auto).
  eapply grows_trans; [exact Hc|]. eapply grows_trans; [|exact Hn].
  exists []. simpl. symmetry. apply app_nil_r.
Qed.

Lemma dispatch_grows rec n a w r w' :
  growing rec -> dispatch rec n a w = Some (r, w') -> grows w w'.
Proof.
  intros Hrec. unfold Redux.dispatch.
  destruct (negb (isPlainObject a));
    [intros H; inversion H; apply grows_refl|].
  destruct (get_prop env a "type"); [|intros H; inversion H; apply grows_refl].
  destruct (is_undefined _); [intros H; inversion H; apply grows_refl|].
  destruct (isDispatching w); [intros H; inversion H; apply grows_refl|].
  apply dispatch_body_grows_any; assumption.
Qed.

Lemma exec_grows rec n c w r w' :
  growing rec -> exec rec n c w = Some (r, w') -> grows w w'.
Proof.
  intros Hrec. destruct c; simpl.
  - unfold getState. destruct (isDispatching w); intros H; inversion H;
      apply grows_refl.
  - apply dispatch_grows; assumption.
  - intros H. inversion H as [H1]. apply subscribe_trace in H1.
    exists []. rewrite H1. symmetry. apply app_nil_r.
  - unfold Redux.replaceReducer.
    destruct (negb (is_function nextReducer));
      [intros H; inversion H; apply grows_refl|].
    destruct (dispatch rec n _ _) as [[r2 w2]|] eqn:Hd; [|discriminate].
    apply dispatch_grows in Hd; [|assumption].
    intros H. assert (w' = w2) as -> by (destruct r2; inversion H; auto).
    exact Hd.
  - apply call_grows_any; assumption.
  - intros H; inversion H. exists []. simpl. symmetry. apply app_nil_r.
Qed.

Lemma run_grows n :
  forall (A : Type) (p : Prog A) w r w',
    run n p w = Some (r, w') -> grows w w'.
Proof.
  induction n as [|n IH]; intros A p w r w' H.
  - destruct p; simpl in H; inversion H; apply grows_refl.
  - destruct p; simpl in H; try (inversion H; apply grows_refl).
    destruct (exec _ n c w) as [[r1 w1]|] eqn:He; [|discriminate].
    apply exec_grows in He; [|exact (IH JsVal)].
    eapply grows_trans; [exact He|]. eapply IH; eassumption.
Qed.

(** ** Dispatch *)

Lemma dispatch_guards rec n a w :
  well_formed env a = true -> isDispatching w = false ->
  dispatch rec n a w = dispatch_body rec n a w.
Proof.
  unfold well_formed, Redux.dispatch. intros Hwf Hi.
  apply andb_prop in Hwf. destruct Hwf as [Hp Ht]. rewrite Hp. simpl.
  destruct (get_prop env a "type") as [t|]; [|discriminate].
  destruct (is_undefined t); [discriminate|]. rewrite Hi. reflexivity.
Qed.

Lemma dispatch_rejected rec n a w :
  well_formed env a = true -> isDispatching w = true ->
  dispatch rec n a w = Some (Err ErrReducersMayNotDispatch, w).
Proof.
  unfold well_formed, Redux.dispatch. intros Hwf Hb.
  apply andb_prop in Hwf. destruct Hwf as [Hp Ht]. rewrite Hp. simpl.
  destruct (get_prop env a "type") as [t|]; [|discriminate].
  destruct (is_undefined t); [discriminate|]. rewrite Hb. reflexivity.
Qed.

(** C2.  When the active reducer raises [e] in a dispatch of a
    well-formed action on an idle store, [dispatch] raises [e]; the world
    it leaves is the one in which the reducer raised, with the flag
    cleared: the state is the one before the dispatch, nothing was called
    after the reducer (no listener), and a following [getState] or
    [dispatch] passes its reentrancy guard. *)
Theorem reducer_error_aborts_dispatch n w a e w2 :
  isDispatching w = false ->
  well_formed env a = true ->
  call (runJ n) (currentReducer w) [currentState w; a]
    (set_dispatching true w) = Some (Err e, w2) ->
  let w' := set_dispatching false w2 in
  dispatch (runJ n) n a w = Some (Err e, w') /\
  currentState w' = currentState w /\
  trace w' = trace w2 /\
  currentListeners w' = currentListeners w /\
  nextListeners w' = nextListeners w /\
  arrays w' = arrays w /\
  isDispatching w' = false /\
  getState w' = (Ok (currentState w), w') /\
  (forall rec m b, well_formed env b = true ->
     dispatch rec m b w' = dispatch_body rec m b w').
Proof.
  intros Hi Hwf Hc w'.
  assert (Hs : same_store (set_dispatching true w) w2).
  { eapply call_busy; [|reflexivity|exact Hc].
    intros p w0 r w0'. apply run_busy. }
  destruct Hs as (S1 & S2 & S3 & S4 & S5 & S6). simpl in *.
  split.
  { rewrite dispatch_guards by assumption.
    unfold Redux.dispatch_body. simpl in *. rewrite Hc. reflexivity. }
  repeat split; try assumption.
  - unfold getState. simpl. rewrite S1. reflexivity.
  - intros rec m b Hb. apply dispatch_guards; [assumption|reflexivity].
Qed.


(** C10.  [replaceReducer] with a function while the flag is set fails
    with [ErrReducersMayNotDispatch] after the swap: the world it leaves
    has the new reducer.  When the reducer of an idle store calls
    [replaceReducer f] and lets the error through, the dispatch fails with
    that error, leaves [f] as the active reducer, and every later dispatch
    that passes its guards calls [f] first. *)
Theorem replaceReducer_during_dispatch_keeps_swap n w a rid k f :
  isDispatching w = false ->
  well_formed env a = true ->
  is_function f = true ->
  currentReducer w = VFun rid ->
  fenv rid [currentState w; a] = Do (OReplaceReducer f) k ->
  (forall r, k r = match r with Ok v => Ret v | Err e => Throw e end) ->
  (forall rec m w1,
      isDispatching w1 = true ->
      replaceReducer rec m f w1
      = Some (Err ErrReducersMayNotDispatch,
              set_addr (S (nextAddr w1)) (set_reducer f w1))) /\
  exists w',
    dispatch (runJ (S n)) (S n) a w
    = Some (Err ErrReducersMayNotDispatch, w') /\
    currentReducer w' = f /\
    currentState w' = currentState w /\
    isDispatching w' = false /\
    (forall m b r w'',
        well_formed env b = true ->
        dispatch (runJ m) m b w' = Some (r, w'') ->
        exists t,
          trace w'' = trace w' ++ EvCall f [currentState w; b] :: t).
Proof.
  intros Hi Ha Hf Hr Hbody Hk.
  assert (Hrep : forall rec m w1,
             isDispatching w1 = true ->
             replaceReducer rec m f w1
             = Some (Err ErrReducersMayNotDispatch,
                     set_addr (S (nextAddr w1)) (set_reducer f w1))).
  { intros rec m w1 Hb. unfold Redux.replaceReducer. rewrite Hf. simpl.
    rewrite dispatch_rejected; [reflexivity|reflexivity|exact Hb]. }
  split; [exact Hrep|].
  eexists. split; [|split; [|split; [|split]]].
  - rewrite dispatch_guards by assumption.
    unfold Redux.dispatch_body. simpl. rewrite Hr. simpl.
    rewrite Hbody. simpl. rewrite Hrep by reflexivity. rewrite Hk.
    rewrite run_throw. reflexivity.
  - reflexivity.
  - reflexivity.
  - reflexivity.
  - intros m b r w'' Hb Hd.
    rewrite dispatch_guards in Hd; [|assumption|reflexivity].
    apply dispatch_body_grows in Hd; [exact Hd| |exact Hf].
    intros p w0 r0 w0'. apply run_grows.
Qed.

(** ** Dispatch with callbacks that only return *)

Lemma log_calls_nil w : log_calls [] w = w.
Proof.
  unfold log_calls. simpl. rewrite app_nil_r. destruct w; reflexivity.
Qed.

Lemma log_calls_cons l ls w :
  log_calls ls (log (EvCall l []) w) = log_calls (l :: ls) w.
Proof.
  unfold log_calls, log. simpl. rewrite <- app_assoc. reflexivity.
Qed.

Lemma skipn_cons_nth {A : Type} (l : list A) :
  forall i x rest, skipn i l = x :: rest ->
    nth_error l i = Some x /\ skipn (S i) l = rest.
Proof.
  induction l as [|h t IH]; intros i x rest H.
  - destruct i; discriminate.
  - destruct i as [|i]; simpl in *.
    + inversion H. split; reflexivity.
    + apply IH. exact H.
Qed.

Lemma skipn_nil_nth {A : Type} (l : list A) :
  forall i, skipn i l = [] -> nth_error l i = None.
Proof.
  induction l as [|h t IH]; intros i H.
  - destruct i; reflexivity.
  - destruct i as [|i]; simpl in *; [discriminate|]. apply IH. exact H.
Qed.

Lemma call_returns n f args v w :
  returns f args v ->
  call (runJ n) f args w = Some (Ok v, log (EvCall f args) w).
Proof.
  intros (id & -> & Hb). simpl. rewrite Hb. apply run_ret.
Qed.

Lemma notify_quiet n ref (rest : list JsVal) :
  forall m i w,
    skipn i (array_at w ref) = rest ->
    Forall quiet rest ->
    List.length rest < m ->
    notify (runJ n) m i ref w = Some (Ok VUndefined, log_calls rest w).
Proof.
  induction rest as [|l rest IH]; intros m i w Hs Hq Hm.
  - destruct m as [|m]; [simpl in Hm; lia|]. simpl.
    rewrite (skipn_nil_nth _ _ Hs). rewrite log_calls_nil. reflexivity.
  - destruct m as [|m]; [simpl in Hm; lia|]. simpl.
    destruct (skipn_cons_nth _ _ _ _ Hs) as [Hn Hs'].
    rewrite Hn. destruct (Forall_inv Hq) as [v Hv].
    pose proof (Forall_inv_tail Hq) as Hq'.
    rewrite (call_returns _ _ _ _ _ Hv).
    rewrite (IH m (S i) (log (EvCall l []) w)).
    + rewrite log_calls_cons. reflexivity.
    + exact Hs'.
    + exact Hq'.
    + simpl in Hm. lia.
Qed.

Lemma dispatch_quiet n m w a s :
  isDispatching w = false ->
  well_formed env a = true ->
  returns (currentReducer w) [currentState w; a] s ->
  Forall quiet (array_at w (nextListeners w)) ->
  List.length (array_at w (nextListeners w)) < m ->
  dispatch (runJ n) m a w
  = Some (Ok a, after_dispatch w a s (array_at w (nextListeners w))).
Proof.
  intros Hi Ha Hr Hq Hm. rewrite dispatch_guards by assumption.
  unfold Redux.dispatch_body.
  rewrite (call_returns _ _ _ s) by exact Hr. simpl.
  rewrite (notify_quiet n _ (array_at w (nextListeners w))).
  - unfold log_calls, after_dispatch. simpl. rewrite <- app_assoc.
    reflexivity.
  - reflexivity.
  - exact Hq.
  - exact Hm.
Qed.

(** C8.  A dispatch that returns, returns the action it was given; and on
    an idle store whose reducer and listeners return, the dispatch of a
    well-formed action does return (with the action). *)
Theorem dispatch_returns_its_action n m a w :
  (forall r w', dispatch (runJ n) m a w = Some (Ok r, w') -> r = a) /\
  (isDispatching w = false ->
   well_formed env a = true ->
   (exists s, returns (currentReducer w) [currentState w; a] s) ->
   Forall quiet (array_at w (nextListeners w)) ->
   List.length (array_at w (nextListeners w)) < m ->
   exists w', dispatch (runJ n) m a w = Some (Ok a, w')).
Proof.
  split.
  - intros r w'. unfold Redux.dispatch.
    destruct (negb (isPlainObject a)); [discriminate|].
    destruct (get_prop env a "type"); [|discriminate].
    destruct (is_undefined _); [discriminate|].
    destruct (isDispatching w); [discriminate|].
    unfold Redux.dispatch_body.
    destruct (call _ _ _ _) as [[[s|e] w2]|]; try discriminate.
    destruct (notify _ _ _ _ _) as [[[v|e] w5]|]; try discriminate.
    intros H; inversion H; reflexivity.
  - intros Hi Ha [s Hs] Hq Hm. eexists.
    apply dispatch_quiet; eassumption.
Qed.

(** ** Construction *)

(** C6.  With a function in second position and nothing in third,
    [createStore] hands over to that function as the enhancer, with
    [undefined] as preloaded state; with functions in second and third
    position, or in third and fourth, it fails with
    [ErrSeveralEnhancers], an [ArgumentError]. *)
Theorem createStore_overloads n reducer addr :
  (forall f arg3,
      is_function f = true ->
      createStore n reducer f VUndefined arg3 addr
      = enhancerCall f reducer VUndefined addr) /\
  (forall p e arg3,
      is_function p = true -> is_function e = true ->
      exists w, createStore n reducer p e arg3 addr
                = Some (Err ErrSeveralEnhancers, w)) /\
  (forall p e arg3,
      is_function e = true -> is_function arg3 = true ->
      exists w, createStore n reducer p e arg3 addr
                = Some (Err ErrSeveralEnhancers, w)) /\
  error_class ErrSeveralEnhancers = ArgumentError.
Proof.
  split; [|split; [|split]].
  - intros f arg3 Hf. unfold Redux.createStore. simpl.
    rewrite Hf. simpl. rewrite Hf.
    destruct f; try discriminate; reflexivity.
  - intros p e arg3 Hp He. unfold Redux.createStore.
    rewrite Hp, He. simpl. eexists. reflexivity.
  - intros p e arg3 He H3. unfold Redux.createStore.
    rewrite He, H3. simpl. rewrite orb_true_r. eexists. reflexivity.
  - reflexivity.
Qed.

(** ** The listener arrays *)

Lemma nth_update_nth_eq {A : Type} (l : list A) :
  forall n x d, n < List.length l -> nth n (update_nth n x l) d = x.
Proof.
  induction l as [|h t IH]; intros n x d Hn; simpl in Hn; [lia|].
  destruct n; simpl; [reflexivity|]. apply IH. lia.
Qed.

Lemma nth_update_nth_neq {A : Type} (l : list A) :
  forall n m x d, n <> m -> nth m (update_nth n x l) d = nth m l d.
Proof.
  induction l as [|h t IH]; intros n m x d Hn; [destruct n; reflexivity|].
  destruct n, m; simpl; try reflexivity; try lia.
  apply IH. lia.
Qed.

Lemma length_update_nth {A : Type} (l : list A) :
  forall n x, List.length (update_nth n x l) = List.length l.
Proof.
  induction l as [|h t IH]; intros n x; [destruct n; reflexivity|].
  destruct n; simpl; [reflexivity|]. rewrite IH. reflexivity.
Qed.

Lemma nth_error_update_nth_eq {A : Type} (l : list A) :
  forall n x, n < List.length l -> nth_error (update_nth n x l) n = Some x.
Proof.
  induction l as [|h t IH]; intros n x Hn; simpl in Hn; [lia|].
  destruct n; simpl; [reflexivity|]. apply IH. lia.
Qed.

(** [ensureCanMutateNextListeners] leaves the contents of the next list
    and of every existing array alone, and separates the two lists. *)
Lemma ensure_spec w :
  valid_refs w ->
  let w1 := ensureCanMutateNextListeners w in
  array_at w1 (nextListeners w1) = array_at w (nextListeners w) /\
  (forall r, r < List.length (arrays w) -> array_at w1 r = array_at w r) /\
  valid_refs w1 /\
  List.length (arrays w) <= List.length (arrays w1) /\
  currentListeners w1 = currentListeners w /\
  currentListeners w1 <> Some (nextListeners w1) /\
  currentReducer w1 = currentReducer w /\
  currentState w1 = currentState w /\
  isDispatching w1 = isDispatching w /\
  subscriptions w1 = subscriptions w /\
  nextAddr w1 = nextAddr w /\
  trace w1 = trace w.
Proof.
  intros [Hn Hc]. unfold ensureCanMutateNextListeners.
  destruct (currentListeners w) as [c|] eqn:Ec.
  - destruct (Nat.eqb (nextListeners w) c) eqn:E.
    + apply Nat.eqb_eq in E. subst c. simpl. unfold array_at. simpl.
      rewrite Ec. repeat split; try reflexivity;
        try (simpl; rewrite ?Ec, ?length_app; simpl; lia).
      * rewrite app_nth2, Nat.sub_diag by lia. reflexivity.
      * intros r Hr. apply app_nth1. exact Hr.
      * intros H. inversion H. lia.
    + apply Nat.eqb_neq in E. simpl.
      repeat split; try reflexivity; try assumption.
      * rewrite Ec. exact Hc.
      * rewrite Ec. intros H. inversion H. congruence.
  - simpl. repeat split; try reflexivity; try assumption; try lia.
    + rewrite Ec. exact I.
    + rewrite Ec. discriminate.
Qed.

(** [subscribe] on an idle store appends to the next list and leaves the
    array that [currentListeners] points to untouched. *)
Lemma subscribe_spec l w :
  isDispatching w = false -> is_function l = true -> valid_refs w ->
  exists w',
    subscribe l w = (Ok (VUnsub (List.length (subscriptions w))), w') /\
    array_at w' (nextListeners w') = array_at w (nextListeners w) ++ [l] /\
    (forall r, currentListeners w = Some r -> array_at w' r = array_at w r) /\
    valid_refs w' /\
    currentListeners w' = currentListeners w /\
    currentListeners w' <> Some (nextListeners w') /\
    subscriptions w' = subscriptions w ++ [(l, true)] /\
    currentReducer w' = currentReducer w /\
    currentState w' = currentState w /\
    isDispatching w' = false /\
    nextAddr w' = nextAddr w /\
    trace w' = trace w.
Proof.
  intros Hi Hf Hv. unfold subscribe. rewrite Hf, Hi. simpl.
  destruct (ensure_spec w Hv)
    as (E1 & E2 & [E3 E3'] & E4 & E5 & E6 & E7 & E8 & E9 & E10 & E11 & E12).
  set (w1 := ensureCanMutateNextListeners w) in *.
  eexists. split; [rewrite E10; reflexivity|].
  unfold array_at, valid_refs in *. simpl.
  repeat split; try assumption; try congruence.
  - rewrite nth_update_nth_eq by exact E3. f_equal. exact E1.
  - intros r Hr. rewrite nth_update_nth_neq.
    + apply E2. destruct Hv as [_ Hc]. rewrite Hr in Hc. exact Hc.
    + intros Heq. apply E6. congruence.
  - rewrite length_update_nth. exact E3.
  - destruct (currentListeners w1); [|exact I].
    rewrite length_update_nth. exact E3'.
Qed.

(** [unsubscribe] of a live subscription on an idle store removes from
    the next list the first occurrence of the listener, sets
    [currentListeners] to [null] and leaves the other arrays untouched. *)
Lemma unsubscribe_spec sid l w :
  isDispatching w = false -> valid_refs w ->
  nth_error (subscriptions w) sid = Some (l, true) ->
  exists w',
    unsubscribe sid w = (Ok VUndefined, w') /\
    array_at w' (nextListeners w')
    = splice1 (indexOf l (array_at w (nextListeners w)))
        (array_at w (nextListeners w)) /\
    (forall r, currentListeners w = Some r -> array_at w' r = array_at w r) /\
    valid_refs w' /\
    currentListeners w' = None /\
    subscriptions w' = update_nth sid (l, false) (subscriptions w) /\
    currentReducer w' = currentReducer w /\
    currentState w' = currentState w /\
    isDispatching w' = false /\
    nextAddr w' = nextAddr w /\
    trace w' = trace w.
Proof.
  intros Hi Hv Hs. unfold unsubscribe. rewrite Hs, Hi. simpl.
  set (w0 := set_subscriptions _ w).
  assert (Hv0 : valid_refs w0) by exact Hv.
  destruct (ensure_spec w0 Hv0)
    as (E1 & E2 & [E3 E3'] & E4 & E5 & E6 & E7 & E8 & E9 & E10 & E11 & E12).
  set (w1 := ensureCanMutateNextListeners w0) in *.
  eexists. split; [reflexivity|].
  unfold array_at, valid_refs in *. simpl in *.
  repeat split; try assumption; try congruence.
  - rewrite nth_update_nth_eq by exact E3. rewrite E1. reflexivity.
  - intros r Hr. rewrite nth_update_nth_neq.
    + apply E2. destruct Hv as [_ Hc]. rewrite Hr in Hc. exact Hc.
    + intros Heq. apply E6. congruence.
  - rewrite length_update_nth. exact E3.
Qed.

(** ** Subscribing the same listener twice *)

Lemma strict_eq_function l : is_function l = true -> strict_eq l l = true.
Proof.
  destruct l; try discriminate; intros _; simpl; apply Nat.eqb_refl.
Qed.

Lemma indexOf_app_fresh l rest (L : list JsVal) :
  indexOf l L = None -> strict_eq l l = true ->
  indexOf l (L ++ l :: rest) = Some (List.length L).
Proof.
  intros Hn He. induction L as [|h t IH]; simpl in *.
  - rewrite He. reflexivity.
  - destruct (strict_eq h l); [discriminate|].
    destruct (indexOf l t); [discriminate|].
    rewrite IH by reflexivity. reflexivity.
Qed.

Lemma remove_at_app {A : Type} (L : list A) x rest :
  remove_at (List.length L) (L ++ x :: rest) = L ++ rest.
Proof.
  induction L as [|h t IH]; simpl; [reflexivity|]. rewrite IH. reflexivity.
Qed.

Lemma quiet_function l : quiet l -> is_function l = true.
Proof. intros (v & id & -> & _). reflexivity. Qed.

Lemma count_listener_app l a b :
  count_listener l (a ++ b) = count_listener l a + count_listener l b.
Proof.
  induction a as [|y t IH]; simpl; [reflexivity|]. rewrite IH. lia.
Qed.

(** Strict equality with a function value is equality. *)
Lemma strict_eq_function_eq y l :
  is_function l = true -> strict_eq y l = true -> y = l.
Proof.
  destruct l; try discriminate; intros _; destruct y; simpl;
    try discriminate; intros H; apply Nat.eqb_eq in H; congruence.
Qed.

Lemma indexOf_found l arr :
  0 < count_listener l arr ->
  exists i y,
    indexOf l arr = Some i /\ nth_error arr i = Some y /\
    strict_eq y l = true /\
    forall l', count_listener l' (remove_at i arr)
               + (if strict_eq y l' then 1 else 0)
               = count_listener l' arr.
Proof.
  induction arr as [|h t IH]; simpl; [lia|].
  destruct (strict_eq h l) eqn:E.
  - intros _. exists 0, h. repeat split; try assumption.
    intros l'. simpl. lia.
  - simpl. intros Hc. destruct (IH Hc) as (i & y & H1 & H2 & H3 & H4).
    exists (S i), y. rewrite H1. repeat split; try assumption.
    intros l'. simpl. rewrite <- (H4 l'). lia.
Qed.

(** [indexOf] gives the first position. *)
Lemma indexOf_least l :
  forall arr i,
    indexOf l arr = Some i ->
    forall j x, j < i -> nth_error arr j = Some x -> strict_eq x l = false.
Proof.
  induction arr as [|h t IH]; simpl; intros i H j x Hj Hx; [discriminate|].
  destruct (strict_eq h l) eqn:E.
  - inversion H; subst. lia.
  - destruct (indexOf l t) as [i'|] eqn:E'; [|discriminate].
    inversion H; subst. destruct j as [|j]; simpl in Hx.
    + inversion Hx; subst. exact E.
    + apply (IH i' eq_refl j x); [lia|exact Hx].
Qed.

Lemma Forall_remove_at {A : Type} (P : A -> Prop) :
  forall i (arr : list A), Forall P arr -> Forall P (remove_at i arr).
Proof.
  intros i arr H. revert i. induction H as [|h t Hh Ht IH]; intros i.
  - destruct i; constructor.
  - destruct i as [|i]; simpl; [exact Ht|].
    constructor; [exact Hh|apply IH].
Qed.

Lemma length_remove_at {A : Type} :
  forall i (arr : list A), List.length (remove_at i arr) <= List.length arr.
Proof.
  intros i arr. revert i. induction arr as [|h t IH]; intros i.
  - destruct i; simpl; lia.
  - destruct i as [|i]; simpl; [lia|]. specialize (IH i). lia.
Qed.

(** C9.  On an idle store, two calls of [subscribe l] put [l] twice at
    the end of the listener list [L] (which may hold [l] already), and a
    dispatch then calls every entry of the list, these two included;
    either of the two [unsubscribe] closures, called once, removes the
    entry at the first position [i] of the list that holds [l] (no
    position before [i] holds it) and no other: the list then has one
    occurrence of [l] less, and still one more than [L]; the counts of the
    other listeners are unchanged, and the next dispatch calls the entries
    that are left.  When [L] does not hold [l], what is left is
    [L ++ [l]]. *)
Theorem duplicate_subscription n m w l a :
  isDispatching w = false ->
  valid_refs w ->
  well_formed env a = true ->
  quiet l ->
  Forall quiet (array_at w (nextListeners w)) ->
  (forall st, exists s, returns (currentReducer w) [st; a] s) ->
  List.length (array_at w (nextListeners w)) + 2 < m ->
  let L := array_at w (nextListeners w) in
  exists w1 w2 s,
    subscribe l w = (Ok (VUnsub (List.length (subscriptions w))), w1) /\
    subscribe l w1
    = (Ok (VUnsub (S (List.length (subscriptions w)))), w2) /\
    array_at w2 (nextListeners w2) = L ++ [l; l] /\
    dispatch (runJ n) m a w2
    = Some (Ok a, after_dispatch w2 a s (L ++ [l; l])) /\
    forall u,
      u = List.length (subscriptions w) \/
      u = S (List.length (subscriptions w)) ->
      exists i w3 s',
        indexOf l (L ++ [l; l]) = Some i /\
        nth_error (L ++ [l; l]) i = Some l /\
        (forall j x, j < i -> nth_error (L ++ [l; l]) j = Some x -> x <> l) /\
        unsubscribe u (after_dispatch w2 a s (L ++ [l; l]))
        = (Ok VUndefined, w3) /\
        array_at w3 (nextListeners w3) = remove_at i (L ++ [l; l]) /\
        (indexOf l L = None -> remove_at i (L ++ [l; l]) = L ++ [l]) /\
        count_listener l (remove_at i (L ++ [l; l]))
        = S (count_listener l L) /\
        (forall l', strict_eq l l' = false ->
                    count_listener l' (remove_at i (L ++ [l; l]))
                    = count_listener l' L) /\
        dispatch (runJ n) m a w3
        = Some (Ok a, after_dispatch w3 a s' (remove_at i (L ++ [l; l]))).
Proof.
  intros Hi Hv Ha Hl Hq Hred Hm L.
  pose proof (quiet_function _ Hl) as Hf.
  pose proof (strict_eq_function _ Hf) as Hll.
  fold L in Hq, Hm.
  destruct (subscribe_spec l w Hi Hf Hv)
    as (w1 & S1 & A1 & _ & V1 & _ & _ & U1 & R1 & St1 & I1 & _ & _).
  destruct (subscribe_spec l w1 I1 Hf V1)
    as (w2 & S2 & A2 & _ & V2 & _ & _ & U2 & R2 & St2 & I2 & _ & _).
  assert (A2' : array_at w2 (nextListeners w2) = L ++ [l; l]).
  { rewrite A2, A1, <- app_assoc. reflexivity. }
  destruct (Hred (currentState w2)) as [s Hs].
  rewrite <- R1, <- R2 in Hs.
  assert (Hq2 : Forall quiet (L ++ [l; l])).
  { apply Forall_app. split; [exact Hq|]. repeat constructor; exact Hl. }
  exists w1, w2, s. split; [exact S1|].
  split. { rewrite S2, U1, length_app. simpl. rewrite Nat.add_1_r.
           reflexivity. }
  split; [exact A2'|].
  split.
  { rewrite <- A2'. apply dispatch_quiet; try assumption.
    - rewrite A2'. exact Hq2.
    - rewrite A2', length_app. simpl. lia. }
  intros u Hu.
  set (wd := after_dispatch w2 a s (L ++ [l; l])).
  assert (Hsub : nth_error (subscriptions wd) u = Some (l, true)).
  { unfold wd. simpl. rewrite U2, U1.
    destruct Hu as [-> | ->].
    - rewrite nth_error_app1 by (rewrite length_app; simpl; lia).
      rewrite nth_error_app2, Nat.sub_diag by lia. reflexivity.
    - rewrite nth_error_app2 by (rewrite length_app; simpl; lia).
      rewrite length_app. change (List.length [(l, true)]) with 1.
      generalize (List.length (subscriptions w)). intros k.
      replace (S k - (k + 1)) with 0 by lia. reflexivity. }
  assert (Hvd : valid_refs wd).
  { destruct V2 as [V2 _]. split; exact V2. }
  assert (Hcount : count_listener l (L ++ [l; l])
                   = S (S (count_listener l L))).
  { rewrite count_listener_app. simpl. rewrite Hll. lia. }
  destruct (indexOf_found l (L ++ [l; l])) as (i & y & I1' & I2' & I3' & I4');
    [rewrite Hcount; lia|].
  apply (strict_eq_function_eq _ _ Hf) in I3'. subst y.
  destruct (unsubscribe_spec u l wd eq_refl Hvd Hsub)
    as (w3 & X1 & X2 & _ & V3 & _ & _ & R3 & St3 & I3 & _ & _).
  assert (A3 : array_at w3 (nextListeners w3) = remove_at i (L ++ [l; l])).
  { rewrite X2. unfold wd at 1 2. unfold array_at at 1 2. simpl.
    fold (array_at w2 (nextListeners w2)). rewrite A2', I1'.
    reflexivity. }
  destruct (Hred (currentState w3)) as [s' Hs'].
  assert (R3' : currentReducer w3 = currentReducer w)
    by (rewrite R3; unfold wd; simpl; congruence).
  rewrite <- R3' in Hs'.
  exists i, w3, s'. split; [exact I1'|]. split; [exact I2'|].
  split.
  { intros j x Hj Hx Heq. subst x.
    rewrite (indexOf_least l _ _ I1' j l Hj Hx) in Hll. discriminate. }
  split; [exact X1|]. split; [exact A3|].
  split.
  { intros Hfresh.
    rewrite (indexOf_app_fresh l [l] L Hfresh Hll) in I1'.
    inversion I1'; subst i. apply (remove_at_app L l [l]). }
  split.
  { pose proof (I4' l) as H. rewrite Hll, Hcount in H. lia. }
  split.
  { intros l' Hne. pose proof (I4' l') as H. rewrite Hne in H.
    rewrite count_listener_app in H. simpl in H.
    assert (Hne' : strict_eq l l' = false) by exact Hne.
    rewrite Hne' in H. lia. }
  rewrite <- A3. apply dispatch_quiet; try assumption.
  - rewrite A3. apply Forall_remove_at. exact Hq2.
  - rewrite A3. pose proof (length_remove_at i (L ++ [l; l])) as Hlen.
    rewrite length_app in Hlen. simpl in Hlen. lia.
Qed.

(** ** The composite reducer *)

Lemma log_events_nil w : log_events [] w = w.
Proof.
  unfold log_events. rewrite app_nil_r. destruct w; reflexivity.
Qed.

Lemma log_events_cons e evs w :
  log_events evs (log e w) = log_events (e :: evs) w.
Proof.
  unfold log_events, log. simpl. rewrite <- app_assoc. reflexivity.
Qed.

(** Reading a state that is neither [null] nor [undefined]. *)
Lemma get_prop_slice state key :
  is_nullish state = false ->
  get_prop env state key = Ok (slice env state key).
Proof.
  destruct state; intros H; try discriminate H; reflexivity.
Qed.

Lemma keys_length_count state :
  is_nullish state = false ->
  keys_length env state = Ok (key_count env state).
Proof. unfold keys_length. intros ->. reflexivity. Qed.

(** The shape warning of an ordinary composite calls nobody. *)
Lemma no_warning_calls c state :
  ordinary env c ->
  (if production env then Ret tt
   else shape_warning_calls (finalReducers c) state) = Ret tt.
Proof.
  intros [_ [Hp | Hk]].
  - rewrite Hp. reflexivity.
  - destruct (production env); [reflexivity|].
    unfold Redux.shape_warning_calls. rewrite Hk.
    destruct (Nat.eqb _ 0); [reflexivity|].
    destruct (negb _); reflexivity.
Qed.

(** The loop costs one unit of fuel per key. *)
Lemma run_combination_loop (A : Type) state action
    (f : bool * list (string * JsVal) -> Prog A) :
  is_nullish state = false ->
  forall rs vs,
    slice_results rs state action vs ->
    forall n hasChanged nextState w,
      run (List.length rs + n)
        (bind (combination_loop env rs state action hasChanged nextState)
           f) w
      = run n
          (f (hasChanged || slice_changed env rs vs state,
              next_props rs vs nextState))
          (log_events (reducer_calls env rs state action) w).
Proof.
  intros Hst rs vs H. induction H as [|[key r] v rs vs [Hr Hu] _ IH];
    intros n hc ns w.
  - simpl. rewrite orb_false_r, log_events_nil. reflexivity.
  - simpl combination_loop. rewrite (get_prop_slice _ _ Hst).
    unfold perform. simpl bind.
    change (List.length ((key, r) :: rs) + n)
      with (S (List.length rs + n)).
    rewrite run_do. simpl exec.
    simpl in Hr. rewrite (call_returns _ _ _ _ _ Hr).
    rewrite Hu. rewrite IH. simpl.
    rewrite log_events_cons, orb_assoc. reflexivity.
Qed.

Lemma slice_changed_false rs vs state action :
  slice_results rs state action vs ->
  (slice_changed env rs vs state = false <->
   Forall2 (fun kr v => strict_eq v (slice env state (fst kr)) = true)
     rs vs).
Proof.
  intros H. induction H as [|[key r] v rs vs _ _ IH]; simpl.
  - split; [constructor|reflexivity].
  - rewrite orb_false_iff, negb_false_iff, IH. split.
    + intros [H1 H2]. constructor; assumption.
    + intros H. inversion H; subst. split; assumption.
Qed.

Lemma lookup_assign_eq key v ns : lookup key (assign key v ns) = v.
Proof.
  induction ns as [|[k x] t IH]; simpl.
  - rewrite String.eqb_refl. reflexivity.
  - destruct (String.eqb k key) eqn:E; simpl; rewrite E; [reflexivity|].
    exact IH.
Qed.

Lemma lookup_assign_neq key key' v ns :
  key <> key' -> lookup key' (assign key v ns) = lookup key' ns.
Proof.
  intros Hne. induction ns as [|[k x] t IH]; simpl.
  - destruct (String.eqb key key') eqn:E; [|reflexivity].
    apply String.eqb_eq in E. contradiction.
  - destruct (String.eqb k key) eqn:E; simpl.
    + apply String.eqb_eq in E. subst k.
      destruct (String.eqb key key') eqn:E'; [|reflexivity].
      apply String.eqb_eq in E'. contradiction.
    + destruct (String.eqb k key'); [reflexivity|exact IH].
Qed.

Lemma lookup_next_props_other key :
  forall rs vs ns,
    ~ In key (map fst rs) ->
    lookup key (next_props rs vs ns) = lookup key ns.
Proof.
  induction rs as [|[k r] rs IH]; intros vs ns Hn; [reflexivity|].
  destruct vs as [|v vs]; [reflexivity|]. simpl in *.
  rewrite IH by (intros H; apply Hn; right; exact H).
  apply lookup_assign_neq. intros Heq. apply Hn. left. exact Heq.
Qed.

(** The new mapping holds every key's result. *)
Lemma lookup_next_props :
  forall rs vs ns i key r v,
    NoDup (map fst rs) ->
    nth_error rs i = Some (key, r) -> nth_error vs i = Some v ->
    lookup key (next_props rs vs ns) = v.
Proof.
  induction rs as [|[k r0] rs IH]; intros vs ns i key r v Hd Hr Hv.
  - destruct i; discriminate.
  - destruct vs as [|v0 vs]; [destruct i; discriminate|].
    inversion Hd as [|? ? Hnotin Hd']; subst.
    destruct i as [|i]; simpl in *.
    + inversion Hr; inversion Hv; subst.
      rewrite lookup_next_props_other by exact Hnotin.
      apply lookup_assign_eq.
    + eapply IH; eassumption.
Qed.

(** The outcome of an ordinary composite that rethrows nothing, on a
    state that is neither [null] nor [undefined], for per-key reducers
    that return defined values. *)
Lemma run_combination n c state action vs w :
  rethrown c = None ->
  ordinary env c ->
  is_nullish state = false ->
  slice_results (finalReducers c) state action vs ->
  run (S (List.length (finalReducers c) + n))
    (combination c state action) w
  = Some (Ok (if slice_changed env (finalReducers c) vs state
                 || negb (Nat.eqb (List.length (finalReducerKeys c))
                            (key_count env state))
              then VObj (nextAddr w) true
                     (next_props (finalReducers c) vs [])
              else state),
          log_events (reducer_calls env (finalReducers c) state action)
            (set_addr (S (nextAddr w)) w)).
Proof.
  intros Herr Hord Hst Hs. unfold Redux.combination.
  assert (Hu : is_undefined state = false)
    by (destruct state; try reflexivity; discriminate Hst).
  rewrite Hu. simpl bind. rewrite Herr.
  rewrite (no_warning_calls c state Hord). simpl bind.
  unfold perform. rewrite run_do. simpl exec. cbv beta iota.
  rewrite (run_combination_loop _ _ _ _ Hst _ _ Hs). simpl.
  destruct (slice_changed env (finalReducers c) vs state); simpl.
  - apply run_ret.
  - rewrite (keys_length_count _ Hst).
    destruct (Nat.eqb _ _); simpl; apply run_ret.
Qed.

(** C3.  For a composite that [combineReducers] can build, that holds no
    validation error and whose shape warning calls no reducer, for a state
    other than [null] and [undefined] (an object of any kind, with the
    slices it holds or inherits, or a primitive) and per-key reducers that
    return defined values: when every result is strictly equal to its
    slice [state[key]] and there are as many retained keys as
    [Object.keys(state)] has, the composite returns the state itself;
    otherwise, and in particular when the two counts differ, it returns
    the object built in this call, which holds every retained key's
    result. *)
Theorem composite_returns_state_iff_unchanged n c state action vs w :
  rethrown c = None ->
  ordinary env c ->
  NoDup (finalReducerKeys c) ->
  is_nullish state = false ->
  slice_results (finalReducers c) state action vs ->
  let same :=
    Forall2 (fun kr v => strict_eq v (slice env state (fst kr)) = true)
      (finalReducers c) vs /\
    List.length (finalReducerKeys c) = key_count env state in
  let built := VObj (nextAddr w) true (next_props (finalReducers c) vs []) in
  let w' :=
    log_events (reducer_calls env (finalReducers c) state action)
      (set_addr (S (nextAddr w)) w) in
  let outcome :=
    run (S (List.length (finalReducers c) + n))
      (combination c state action) w in
  (same -> outcome = Some (Ok state, w')) /\
  (~ same -> outcome = Some (Ok built, w')) /\
  (List.length (finalReducerKeys c) <> key_count env state ->
   outcome = Some (Ok built, w')) /\
  (forall i key r v,
      nth_error (finalReducers c) i = Some (key, r) ->
      nth_error vs i = Some v ->
      lookup key (next_props (finalReducers c) vs []) = v).
Proof.
  intros Herr Hord Hd Hst Hs same built w' outcome.
  assert (Hrun : outcome =
                 Some (Ok (if slice_changed env (finalReducers c) vs state
                              || negb (Nat.eqb
                                         (List.length (finalReducerKeys c))
                                         (key_count env state))
                           then built else state), w')).
  { unfold outcome. apply run_combination; assumption. }
  pose proof (slice_changed_false _ _ _ _ Hs) as Hiff.
  assert (Hdiff : List.length (finalReducerKeys c) <> key_count env state ->
                  outcome = Some (Ok built, w')).
  { intros Hne. rewrite Hrun. apply Nat.eqb_neq in Hne. rewrite Hne.
    rewrite orb_true_r. reflexivity. }
  split; [|split; [|split]].
  - intros [Hsame Hlen]. rewrite Hrun.
    apply Hiff in Hsame. rewrite Hsame, Hlen, Nat.eqb_refl. reflexivity.
  - intros Hns. rewrite Hrun.
    destruct (slice_changed env (finalReducers c) vs state) eqn:E;
      [reflexivity|].
    destruct (Nat.eqb _ _) eqn:E2; [|reflexivity].
    exfalso. apply Hns. split; [apply Hiff; reflexivity|].
    apply Nat.eqb_eq. exact E2.
  - exact Hdiff.
  - intros i key r v Hr Hv. eapply lookup_next_props; eassumption.
Qed.

(** ** Validation at composition time *)

Lemma exec_new_object rec n plain props w :
  exec rec n (ONewObject plain props) w
  = Some (Ok (VObj (nextAddr w) plain props), set_addr (S (nextAddr w)) w).
Proof. reflexivity. Qed.

Lemma exec_call rec n f args w :
  exec rec n (OCall f args) w = call rec f args w.
Proof. reflexivity. Qed.

(** One step of a program of the shape [combineReducers] runs: a command
    inside [try], followed by [f], with [h] as the [catch] block and [g]
    after it. *)
Lemma run_guarded_perform (A B C : Type) n c (k : JsVal -> Prog A)
    (f : A -> Prog B) (h : Error -> Prog B) (g : B -> Prog C) w :
  run (S n) (bind (try_catch (bind (perform c k) f) h) g) w
  = match exec (runJ n) n c w with
    | None => None
    | Some (Ok v, w') => run n (bind (try_catch (bind (k v) f) h) g) w'
    | Some (Err e, w') => run n (bind (h e) g) w'
    end.
Proof.
  unfold perform. simpl bind. rewrite run_do.
  destruct (exec _ n c w) as [[[v|e] w']|]; reflexivity.
Qed.

Lemma validation_captures (A : Type) (g : option Error -> A) key r e post :
  forall pre i n w,
    passes_from i pre ->
    offends (i + List.length pre) key r e ->
    4 * List.length pre + 4 <= n ->
    exists w',
      run n
        (bind
           (try_catch
              (bind (assertReducerShape_from i (pre ++ (key, r) :: post))
                 (fun _ => Ret None))
              (fun e => Ret (Some e)))
           (fun err => Ret (g err))) w
      = Some (Ok (g (Some e)), w').
Proof.
  induction pre as [|[k0 r0] pre IH]; intros i n w Hp Ho Hn.
  - simpl in Ho. rewrite Nat.add_0_r in Ho.
    do 4 (destruct n as [|n]; [simpl in Hn; lia|]).
    simpl app. simpl Redux.assertReducerShape_from.
    rewrite run_guarded_perform, exec_new_object.
    rewrite run_guarded_perform, exec_call.
    destruct Ho as [[H1 ->] | [[v1 [H1 Hd]] [H2 ->]]].
    + erewrite call_returns by apply H1.
      simpl. eexists. reflexivity.
    + erewrite call_returns by apply H1. rewrite Hd.
      rewrite run_guarded_perform, exec_new_object.
      rewrite run_guarded_perform, exec_call.
      erewrite call_returns by apply H2.
      simpl. eexists. apply run_ret.
  - destruct Hp as [(v1 & v2 & H1 & Hd1 & H2 & Hd2) Hp].
    do 4 (destruct n as [|n]; [simpl in Hn; lia|]).
    simpl app. simpl Redux.assertReducerShape_from.
    rewrite run_guarded_perform, exec_new_object.
    rewrite run_guarded_perform, exec_call.
    erewrite call_returns by apply H1. rewrite Hd1.
    rewrite run_guarded_perform, exec_new_object.
    rewrite run_guarded_perform, exec_call.
    erewrite call_returns by apply H2. rewrite Hd2.
    apply IH.
    + exact Hp.
    + simpl in Ho. rewrite Nat.add_succ_r in Ho. exact Ho.
    + simpl in Hn. lia.
Qed.


(** ** Replacing the reducer *)

(** A dispatch whose reducer call returns [s], with listeners that only
    return. *)
Lemma dispatch_listeners_quiet n m w a s w2 :
  isDispatching w = false ->
  well_formed env a = true ->
  call (runJ n) (currentReducer w) [currentState w; a]
    (set_dispatching true w) = Some (Ok s, w2) ->
  Forall quiet (array_at w (nextListeners w)) ->
  List.length (array_at w (nextListeners w)) < m ->
  dispatch (runJ n) m a w
  = Some (Ok a,
          log_calls (array_at w (nextListeners w))
            (set_current (Some (nextListeners w))
               (set_dispatching false (set_state s w2)))).
Proof.
  intros Hi Ha Hc Hq Hm.
  assert (Hs : same_store (set_dispatching true w) w2).
  { eapply call_busy; [|reflexivity|exact Hc].
    intros p w0 r w0'. apply run_busy. }
  destruct Hs as (_ & _ & S3 & _ & S5 & _). simpl in S3, S5.
  rewrite dispatch_guards by assumption.
  unfold Redux.dispatch_body. simpl currentReducer. simpl currentState.
  rewrite Hc. simpl nextListeners. rewrite S3.
  rewrite (notify_quiet n _ (array_at w (nextListeners w))).
  - reflexivity.
  - unfold array_at. simpl. rewrite S5. reflexivity.
  - exact Hq.
  - exact Hm.
Qed.

Lemma replaceReducer_function rec m f w :
  is_function f = true ->
  replaceReducer rec m f w
  = match dispatch rec m (action_of (nextAddr w) REPLACE)
            (set_addr (S (nextAddr w)) (set_reducer f w)) with
    | None => None
    | Some (Err e, w2) => Some (Err e, w2)
    | Some (Ok _, w2) => Some (Ok VStore, w2)
    end.
Proof.
  intros Hf. unfold Redux.replaceReducer. rewrite Hf. reflexivity.
Qed.

(** C5.  On an idle store, [replaceReducer] with any callable [f]
    makes [f] the active reducer before it dispatches: whatever the
    outcome, the first call it makes is a call of [f] with the prior state
    and a fresh [REPLACE] action, and what it returns is the store.  When
    [f] returns [s] for these arguments and the listeners only return, the
    new state is [s], the active reducer is [f] and the listeners have
    been notified once.  When [f] is a composite, each of its per-key
    reducers is called with the value the prior state held under its key
    ([state[key]]), and the new state is the composite's result. *)
Theorem replaceReducer_passes_prior_slices n m w :
  isDispatching w = false ->
  let act := action_of (nextAddr w) REPLACE in
  (forall f r w',
      is_function f = true ->
      replaceReducer (runJ n) m f w = Some (r, w') ->
      (exists t, trace w' = trace w ++ EvCall f [currentState w; act] :: t) /\
      (forall v, r = Ok v -> v = VStore)) /\
  (forall f s,
      returns f [currentState w; act] s ->
      Forall quiet (array_at w (nextListeners w)) ->
      List.length (array_at w (nextListeners w)) < m ->
      replaceReducer (runJ n) m f w
      = Some (Ok VStore,
              after_dispatch (set_addr (S (nextAddr w)) (set_reducer f w))
                act s (array_at w (nextListeners w)))) /\
  (forall cid c vs,
      fenv cid = composite_body c ->
      rethrown c = None ->
      ordinary env c ->
      is_nullish (currentState w) = false ->
      slice_results (finalReducers c) (currentState w) act vs ->
      Forall quiet (array_at w (nextListeners w)) ->
      List.length (array_at w (nextListeners w)) < m ->
      let rs := finalReducers c in
      exists w',
        replaceReducer (runJ (S (List.length rs + n))) m (VFun cid) w
        = Some (Ok VStore, w') /\
        currentReducer w' = VFun cid /\
        currentState w'
        = (if slice_changed env rs vs (currentState w)
              || negb (Nat.eqb (List.length (finalReducerKeys c))
                         (key_count env (currentState w)))
           then VObj (S (nextAddr w)) true (next_props rs vs [])
           else currentState w) /\
        trace w'
        = trace w
            ++ EvCall (VFun cid) [currentState w; act]
            :: reducer_calls env rs (currentState w) act
            ++ map (fun l => EvCall l []) (array_at w (nextListeners w)) /\
        (forall i key r v,
            nth_error rs i = Some (key, r) -> nth_error vs i = Some v ->
            In (EvCall r [slice env (currentState w) key; act]) (trace w') /\
            (NoDup (finalReducerKeys c) ->
             lookup key (next_props rs vs []) = v))).
Proof.
  intros Hi act. split; [|split].
  - intros f r w' Hf H.
    rewrite replaceReducer_function in H by exact Hf. fold act in H.
    set (w1 := set_addr (S (nextAddr w)) (set_reducer f w)) in H.
    rewrite (dispatch_guards _ m act w1 eq_refl Hi) in H.
    destruct (dispatch_body (runJ n) m act w1) as [[r1 w2]|] eqn:Hd;
      [|discriminate].
    apply dispatch_body_grows in Hd;
      [|intros p w0 r0 w0'; apply run_grows|exact Hf].
    destruct r1; inversion H; subst; split; try exact Hd.
    + intros v Hv. inversion Hv. reflexivity.
    + intros v Hv. discriminate Hv.
  - intros f s Hr Hq Hm.
    assert (Hf : is_function f = true)
      by (destruct Hr as (id & -> & _); reflexivity).
    rewrite replaceReducer_function by exact Hf. fold act.
    set (w1 := set_addr (S (nextAddr w)) (set_reducer f w)).
    rewrite (dispatch_quiet n m w1 act s Hi eq_refl Hr Hq Hm).
    reflexivity.
  - intros cid c vs Hbody Herr Hord Hst Hs Hq Hm rs.
    set (st := currentState w) in *.
    set (w1 := set_addr (S (nextAddr w)) (set_reducer (VFun cid) w)).
    assert (Hcall :
      call (runJ (S (List.length rs + n))) (currentReducer w1)
        [currentState w1; act] (set_dispatching true w1)
      = Some (Ok (if slice_changed env rs vs st
                     || negb (Nat.eqb (List.length (finalReducerKeys c))
                                (key_count env st))
                  then VObj (S (nextAddr w)) true (next_props rs vs [])
                  else st),
              log_events (reducer_calls env rs st act)
                (set_addr (S (S (nextAddr w)))
                   (log (EvCall (VFun cid) [st; act])
                      (set_dispatching true w1))))).
    { change (currentReducer w1) with (VFun cid).
      change (currentState w1) with st.
      unfold Redux.call. rewrite Hbody. unfold Redux.composite_body.
      simpl nth.
      rewrite (run_combination n c st act vs _ Herr Hord Hst Hs).
      reflexivity. }
    eexists. split; [|split; [|split; [|split]]].
    + rewrite replaceReducer_function by reflexivity. fold act. fold w1.
      rewrite (dispatch_listeners_quiet _ m w1 act _ _ Hi eq_refl Hcall).
      * reflexivity.
      * exact Hq.
      * exact Hm.
    + reflexivity.
    + reflexivity.
    + simpl. rewrite <- !app_assoc. reflexivity.
    + intros i key r v Hr Hv. split.
      * match goal with
        | |- In _ (trace ?W) =>
            assert (Ht : trace W
                         = trace w
                             ++ EvCall (VFun cid) [st; act]
                             :: reducer_calls env rs st act
                             ++ map (fun l => EvCall l [])
                                  (array_at w (nextListeners w)))
              by (simpl; rewrite <- !app_assoc; reflexivity);
            rewrite Ht
        end.
        apply in_or_app. right.
        right. apply in_or_app. left. unfold reducer_calls.
        apply (in_map (fun kr => EvCall (snd kr) [slice env st (fst kr); act])
                 rs (key, r)).
        eapply nth_error_In. exact Hr.
      * intros Hd. eapply lookup_next_props; eassumption.
Qed.

(** ** Subscribing from a listener *)

(** The loop over a run of listeners that only return. *)
Lemma notify_quiet_prefix n ref (pre : list JsVal) :
  forall rest m i w,
    skipn i (array_at w ref) = pre ++ rest ->
    Forall quiet pre ->
    notify (runJ n) (List.length pre + m) i ref w
    = notify (runJ n) m (i + List.length pre) ref (log_calls pre w).
Proof.
  induction pre as [|l pre IH]; intros rest m i w Hs Hq.
  - simpl. rewrite Nat.add_0_r, log_calls_nil. reflexivity.
  - simpl app in Hs. destruct (skipn_cons_nth _ _ _ _ Hs) as [Hn Hs'].
    simpl List.length. simpl Nat.add. simpl Redux.notify.
    rewrite Hn. destruct (Forall_inv Hq) as [v Hv].
    rewrite (call_returns _ _ _ _ _ Hv).
    rewrite (IH rest m (S i) (log (EvCall l []) w) Hs' (Forall_inv_tail Hq)).
    rewrite log_calls_cons, Nat.add_succ_r. reflexivity.
Qed.

Lemma notify_S rec m i ref w :
  notify rec (S m) i ref w
  = match nth_error (array_at w ref) i with
    | None => Some (Ok VUndefined, w)
    | Some listener =>
        match call rec listener [] w with
        | None => None
        | Some (Err e, w') => Some (Err e, w')
        | Some (Ok _, w') => notify rec m (S i) ref w'
        end
    end.
Proof. reflexivity. Qed.

Lemma exec_subscribe rec n l w :
  exec rec n (OSubscribe l) w = Some (subscribe l w).
Proof. reflexivity. Qed.

(** A dispatch whose listeners only return, except one that subscribes
    [added]: the pass calls the listeners of the list as it was when the
    pass started, and [added] is at the end of the next list. *)
Lemma dispatch_one_subscriber n m w a s lid added L1 L2 :
  isDispatching w = false ->
  valid_refs w ->
  well_formed env a = true ->
  returns (currentReducer w) [currentState w; a] s ->
  array_at w (nextListeners w) = L1 ++ VFun lid :: L2 ->
  Forall quiet L1 -> Forall quiet L2 ->
  subscribes (VFun lid) added ->
  is_function added = true ->
  List.length (L1 ++ VFun lid :: L2) < m ->
  exists w',
    dispatch (runJ (S n)) m a w = Some (Ok a, w') /\
    trace w'
    = trace w ++ EvCall (currentReducer w) [currentState w; a]
        :: map (fun l => EvCall l []) (L1 ++ VFun lid :: L2) /\
    array_at w' (nextListeners w') = (L1 ++ VFun lid :: L2) ++ [added] /\
    currentListeners w' = Some (nextListeners w) /\
    array_at w' (nextListeners w) = L1 ++ VFun lid :: L2 /\
    valid_refs w' /\
    isDispatching w' = false /\
    currentReducer w' = currentReducer w /\
    currentState w' = s.
Proof.
  intros Hi Hv Ha Hr Harr Hq1 Hq2 (lid' & Hl & Hbody) Hf Hm.
  inversion Hl; subst lid'. clear Hl.
  rewrite dispatch_guards by assumption.
  unfold Redux.dispatch_body.
  rewrite (call_returns _ _ _ s) by exact Hr.
  simpl nextListeners.
  set (w4 := set_current _ _).
  assert (Harr4 : array_at w4 (nextListeners w) = L1 ++ VFun lid :: L2)
    by exact Harr.
  rewrite length_app in Hm. simpl in Hm.
  destruct m as [|m]; [lia|].
  replace (S m) with (List.length L1 + (S (m - List.length L1))) by lia.
  rewrite (notify_quiet_prefix (S n) _ L1 (VFun lid :: L2));
    [|exact Harr4|exact Hq1].
  set (w5 := log_calls L1 w4).
  assert (Harr5 : array_at w5 (nextListeners w) = L1 ++ VFun lid :: L2)
    by exact Harr.
  assert (Hnth : nth_error (array_at w5 (nextListeners w)) (List.length L1)
                 = Some (VFun lid)).
  { rewrite Harr5, nth_error_app2, Nat.sub_diag by lia. reflexivity. }
  simpl Nat.add. rewrite notify_S, Hnth.
  unfold Redux.call. rewrite Hbody.
  unfold perform. rewrite run_do, exec_subscribe.
  set (w6 := log (EvCall (VFun lid) []) w5).
  assert (Hv6 : valid_refs w6) by (destruct Hv as [Hv _]; split; exact Hv).
  destruct (subscribe_spec added w6 eq_refl Hf Hv6)
    as (w7 & S1 & A1 & A2 & V7 & C7 & _ & _ & R7 & St7 & I7 & _ & T7).
  rewrite S1. rewrite run_ret.
  assert (Harr7 : array_at w7 (nextListeners w) = L1 ++ VFun lid :: L2).
  { rewrite (A2 (nextListeners w) eq_refl). exact Harr. }
  rewrite (notify_quiet (S n) _ L2).
  - eexists. split; [reflexivity|].
    split; [|split; [|split; [|split; [|split; [|split; [|split]]]]]].
    + simpl. rewrite T7. simpl. rewrite map_app. simpl.
      rewrite <- !app_assoc. reflexivity.
    + change (array_at w7 (nextListeners w7)
              = (L1 ++ VFun lid :: L2) ++ [added]).
      rewrite A1. f_equal. exact Harr.
    + change (currentListeners w7 = Some (nextListeners w)).
      rewrite C7. reflexivity.
    + exact Harr7.
    + exact V7.
    + exact I7.
    + change (currentReducer w7 = currentReducer w). rewrite R7.
      reflexivity.
    + change (currentState w7 = s). rewrite St7. reflexivity.
  - rewrite Harr7.
    clear. induction L1 as [|h t IH]; simpl; [reflexivity|exact IH].
  - exact Hq2.
  - lia.
Qed.

(** C7.  [subscribe] while the flag is set fails with
    [ErrSubscribeWhileDispatching], a [ReentrancyError].  When a listener
    of the list [L1 ++ l :: L2] subscribes [added] while it is notified,
    the subscription succeeds: the pass calls exactly the listeners of
    that list, which stays as it was, [added] is appended to the next
    list only, and the next dispatch calls [added] after the others. *)
Theorem subscribe_in_listener_waits_for_next_dispatch
    n m w a lid added L1 L2 :
  isDispatching w = false ->
  valid_refs w ->
  well_formed env a = true ->
  (forall st, exists s, returns (currentReducer w) [st; a] s) ->
  array_at w (nextListeners w) = L1 ++ VFun lid :: L2 ->
  Forall quiet L1 -> Forall quiet L2 ->
  subscribes (VFun lid) added ->
  quiet added ->
  List.length (L1 ++ VFun lid :: L2) + 1 < m ->
  (forall w0,
      isDispatching w0 = true ->
      subscribe added w0 = (Err ErrSubscribeWhileDispatching, w0) /\
      error_class ErrSubscribeWhileDispatching = ReentrancyError) /\
  exists w1 w2,
    dispatch (runJ (S n)) m a w = Some (Ok a, w1) /\
    trace w1
    = trace w ++ EvCall (currentReducer w) [currentState w; a]
        :: map (fun l => EvCall l []) (L1 ++ VFun lid :: L2) /\
    currentListeners w1 = Some (nextListeners w) /\
    array_at w1 (nextListeners w) = L1 ++ VFun lid :: L2 /\
    array_at w1 (nextListeners w1) = (L1 ++ VFun lid :: L2) ++ [added] /\
    dispatch (runJ (S n)) m a w1 = Some (Ok a, w2) /\
    trace w2
    = trace w1 ++ EvCall (currentReducer w) [currentState w1; a]
        :: map (fun l => EvCall l []) ((L1 ++ VFun lid :: L2) ++ [added]).
Proof.
  intros Hi Hv Ha Hred Harr Hq1 Hq2 Hsub Hadd Hm.
  pose proof (quiet_function _ Hadd) as Hf.
  split.
  { intros w0 Hb. unfold subscribe. rewrite Hf, Hb. split; reflexivity. }
  destruct (Hred (currentState w)) as [s Hs].
  destruct (dispatch_one_subscriber n m w a s lid added L1 L2
              Hi Hv Ha Hs Harr Hq1 Hq2 Hsub Hf ltac:(lia))
    as (w1 & D1 & T1 & A1 & C1 & F1 & V1 & I1 & R1 & St1).
  destruct (Hred (currentState w1)) as [s' Hs'].
  rewrite <- R1 in Hs'.
  assert (Harr1 : array_at w1 (nextListeners w1)
                  = L1 ++ VFun lid :: (L2 ++ [added])).
  { rewrite A1, <- app_assoc. reflexivity. }
  assert (Hq2' : Forall quiet (L2 ++ [added])).
  { apply Forall_app. split; [exact Hq2|]. repeat constructor. exact Hadd. }
  assert (Hm' : List.length (L1 ++ VFun lid :: L2 ++ [added]) < m).
  { rewrite !length_app in *. simpl in *. rewrite length_app. simpl. lia. }
  destruct (dispatch_one_subscriber n m w1 a s' lid added L1 (L2 ++ [added])
              I1 V1 Ha Hs' Harr1 Hq1 Hq2' Hsub Hf Hm')
    as (w2 & D2 & T2 & _).
  exists w1, w2. repeat split; try assumption.
  rewrite T2, R1, <- app_assoc. reflexivity.
Qed.

End Properties.

(** * Concrete instances *)


(** ** The theorems at concrete inputs *)


Lemma reducer_error_aborts_dispatch_witness :
  let w := initial (VFun 2) (VNum 5) 0 in
  let a := demo_action 0 "X" in
  exists w',
    dispatch demo_env demo_fenv (demo_run 1) 1 a w = Some (Err (ErrUser 7), w') /\
    currentState w' = VNum 5 /\
    isDispatching w' = false.
Proof.
  intros w a.
  destruct (reducer_error_aborts_dispatch demo_env demo_fenv demo_REPLACE 1 w a
              (ErrUser 7)
              (log (EvCall (VFun 2) [VNum 5; a]) (set_dispatching true w))
              eq_refl eq_refl eq_refl)
    as (H1 & H2 & _ & _ & _ & _ & H3 & _).
  eexists. split; [exact H1|]. split; [exact H2|exact H3].
Defined.

Lemma replaceReducer_during_dispatch_keeps_swap_witness :
  let w := initial (VFun 6) (VNum 3) 0 in
  let a := demo_action 0 "X" in
  exists w',
    dispatch demo_env demo_fenv (demo_run 2) 2 a w
    = Some (Err ErrReducersMayNotDispatch, w') /\
    currentReducer w' = VFun 0 /\
    currentState w' = VNum 3.
Proof.
  intros w a.
  destruct (replaceReducer_during_dispatch_keeps_swap demo_env demo_fenv demo_REPLACE
              1 w a 6
              (fun r => match r with Ok v => Ret v | Err e => Throw e end)
              (VFun 0) eq_refl eq_refl eq_refl eq_refl eq_refl
              (fun r => eq_refl))
    as (_ & w' & H1 & H2 & H3 & _).
  exists w'. split; [exact H1|]. split; [exact H2|exact H3].
Defined.

Lemma dispatch_returns_its_action_witness :
  let w := initial (VFun 0) (VNum 0) 0 in
  let a := demo_action 0 "INC" in
  exists w', dispatch demo_env demo_fenv (demo_run 0) 1 a w = Some (Ok a, w').
Proof.
  intros w a.
  apply (proj2 (dispatch_returns_its_action demo_env demo_fenv demo_REPLACE 0 1 a w)
           eq_refl eq_refl).
  - exists (VNum 1). exists 0. split; reflexivity.
  - constructor.
  - simpl. lia.
Defined.

Lemma createStore_overloads_witness :
  exists w,
    createStore demo_env demo_fenv demo_INIT demo_REPLACE demo_enhancer 1
      (VFun 0) (VFun 1) (VFun 2) VUndefined 0
    = Some (Err ErrSeveralEnhancers, w).
Proof.
  apply (proj1 (proj2 (createStore_overloads demo_env demo_fenv demo_INIT demo_REPLACE
                         demo_enhancer 1 (VFun 0) 0))
           (VFun 1) (VFun 2) VUndefined eq_refl eq_refl).
Defined.

Lemma duplicate_subscription_witness :
  let w :=
    mkWorld (VFun 0) (VNum 0) (Some 0) 0 false [[VFun 1; VFun 10]]
      [(VFun 1, true); (VFun 10, true)] 0 [] in
  let a := demo_action 0 "INC" in
  exists w1 w2 s w3,
    subscribe (VFun 1) w = (Ok (VUnsub 2), w1) /\
    subscribe (VFun 1) w1 = (Ok (VUnsub 3), w2) /\
    array_at w2 (nextListeners w2) = [VFun 1; VFun 10; VFun 1; VFun 1] /\
    unsubscribe 3
      (after_dispatch w2 a s [VFun 1; VFun 10; VFun 1; VFun 1])
    = (Ok VUndefined, w3) /\
    array_at w3 (nextListeners w3) = [VFun 10; VFun 1; VFun 1].
Proof.
  intros w a.
  destruct (duplicate_subscription demo_env demo_fenv demo_REPLACE 0 5 w
              (VFun 1) a) as (w1 & w2 & s & H1 & H2 & H3 & _ & H5).
  - reflexivity.
  - split; simpl; lia.
  - reflexivity.
  - exists VUndefined. exists 1. split; reflexivity.
  - repeat constructor.
    + exists VUndefined. exists 1. split; reflexivity.
    + exists VUndefined. exists 10. split; reflexivity.
  - intros st. eexists. exists 0. split; reflexivity.
  - simpl. lia.
  - destruct (H5 3 (or_intror eq_refl))
      as (i & w3 & s' & I1 & _ & _ & X & A3 & _).
    simpl in I1. inversion I1; subst i.
    exists w1, w2, s, w3.
    split; [exact H1|]. split; [exact H2|]. split; [exact H3|].
    split; [exact X|exact A3].
Defined.

Lemma composite_returns_state_iff_unchanged_witness :
  let c := mkComposite [("toString", VFun 0)] None in
  let state := VObj 7 true [("a", VNum 1)] in
  let action := demo_action 8 "NOOP" in
  let w := initial (VFun 8) VUndefined 9 in
  run demo_env demo_fenv demo_REPLACE 2 (combination demo_env c state action)
    w
  = Some (Ok state,
          log (EvCall (VFun 0) [VFun 30; action]) (set_addr 10 w)).
Proof.
  intros c state action w.
  apply (proj1 (composite_returns_state_iff_unchanged demo_env demo_fenv
                  demo_REPLACE 0 c state action [VFun 30] w eq_refl
                  (conj eq_refl (or_intror eq_refl))
                  ltac:(repeat constructor; simpl; intros [])
                  eq_refl
                  ltac:(repeat constructor; exists 0; split; reflexivity))).
  split; [repeat constructor|reflexivity].
Defined.


Lemma replaceReducer_passes_prior_slices_witness :
  let w :=
    mkWorld (VFun 0) (VObj 3 true [("count", VNum 2)]) (Some 0) 0 false
      [[]] [] 4 [] in
  exists w',
    replaceReducer demo_env demo_fenv demo_REPLACE (demo_run 2) 1 (VFun 8) w
    = Some (Ok VStore, w') /\
    currentReducer w' = VFun 8 /\
    In (EvCall (VFun 0) [VNum 2; demo_action 4 demo_REPLACE]) (trace w').
Proof.
  intros w.
  destruct (proj2 (proj2 (replaceReducer_passes_prior_slices demo_env
                            demo_fenv demo_REPLACE 0 1 w eq_refl))
              8 (mkComposite [("count", VFun 0)] None) [VNum 2])
    as (w' & H1 & H2 & _ & _ & H3).
  - reflexivity.
  - reflexivity.
  - split; [reflexivity|right; reflexivity].
  - reflexivity.
  - repeat constructor. exists 0. split; reflexivity.
  - constructor.
  - simpl. lia.
  - exists w'. split; [exact H1|]. split; [exact H2|].
    exact (proj1 (H3 0 "count" (VFun 0) (VNum 2) eq_refl eq_refl)).
Defined.

Lemma subscribe_in_listener_waits_for_next_dispatch_witness :
  let w :=
    mkWorld (VFun 0) (VNum 0) (Some 0) 0 false [[VFun 7]] [(VFun 7, true)]
      0 [] in
  let a := demo_action 0 "NOOP" in
  exists w1 w2,
    dispatch demo_env demo_fenv (demo_run 1) 3 a w = Some (Ok a, w1) /\
    array_at w1 (nextListeners w) = [VFun 7] /\
    array_at w1 (nextListeners w1) = [VFun 7; VFun 1] /\
    dispatch demo_env demo_fenv (demo_run 1) 3 a w1 = Some (Ok a, w2).
Proof.
  intros w a.
  destruct (subscribe_in_listener_waits_for_next_dispatch demo_env demo_fenv
              demo_REPLACE 0 3 w a 7 (VFun 1) [] [])
    as (_ & w1 & w2 & H1 & _ & _ & H2 & H3 & H4 & _).
  - reflexivity.
  - split; simpl; lia.
  - reflexivity.
  - intros st. eexists. exists 0. split; reflexivity.
  - reflexivity.
  - constructor.
  - constructor.
  - exists 7. split; reflexivity.
  - exists VUndefined. exists 1. split; reflexivity.
  - simpl. lia.
  - exists w1, w2. repeat split; assumption.
Defined.

(** * Further properties of the store and of the composer *)

Section MoreProperties.

Variable env : Env.
Variable fenv : nat -> list JsVal -> Prog JsVal.
Variable INIT : string.
Variable REPLACE : string.
Variable PROBE_UNKNOWN_ACTION : nat -> string.
Variable enhancerCall : JsVal -> JsVal -> JsVal -> nat -> Outcome.

Local Abbreviation run := (run env fenv REPLACE).
Local Abbreviation runJ n := (@Redux.run env fenv REPLACE n JsVal).
Local Abbreviation exec := (exec env fenv REPLACE).
Local Abbreviation dispatch := (dispatch env fenv).
Local Abbreviation dispatch_body := (dispatch_body fenv).
Local Abbreviation notify := (notify fenv).
Local Abbreviation call := (call fenv).
Local Abbreviation replaceReducer := (replaceReducer env fenv REPLACE).
Local Abbreviation createStore :=
  (createStore env fenv INIT REPLACE enhancerCall).
Local Abbreviation combination := (combination env).
Local Abbreviation shape_warning_calls := (shape_warning_calls env).
Local Abbreviation composite_body := (composite_body env).
Local Abbreviation combineReducers :=
  (combineReducers INIT PROBE_UNKNOWN_ACTION).
Local Abbreviation assertReducerShape_from :=
  (assertReducerShape_from INIT PROBE_UNKNOWN_ACTION).
Local Abbreviation returns := (returns fenv).
Local Abbreviation quiet := (quiet fenv).
Local Abbreviation slice_results := (slice_results env fenv).

(** ** The array a pass iterates is never written *)

Lemma ensure_frozen r w :
  frozen r w ->
  let w1 := ensureCanMutateNextListeners w in
  r < List.length (arrays w1) /\
  r <> nextListeners w1 /\
  array_at w1 r = array_at w r.
Proof.
  intros [Hr Hf]. unfold ensureCanMutateNextListeners.
  destruct (currentListeners w) as [c|] eqn:Ec.
  - destruct (Nat.eqb (nextListeners w) c) eqn:E.
    + simpl. unfold array_at. simpl. rewrite length_app. simpl.
      split; [lia|]. split; [lia|]. apply app_nth1. exact Hr.
    + apply Nat.eqb_neq in E. simpl. split; [exact Hr|]. split; [|reflexivity].
      destruct Hf as [Hf|Hf]; [exact Hf|]. inversion Hf. congruence.
  - simpl. split; [exact Hr|]. split; [|reflexivity].
    destruct Hf as [Hf|Hf]; [exact Hf|discriminate].
Qed.

Lemma subscribe_frozen r l w res w' :
  frozen r w -> subscribe l w = (res, w') ->
  frozen r w' /\ array_at w' r = array_at w r.
Proof.
  intros Hf. unfold subscribe.
  destruct (negb (is_function l));
    [intros H; inversion H; subst; split; [exact Hf|reflexivity]|].
  destruct (isDispatching w);
    [intros H; inversion H; subst; split; [exact Hf|reflexivity]|].
  destruct (ensure_frozen r w Hf) as (E1 & E2 & E3).
  set (w1 := ensureCanMutateNextListeners w) in *.
  intros H; inversion H; subst. unfold frozen, array_at in *. simpl.
  rewrite length_update_nth.
  split; [split; [exact E1|left; exact E2]|].
  rewrite nth_update_nth_neq by congruence. exact E3.
Qed.

Lemma unsubscribe_frozen r sid w res w' :
  frozen r w -> unsubscribe sid w = (res, w') ->
  frozen r w' /\ array_at w' r = array_at w r.
Proof.
  intros Hf. unfold unsubscribe.
  destruct (nth_error (subscriptions w) sid) as [[l b]|];
    [|intros H; inversion H; subst; split; [exact Hf|reflexivity]].
  destruct b; simpl;
    [|intros H; inversion H; subst; split; [exact Hf|reflexivity]].
  destruct (isDispatching w);
    [intros H; inversion H; subst; split; [exact Hf|reflexivity]|].
  set (w0 := set_subscriptions _ w).
  assert (Hf0 : frozen r w0) by exact Hf.
  destruct (ensure_frozen r w0 Hf0) as (E1 & E2 & E3).
  set (w1 := ensureCanMutateNextListeners w0) in *.
  intros H; inversion H; subst. unfold frozen, array_at in *. simpl.
  rewrite length_update_nth.
  split; [split; [exact E1|left; exact E2]|].
  rewrite nth_update_nth_neq by congruence. exact E3.
Qed.

Lemma call_frozen rec f args r w res w' :
  keeps_frozen rec -> frozen r w -> call rec f args w = Some (res, w') ->
  frozen r w' /\ array_at w' r = array_at w r.
Proof.
  intros Hrec Hf. destruct f; simpl; intros H;
    try (inversion H; subst; split; [exact Hf|reflexivity]).
  - eapply (Hrec r _ (log _ w)); [exact Hf|exact H].
  - inversion H as [H1]. eapply (unsubscribe_frozen r _ (log _ w)) in H1;
      [exact H1|exact Hf].
Qed.

Lemma notify_frozen rec n :
  keeps_frozen rec ->
  forall i ref r w res w',
    frozen r w -> notify rec n i ref w = Some (res, w') ->
    frozen r w' /\ array_at w' r = array_at w r.
Proof.
  intros Hrec. induction n as [|n IH]; intros i ref r w res w' Hf H;
    [discriminate|].
  rewrite notify_S in H.
  destruct (nth_error (array_at w ref) i) as [l|];
    [|inversion H; subst; split; [exact Hf|reflexivity]].
  destruct (call rec l [] w) as [[r1 w1]|] eqn:Hc; [|discriminate].
  destruct (call_frozen _ _ _ _ _ _ _ Hrec Hf Hc) as [Hf1 Ha1].
  destruct r1.
  - destruct (IH _ _ _ _ _ _ Hf1 H) as [Hf2 Ha2].
    split; [exact Hf2|congruence].
  - inversion H; subst. split; assumption.
Qed.

Lemma dispatch_frozen rec n a r w res w' :
  keeps_frozen rec -> frozen r w -> dispatch rec n a w = Some (res, w') ->
  frozen r w' /\ array_at w' r = array_at w r.
Proof.
  intros Hrec Hf. unfold Redux.dispatch.
  destruct (negb (isPlainObject a));
    [intros H; inversion H; subst; split; [exact Hf|reflexivity]|].
  destruct (get_prop env a "type");
    [|intros H; inversion H; subst; split; [exact Hf|reflexivity]].
  destruct (is_undefined _);
    [intros H; inversion H; subst; split; [exact Hf|reflexivity]|].
  destruct (isDispatching w);
    [intros H; inversion H; subst; split; [exact Hf|reflexivity]|].
  unfold Redux.dispatch_body.
  destruct (call rec _ _ _) as [[r1 w1]|] eqn:Hc; [|discriminate].
  assert (Hf0 : frozen r (set_dispatching true w)) by exact Hf.
  destruct (call_frozen _ _ _ _ _ _ _ Hrec Hf0 Hc) as [[Hl1 Hf1] Ha1].
  destruct r1.
  - destruct (notify rec n _ _ _) as [[r2 w2]|] eqn:Hn; [|discriminate].
    apply (notify_frozen _ _ Hrec _ _ r) in Hn.
    + destruct Hn as [Hf2 Ha2]. intros H.
      assert (w' = w2) as -> by (destruct r2; inversion H; reflexivity).
      split; [exact Hf2|]. rewrite Ha2. exact Ha1.
    + split; [exact Hl1|]. simpl.
      destruct (Nat.eq_dec r (nextListeners w1)) as [->|Hne];
        [right; reflexivity|left; exact Hne].
  - intros H; inversion H; subst. split; [|exact Ha1].
    split; [exact Hl1|exact Hf1].
Qed.

Lemma exec_frozen rec n c r w res w' :
  keeps_frozen rec -> frozen r w -> exec rec n c w = Some (res, w') ->
  frozen r w' /\ array_at w' r = array_at w r.
Proof.
  intros Hrec Hf. destruct c; simpl.
  - unfold getState. destruct (isDispatching w); intros H; inversion H;
      subst; split; [exact Hf|reflexivity|exact Hf|reflexivity].
  - apply dispatch_frozen; assumption.
  - intros H. inversion H as [H1]. eapply subscribe_frozen; eassumption.
  - unfold Redux.replaceReducer.
    destruct (negb (is_function nextReducer));
      [intros H; inversion H; subst; split; [exact Hf|reflexivity]|].
    destruct (dispatch rec n _ _) as [[r2 w2]|] eqn:Hd; [|discriminate].
    apply (dispatch_frozen _ _ _ r) in Hd; [|assumption|exact Hf].
    intros H. assert (w' = w2) as -> by (destruct r2; inversion H; auto).
    exact Hd.
  - apply call_frozen; assumption.
  - intros H; inversion H; subst. split; [exact Hf|reflexivity].
Qed.

Lemma run_frozen n :
  forall (A : Type) (p : Prog A) r w res w',
    frozen r w -> run n p w = Some (res, w') ->
    frozen r w' /\ array_at w' r = array_at w r.
Proof.
  induction n as [|n IH]; intros A p r w res w' Hf H.
  - destruct p; simpl in H; inversion H; subst; split;
      solve [exact Hf|reflexivity].
  - destruct p; simpl in H;
      try (inversion H; subst; split; solve [exact Hf|reflexivity]).
    destruct (exec _ n c w) as [[r1 w1]|] eqn:He; [|discriminate].
    apply (exec_frozen _ _ _ r) in He;
      [|exact (fun r0 p0 => IH JsVal p0 r0)|exact Hf].
    destruct He as [Hf1 Ha1].
    destruct (IH A (k r1) r w1 res w' Hf1 H) as [Hf2 Ha2].
    split; [exact Hf2|congruence].
Qed.

(** X1.  Whatever a callback does (subscribe, unsubscribe, dispatch,
    replace the reducer), it never writes the array that
    [currentListeners] points to, nor any array other than the next list:
    the listeners of a pass in progress are those of the start of the
    pass. *)
Theorem snapshot_is_never_written n (A : Type) (p : Prog A) r w res w' :
  r < List.length (arrays w) ->
  currentListeners w = Some r \/ r <> nextListeners w ->
  run n p w = Some (res, w') ->
  array_at w' r = array_at w r /\
  r < List.length (arrays w') /\
  (currentListeners w' = Some r \/ r <> nextListeners w').
Proof.
  intros Hr Hc H.
  destruct (run_frozen n A p r w res w') as [[H1 H2] H3].
  - split; [exact Hr|]. destruct Hc; [right|left]; assumption.
  - exact H.
  - split; [exact H3|]. split; [exact H1|].
    destruct H2; [right|left]; assumption.
Qed.

(** ** The next list and the live subscriptions agree *)

Lemma live_count_app l a b :
  live_count l (a ++ b) = live_count l a + live_count l b.
Proof.
  induction a as [|[y c] t IH]; simpl; [reflexivity|]. rewrite IH. lia.
Qed.

Lemma live_count_unsubscribe l0 :
  forall subs sid l,
    nth_error subs sid = Some (l0, true) ->
    live_count l (update_nth sid (l0, false) subs)
    + (if strict_eq l0 l then 1 else 0)
    = live_count l subs.
Proof.
  induction subs as [|[y b] t IH]; intros sid l H.
  - destruct sid; discriminate.
  - destruct sid as [|sid]; simpl in *.
    + inversion H; subst. simpl. lia.
    + rewrite <- (IH sid l H). lia.
Qed.

Lemma Forall_update_nth {A : Type} (P : A -> Prop) x :
  forall (l : list A) n, P x -> Forall P l -> Forall P (update_nth n x l).
Proof.
  induction l as [|h t IH]; intros n Hx Hl; [destruct n; constructor|].
  destruct n; simpl; inversion Hl; subst; constructor; auto.
Qed.

Lemma live_count_positive l0 :
  forall subs sid,
    nth_error subs sid = Some (l0, true) -> strict_eq l0 l0 = true ->
    0 < live_count l0 subs.
Proof.
  induction subs as [|[y b] t IH]; intros sid H He.
  - destruct sid; discriminate.
  - destruct sid as [|sid]; simpl in *.
    + inversion H; subst. rewrite He. simpl. lia.
    + specialize (IH sid H He). lia.
Qed.

Lemma subscribe_consistent l w res w' :
  consistent w -> subscribe l w = (res, w') -> consistent w'.
Proof.
  intros (Hv & Hfun & Hcount). unfold subscribe.
  destruct (is_function l) eqn:Hf; simpl;
    [|intros H; inversion H; subst; exact (conj Hv (conj Hfun Hcount))].
  destruct (isDispatching w) eqn:Hi;
    [intros H; inversion H; subst; exact (conj Hv (conj Hfun Hcount))|].
  destruct (subscribe_spec l w Hi Hf Hv)
    as (w1 & S1 & A1 & _ & V1 & _ & _ & U1 & _).
  unfold subscribe in S1. rewrite Hf, Hi in S1. simpl in S1.
  intros H. rewrite S1 in H. inversion H; subst w'. clear H.
  split; [exact V1|]. split.
  - rewrite U1. apply Forall_app. split; [exact Hfun|].
    constructor; [exact Hf|constructor].
  - intros l'. rewrite A1, U1, count_listener_app, live_count_app, Hcount.
    simpl. reflexivity.
Qed.

Lemma unsubscribe_live_spec sid l w :
  consistent w -> isDispatching w = false ->
  nth_error (subscriptions w) sid = Some (l, true) ->
  exists i w',
    indexOf l (array_at w (nextListeners w)) = Some i /\
    nth_error (array_at w (nextListeners w)) i = Some l /\
    unsubscribe sid w = (Ok VUndefined, w') /\
    array_at w' (nextListeners w')
    = remove_at i (array_at w (nextListeners w)) /\
    (forall l',
        count_listener l' (array_at w' (nextListeners w'))
        + (if strict_eq l l' then 1 else 0)
        = count_listener l' (array_at w (nextListeners w))) /\
    consistent w'.
Proof.
  intros (Hv & Hfun & Hcount) Hi Hs.
  assert (Hf : is_function l = true).
  { apply nth_error_In in Hs.
    rewrite Forall_forall in Hfun. exact (Hfun _ Hs). }
  assert (Hpos : 0 < count_listener l (array_at w (nextListeners w))).
  { rewrite Hcount. eapply live_count_positive; [exact Hs|].
    apply strict_eq_function. exact Hf. }
  destruct (indexOf_found _ _ Hpos) as (i & y & I1 & I2 & I3 & I4).
  apply (strict_eq_function_eq _ _ Hf) in I3. subst y.
  destruct (unsubscribe_spec sid l w Hi Hv Hs)
    as (w' & X1 & X2 & _ & V' & _ & U' & _).
  rewrite I1 in X2. simpl in X2.
  exists i, w'. split; [exact I1|]. split; [exact I2|].
  split; [exact X1|]. split; [exact X2|].
  split; [intros l'; rewrite X2; apply I4|].
  split; [exact V'|]. split.
  - rewrite U'. apply Forall_update_nth; [exact Hf|exact Hfun].
  - intros l'. rewrite X2, U'.
    pose proof (I4 l') as H1.
    pose proof (live_count_unsubscribe l _ _ l' Hs) as H2.
    rewrite Hcount in H1. lia.
Qed.

Lemma unsubscribe_consistent sid w res w' :
  consistent w -> unsubscribe sid w = (res, w') -> consistent w'.
Proof.
  intros Hc H.
  destruct (nth_error (subscriptions w) sid) as [[l b]|] eqn:Hs.
  - destruct b.
    + destruct (isDispatching w) eqn:Hi.
      * unfold unsubscribe in H. rewrite Hs, Hi in H. simpl in H.
        inversion H; subst. exact Hc.
      * destruct (unsubscribe_live_spec sid l w Hc Hi Hs)
          as (i & w1 & _ & _ & X & _ & _ & C1).
        rewrite X in H. inversion H; subst. exact C1.
    + unfold unsubscribe in H. rewrite Hs in H. simpl in H.
      inversion H; subst. exact Hc.
  - unfold unsubscribe in H. rewrite Hs in H. inversion H; subst. exact Hc.
Qed.

Lemma call_consistent rec f args w res w' :
  keeps_consistent rec -> consistent w ->
  call rec f args w = Some (res, w') -> consistent w'.
Proof.
  intros Hrec Hc. destruct f; simpl; intros H;
    try (inversion H; subst; exact Hc).
  - eapply Hrec; [|exact H]. exact Hc.
  - inversion H as [H1]. eapply unsubscribe_consistent; [|exact H1]. exact Hc.
Qed.

Lemma notify_consistent rec n :
  keeps_consistent rec ->
  forall i ref w res w',
    consistent w -> notify rec n i ref w = Some (res, w') -> consistent w'.
Proof.
  intros Hrec. induction n as [|n IH]; intros i ref w res w' Hc H;
    [discriminate|].
  rewrite notify_S in H.
  destruct (nth_error (array_at w ref) i) as [l|];
    [|inversion H; subst; exact Hc].
  destruct (call rec l [] w) as [[r1 w1]|] eqn:Hcall; [|discriminate].
  apply call_consistent in Hcall; [|assumption|assumption].
  destruct r1; [eapply IH; eassumption|].
  inversion H; subst. exact Hcall.
Qed.

Lemma dispatch_consistent rec n a w res w' :
  keeps_consistent rec -> consistent w ->
  dispatch rec n a w = Some (res, w') -> consistent w'.
Proof.
  intros Hrec Hc. unfold Redux.dispatch.
  destruct (negb (isPlainObject a)); [intros H; inversion H; subst; auto|].
  destruct (get_prop env a "type"); [|intros H; inversion H; subst; auto].
  destruct (is_undefined _); [intros H; inversion H; subst; auto|].
  destruct (isDispatching w); [intros H; inversion H; subst; auto|].
  unfold Redux.dispatch_body.
  destruct (call rec _ _ _) as [[r1 w1]|] eqn:Hcall; [|discriminate].
  apply call_consistent in Hcall; [|assumption|exact Hc].
  destruct Hcall as ([V1 V2] & F1 & C1).
  destruct r1.
  - destruct (notify rec n _ _ _) as [[r2 w2]|] eqn:Hn; [|discriminate].
    apply notify_consistent in Hn; [|assumption|].
    + intros H. assert (w' = w2) as -> by (destruct r2; inversion H; auto).
      exact Hn.
    + split; [split; [exact V1|exact V1]|]. split; [exact F1|exact C1].
  - intros H; inversion H; subst. split; [split; assumption|].
    split; [exact F1|exact C1].
Qed.

Lemma exec_consistent rec n c w res w' :
  keeps_consistent rec -> consistent w ->
  exec rec n c w = Some (res, w') -> consistent w'.
Proof.
  intros Hrec Hc. destruct c; simpl.
  - unfold getState. destruct (isDispatching w); intros H; inversion H;
      subst; exact Hc.
  - apply dispatch_consistent; assumption.
  - intros H. inversion H as [H1]. eapply subscribe_consistent; eassumption.
  - unfold Redux.replaceReducer.
    destruct (negb (is_function nextReducer));
      [intros H; inversion H; subst; exact Hc|].
    destruct (dispatch rec n _ _) as [[r2 w2]|] eqn:Hd; [|discriminate].
    apply dispatch_consistent in Hd; [|assumption|exact Hc].
    intros H. assert (w' = w2) as -> by (destruct r2; inversion H; auto).
    exact Hd.
  - apply call_consistent; assumption.
  - intros H; inversion H; subst. exact Hc.
Qed.

Lemma run_consistent n :
  forall (A : Type) (p : Prog A) w res w',
    consistent w -> run n p w = Some (res, w') -> consistent w'.
Proof.
  induction n as [|n IH]; intros A p w res w' Hc H.
  - destruct p; simpl in H; inversion H; subst; exact Hc.
  - destruct p; simpl in H; try (inversion H; subst; exact Hc).
    destruct (exec _ n c w) as [[r1 w1]|] eqn:He; [|discriminate].
    apply exec_consistent in He; [|exact (IH JsVal)|exact Hc].
    eapply IH; eassumption.
Qed.

(** [createStore] without enhancer. *)
Lemma createStore_plain n reducer preloadedState arg3 addr :
  is_function preloadedState = false ->
  createStore n reducer preloadedState VUndefined arg3 addr
  = if negb (is_function reducer) then
      Some (Err ErrReducerNotFunction, initial reducer preloadedState addr)
    else
      match dispatch (runJ n) n (action_of addr INIT)
              (set_addr (S addr) (initial reducer preloadedState addr)) with
      | None => None
      | Some (Err e, w') => Some (Err e, w')
      | Some (Ok _, w') => Some (Ok VStore, w')
      end.
Proof.
  intros Hp. unfold Redux.createStore. rewrite Hp. reflexivity.
Qed.

Lemma initial_consistent reducer preloadedState addr :
  consistent (initial reducer preloadedState addr).
Proof.
  split; [split; simpl; lia|]. split; [constructor|]. intros l. reflexivity.
Qed.

(** X2.  The world [createStore] makes (without enhancer) is consistent,
    and everything a callback or a caller does keeps a consistent world
    consistent: the next list holds every listener once per live
    subscription, and the array references stay valid. *)
Theorem store_stays_consistent :
  (forall n reducer preloadedState arg3 addr r w0,
      is_function preloadedState = false ->
      createStore n reducer preloadedState VUndefined arg3 addr
      = Some (r, w0) ->
      consistent w0) /\
  (forall n (A : Type) (p : Prog A) w res w',
      consistent w -> run n p w = Some (res, w') -> consistent w').
Proof.
  split.
  - intros n reducer preloadedState arg3 addr r w0 Hp.
    rewrite createStore_plain by exact Hp.
    destruct (negb (is_function reducer)).
    + intros H; inversion H; subst. apply initial_consistent.
    + destruct (dispatch _ n _ _) as [[r1 w1]|] eqn:Hd; [|discriminate].
      apply dispatch_consistent in Hd.
      * intros H. assert (w0 = w1) as -> by (destruct r1; inversion H; auto).
        exact Hd.
      * intros p w res w'. apply run_consistent.
      * exact (initial_consistent reducer preloadedState addr).
  - intros n A p w res w'. apply run_consistent.
Qed.

(** X3.  In a consistent idle world, the [unsubscribe] closure of a live
    subscription finds its listener in the next list ([indexOf] is not
    [-1]), removes that one entry and no other: the number of entries of
    every other listener is unchanged. *)
Theorem unsubscribe_removes_only_its_listener sid l w :
  consistent w ->
  isDispatching w = false ->
  nth_error (subscriptions w) sid = Some (l, true) ->
  exists i w',
    indexOf l (array_at w (nextListeners w)) = Some i /\
    nth_error (array_at w (nextListeners w)) i = Some l /\
    unsubscribe sid w = (Ok VUndefined, w') /\
    array_at w' (nextListeners w')
    = remove_at i (array_at w (nextListeners w)) /\
    (forall l',
        strict_eq l l' = false ->
        count_listener l' (array_at w' (nextListeners w'))
        = count_listener l' (array_at w (nextListeners w))) /\
    S (count_listener l (array_at w' (nextListeners w')))
    = count_listener l (array_at w (nextListeners w)).
Proof.
  intros Hc Hi Hs.
  destruct (unsubscribe_live_spec sid l w Hc Hi Hs)
    as (i & w' & H1 & H2 & H3 & H4 & H5 & (_ & Hfun & _)).
  exists i, w'. repeat split; try assumption.
  - intros l' Hne. specialize (H5 l'). rewrite Hne in H5. lia.
  - specialize (H5 l).
    assert (Hf : is_function l = true).
    { destruct Hc as (_ & Hf & _). apply nth_error_In in Hs.
      rewrite Forall_forall in Hf. exact (Hf _ Hs). }
    rewrite (strict_eq_function _ Hf) in H5. lia.
Qed.

(** ** A general induction principle for invariants of the store *)

Lemma run_invariant (P : World -> Prop) :
  (forall l w res w', P w -> subscribe l w = (res, w') -> P w') ->
  (forall sid w res w', P w -> unsubscribe sid w = (res, w') -> P w') ->
  (forall e w, P w -> P (log e w)) ->
  (forall b w, P w -> P (set_dispatching b w)) ->
  (forall s w, P w -> P (set_state s w)) ->
  (forall w, P w -> P (set_current (Some (nextListeners w)) w)) ->
  (forall r w, P w -> P (set_reducer r w)) ->
  (forall a w, P w -> P (set_addr a w)) ->
  forall n (A : Type) (p : Prog A) w res w',
    P w -> run n p w = Some (res, w') -> P w'.
Proof.
  intros Hsub Hunsub Hlog Hflag Hstate Hcur Hred Haddr.
  assert (Hcall : forall rec,
             (forall p w res w', P w -> rec p w = Some (res, w') -> P w') ->
             forall f args w res w',
               P w -> call rec f args w = Some (res, w') -> P w').
  { intros rec Hrec f args w res w' Hw. destruct f; simpl; intros H;
      try (inversion H; subst; exact Hw).
    - eapply Hrec; [|exact H]. apply Hlog. exact Hw.
    - inversion H as [H1]. eapply Hunsub; [|exact H1]. apply Hlog. exact Hw. }
  assert (Hnotify : forall rec,
             (forall p w res w', P w -> rec p w = Some (res, w') -> P w') ->
             forall m i ref w res w',
               P w -> notify rec m i ref w = Some (res, w') -> P w').
  { intros rec Hrec. induction m as [|m IH]; intros i ref w res w' Hw H;
      [discriminate|].
    rewrite notify_S in H.
    destruct (nth_error (array_at w ref) i) as [l|];
      [|inversion H; subst; exact Hw].
    destruct (call rec l [] w) as [[r1 w1]|] eqn:Hc; [|discriminate].
    apply (Hcall rec Hrec) in Hc; [|exact Hw].
    destruct r1; [eapply IH; eassumption|]. inversion H; subst. exact Hc. }
  assert (Hdisp : forall rec,
             (forall p w res w', P w -> rec p w = Some (res, w') -> P w') ->
             forall m a w res w',
               P w -> dispatch rec m a w = Some (res, w') -> P w').
  { intros rec Hrec m a w res w' Hw. unfold Redux.dispatch.
    destruct (negb (isPlainObject a)); [intros H; inversion H; subst; auto|].
    destruct (get_prop env a "type"); [|intros H; inversion H; subst; auto].
    destruct (is_undefined _); [intros H; inversion H; subst; auto|].
    destruct (isDispatching w); [intros H; inversion H; subst; auto|].
    unfold Redux.dispatch_body.
    destruct (call rec _ _ _) as [[r1 w1]|] eqn:Hc; [|discriminate].
    apply (Hcall rec Hrec) in Hc; [|apply Hflag; exact Hw].
    destruct r1.
    - destruct (notify rec m _ _ _) as [[r2 w2]|] eqn:Hn; [|discriminate].
      apply (Hnotify rec Hrec) in Hn.
      + intros H. assert (w' = w2) as -> by (destruct r2; inversion H; auto).
        exact Hn.
      + apply Hcur. apply Hflag. apply Hstate. exact Hc.
    - intros H; inversion H; subst. apply Hflag. exact Hc. }
  induction n as [|n IH]; intros A p w res w' Hw H.
  - destruct p; simpl in H; inversion H; subst; exact Hw.
  - destruct p; simpl in H; try (inversion H; subst; exact Hw).
    destruct (exec _ n c w) as [[r1 w1]|] eqn:He; [|discriminate].
    apply (IH A (k r1) w1 res w'); [|exact H].
    destruct c; simpl in He.
    + unfold getState in He. destruct (isDispatching w); inversion He; subst;
        exact Hw.
    + eapply (Hdisp _ (IH JsVal)); eassumption.
    + inversion He as [H1]. eapply Hsub; eassumption.
    + unfold Redux.replaceReducer in He.
      destruct (negb (is_function nextReducer));
        [inversion He; subst; exact Hw|].
      destruct (dispatch _ n _ _) as [[r2 w2]|] eqn:Hd; [|discriminate].
      apply (Hdisp _ (IH JsVal)) in Hd.
      * assert (w1 = w2) as -> by (destruct r2; inversion He; auto). exact Hd.
      * apply Haddr. apply Hred. exact Hw.
    + eapply (Hcall _ (IH JsVal)); eassumption.
    + inversion He; subst. apply Haddr. exact Hw.
Qed.

(** ** The in-progress flag *)

(** X4.  Whatever a caller or a listener runs on an idle store (dispatches
    whose reducer or listeners raise included), the flag is down when it
    ends: every exit of [dispatch] clears it. *)
Theorem flag_is_down_after_any_run n (A : Type) (p : Prog A) w res w' :
  isDispatching w = false ->
  run n p w = Some (res, w') ->
  isDispatching w' = false.
Proof.
  apply run_idle.
Qed.

(** X5.  While the flag is set, nothing a callback runs changes the state,
    the listener lists, their arrays or the subscriptions; [getState], the
    [unsubscribe] closure of a live subscription and [subscribe] fail
    there with a [ReentrancyError]. *)
Theorem store_is_closed_while_dispatching n (A : Type) (p : Prog A) w res w' :
  isDispatching w = true ->
  run n p w = Some (res, w') ->
  same_store w w' /\
  getState w' = (Err ErrGetStateWhileDispatching, w') /\
  (forall l, is_function l = true ->
             subscribe l w' = (Err ErrSubscribeWhileDispatching, w')) /\
  (forall sid l,
      nth_error (subscriptions w') sid = Some (l, true) ->
      unsubscribe sid w' = (Err ErrUnsubscribeWhileDispatching, w')) /\
  error_class ErrGetStateWhileDispatching = ReentrancyError /\
  error_class ErrSubscribeWhileDispatching = ReentrancyError /\
  error_class ErrUnsubscribeWhileDispatching = ReentrancyError.
Proof.
  intros Hb H. pose proof (run_busy env fenv REPLACE n A p w res w' Hb H) as Hs.
  assert (Hb' : isDispatching w' = true).
  { destruct Hs as (_ & _ & _ & Hd & _). congruence. }
  split; [exact Hs|]. split.
  { unfold getState. rewrite Hb'. reflexivity. }
  split.
  { intros l Hl. unfold subscribe. rewrite Hl, Hb'. reflexivity. }
  split.
  { intros sid l Hl. unfold unsubscribe. rewrite Hl, Hb'. reflexivity. }
  repeat split.
Qed.

(** ** Unsubscribing twice *)

Lemma nth_error_update_nth_neq {A : Type} (l : list A) :
  forall n m x, n <> m -> nth_error (update_nth n x l) m = nth_error l m.
Proof.
  induction l as [|h t IH]; intros n m x Hn; [destruct n; reflexivity|].
  destruct n, m; simpl; try reflexivity; try lia.
  apply IH. lia.
Qed.

Lemma ensure_subscriptions w :
  subscriptions (ensureCanMutateNextListeners w) = subscriptions w.
Proof.
  unfold ensureCanMutateNextListeners.
  destruct (currentListeners w); [|reflexivity].
  destruct (Nat.eqb _ _); reflexivity.
Qed.

Lemma subscribe_keeps_entry sid s l w res w' :
  nth_error (subscriptions w) sid = Some s ->
  subscribe l w = (res, w') ->
  nth_error (subscriptions w') sid = Some s.
Proof.
  intros Hs. unfold subscribe.
  destruct (negb (is_function l)); [intros H; inversion H; subst; exact Hs|].
  destruct (isDispatching w); [intros H; inversion H; subst; exact Hs|].
  intros H; inversion H; subst. simpl. rewrite ensure_subscriptions.
  rewrite nth_error_app1; [exact Hs|].
  apply nth_error_Some. congruence.
Qed.

Lemma unsubscribe_keeps_dead sid l sid' w res w' :
  nth_error (subscriptions w) sid = Some (l, false) ->
  unsubscribe sid' w = (res, w') ->
  nth_error (subscriptions w') sid = Some (l, false).
Proof.
  intros Hs. unfold unsubscribe.
  destruct (nth_error (subscriptions w) sid') as [[l' b]|] eqn:Hs';
    [|intros H; inversion H; subst; exact Hs].
  destruct b; simpl; [|intros H; inversion H; subst; exact Hs].
  destruct (isDispatching w); [intros H; inversion H; subst; exact Hs|].
  intros H; inversion H; subst. simpl. rewrite ensure_subscriptions. simpl.
  rewrite nth_error_update_nth_neq; [exact Hs|].
  intros ->. congruence.
Qed.

(** X6.  The [unsubscribe] closure is idempotent: once it has run, and
    whatever runs on the store afterwards, a further call returns without
    error and without any effect, also while a dispatch is in progress
    (the [isSubscribed] test comes before the reentrancy guard). *)
Theorem unsubscribe_twice_is_a_no_op sid l w :
  isDispatching w = false ->
  valid_refs w ->
  nth_error (subscriptions w) sid = Some (l, true) ->
  exists w1,
    unsubscribe sid w = (Ok VUndefined, w1) /\
    unsubscribe sid w1 = (Ok VUndefined, w1) /\
    forall n (A : Type) (p : Prog A) res w2 b,
      run n p w1 = Some (res, w2) ->
      unsubscribe sid (set_dispatching b w2)
      = (Ok VUndefined, set_dispatching b w2).
Proof.
  intros Hi Hv Hs.
  destruct (unsubscribe_spec sid l w Hi Hv Hs)
    as (w1 & X1 & _ & _ & _ & _ & U1 & _).
  assert (Hdead : nth_error (subscriptions w1) sid = Some (l, false)).
  { rewrite U1. apply nth_error_update_nth_eq.
    apply nth_error_Some. congruence. }
  exists w1. split; [exact X1|]. split.
  { unfold unsubscribe. rewrite Hdead. reflexivity. }
  intros n A p res w2 b Hrun.
  assert (Hdead2 : nth_error (subscriptions w2) sid = Some (l, false)).
  { revert Hdead Hrun.
    apply (run_invariant
             (fun w => nth_error (subscriptions w) sid = Some (l, false))).
    - intros l0 w0 res0 w0' H0 H. eapply subscribe_keeps_entry; eassumption.
    - intros sid0 w0 res0 w0' H0 H. eapply unsubscribe_keeps_dead; eassumption.
    - intros e w0 H0. exact H0.
    - intros b0 w0 H0. exact H0.
    - intros s w0 H0. exact H0.
    - intros w0 H0. exact H0.
    - intros r w0 H0. exact H0.
    - intros a w0 H0. exact H0. }
  unfold unsubscribe. simpl. rewrite Hdead2. reflexivity.
Qed.

(** ** Argument checks *)

(** X7.  The argument checks of [subscribe], [dispatch] and
    [replaceReducer] come before the reentrancy guard and before any
    effect: a listener or a next reducer that is not a function, an action
    that is not a plain object or whose [type] is [undefined] are refused,
    flag set or not, and the store is left as it was (the reducer is not
    swapped, nobody is called). *)
Theorem argument_errors_leave_the_store_untouched rec n w :
  (forall l, is_function l = false ->
             subscribe l w = (Err ErrListenerNotFunction, w)) /\
  (forall a, isPlainObject a = false ->
             dispatch rec n a w = Some (Err ErrActionNotPlain, w)) /\
  (forall a, isPlainObject a = true ->
             get_prop env a "type" = Ok VUndefined ->
             dispatch rec n a w = Some (Err ErrActionTypeUndefined, w)) /\
  (forall r, is_function r = false ->
             replaceReducer rec n r w
             = Some (Err ErrNextReducerNotFunction, w)) /\
  error_class ErrListenerNotFunction = ArgumentError /\
  error_class ErrActionNotPlain = ActionShapeError /\
  error_class ErrActionTypeUndefined = ActionShapeError /\
  error_class ErrNextReducerNotFunction = ArgumentError.
Proof.
  split; [|split; [|split; [|split]]].
  - intros l Hl. unfold subscribe. rewrite Hl. reflexivity.
  - intros a Ha. unfold Redux.dispatch. rewrite Ha. reflexivity.
  - intros a Ha Ht. unfold Redux.dispatch. rewrite Ha, Ht. reflexivity.
  - intros r Hr. unfold Redux.replaceReducer. rewrite Hr. reflexivity.
  - repeat split.
Qed.

(** ** Construction *)

(** X8.  [createStore] checks the enhancer before the reducer: an enhancer
    that is neither [undefined] nor a function is refused whatever the
    reducer is; without enhancer, a reducer that is not a function is
    refused.  Both are [ArgumentError]s and no dispatch takes place. *)
Theorem createStore_argument_checks n reducer preloadedState arg3 addr :
  (forall enhancer,
      is_function enhancer = false -> is_undefined enhancer = false ->
      exists w,
        createStore n reducer preloadedState enhancer arg3 addr
        = Some (Err ErrEnhancerNotFunction, w) /\ trace w = []) /\
  (is_function preloadedState = false -> is_function reducer = false ->
   exists w,
     createStore n reducer preloadedState VUndefined arg3 addr
     = Some (Err ErrReducerNotFunction, w) /\ trace w = []) /\
  error_class ErrEnhancerNotFunction = ArgumentError /\
  error_class ErrReducerNotFunction = ArgumentError.
Proof.
  split; [|split; [|split; reflexivity]].
  - intros enhancer Hf Hu. unfold Redux.createStore. rewrite Hf.
    rewrite andb_false_r. simpl. rewrite Hu, andb_false_r. simpl.
    rewrite Hu, Hf. simpl. eexists. split; reflexivity.
  - intros Hp Hr. rewrite createStore_plain by exact Hp. rewrite Hr. simpl.
    eexists. split; reflexivity.
Qed.

(** X9.  Without enhancer, [createStore] dispatches one [INIT] action:
    when the reducer returns [s] for the preloaded state and that action,
    the store starts with state [s] ([undefined] included: a reducer used
    directly is not checked), the given reducer, no listener and the flag
    down; when the reducer raises, [createStore] raises the same error. *)
Theorem createStore_seeds_the_state n reducer preloadedState arg3 addr :
  is_function preloadedState = false ->
  (forall s,
      returns reducer [preloadedState; action_of addr INIT] s ->
      createStore (S n) reducer preloadedState VUndefined arg3 addr
      = Some (Ok VStore,
              mkWorld reducer s (Some 0) 0 false [[]] [] (S addr)
                [EvCall reducer [preloadedState; action_of addr INIT]])) /\
  (forall e w2,
      is_function reducer = true ->
      call (runJ n) reducer [preloadedState; action_of addr INIT]
        (set_dispatching true
           (set_addr (S addr) (initial reducer preloadedState addr)))
      = Some (Err e, w2) ->
      createStore n reducer preloadedState VUndefined arg3 addr
      = Some (Err e, set_dispatching false w2)).
Proof.
  intros Hp. split.
  - intros s Hs. rewrite createStore_plain by exact Hp.
    assert (Hf : is_function reducer = true)
      by (destruct Hs as (id & -> & _); reflexivity).
    rewrite Hf. simpl negb. cbv iota.
    rewrite (dispatch_quiet env fenv REPLACE (S n) (S n)
               (set_addr (S addr) (initial reducer preloadedState addr))
               (action_of addr INIT) s).
    + reflexivity.
    + reflexivity.
    + reflexivity.
    + exact Hs.
    + constructor.
    + simpl. lia.
  - intros e w2 Hf Hc. rewrite createStore_plain by exact Hp.
    rewrite Hf. simpl negb. cbv iota.
    rewrite dispatch_guards; [|reflexivity|reflexivity].
    unfold Redux.dispatch_body.
    change (currentReducer
              (set_dispatching true
                 (set_addr (S addr) (initial reducer preloadedState addr))))
      with reducer.
    change (currentState
              (set_dispatching true
                 (set_addr (S addr) (initial reducer preloadedState addr))))
      with preloadedState.
    rewrite Hc. reflexivity.
Qed.

(** ** A listener that throws *)

(** X10.  The notification loop has no [try]: when a listener throws, the
    dispatch raises that error and the listeners after it in the list are
    not called; the state is already the new one, the flag is down and the
    listeners before it have been called. *)
Theorem listener_error_stops_the_pass n m w a s l e L1 L2 :
  isDispatching w = false ->
  well_formed env a = true ->
  returns (currentReducer w) [currentState w; a] s ->
  array_at w (nextListeners w) = L1 ++ l :: L2 ->
  Forall quiet L1 ->
  throws fenv l e ->
  exists w',
    dispatch (runJ n) (List.length L1 + S m) a w = Some (Err e, w') /\
    currentState w' = s /\
    isDispatching w' = false /\
    currentListeners w' = Some (nextListeners w) /\
    trace w'
    = trace w ++ EvCall (currentReducer w) [currentState w; a]
        :: map (fun l => EvCall l []) (L1 ++ [l]).
Proof.
  intros Hi Ha Hr Harr Hq (lid & -> & Hbody).
  rewrite dispatch_guards by assumption.
  unfold Redux.dispatch_body.
  rewrite (call_returns env fenv REPLACE _ _ _ s) by exact Hr.
  simpl nextListeners.
  set (w4 := set_current _ _).
  assert (Harr4 : array_at w4 (nextListeners w) = L1 ++ VFun lid :: L2)
    by exact Harr.
  rewrite (notify_quiet_prefix env fenv REPLACE n _ L1 (VFun lid :: L2));
    [|exact Harr4|exact Hq].
  assert (Hnth : nth_error (array_at (log_calls L1 w4) (nextListeners w))
                   (List.length L1) = Some (VFun lid)).
  { change (array_at (log_calls L1 w4) (nextListeners w))
      with (array_at w (nextListeners w)).
    rewrite Harr, nth_error_app2, Nat.sub_diag by lia. reflexivity. }
  simpl Nat.add. rewrite notify_S, Hnth.
  unfold Redux.call. rewrite Hbody, run_throw.
  eexists. split; [reflexivity|].
  repeat split.
  simpl. rewrite map_app. simpl. rewrite <- !app_assoc. reflexivity.
Qed.

(** ** Unsubscribing from a listener *)

(** X11.  When a listener of the list [L1 ++ l :: L2] calls the
    [unsubscribe] closure of a live subscription while it is notified, the
    call succeeds, the pass still calls every listener of that list (the
    removed one included, if it comes later), the array of the pass is as
    it was, the next list has lost the first entry of the removed
    listener, and [currentListeners] is [null] when the dispatch
    returns. *)
Theorem unsubscribe_in_listener_waits_for_next_dispatch
    n m w a s l sid victim L1 L2 :
  isDispatching w = false ->
  consistent w ->
  well_formed env a = true ->
  returns (currentReducer w) [currentState w; a] s ->
  array_at w (nextListeners w) = L1 ++ l :: L2 ->
  Forall quiet L1 -> Forall quiet L2 ->
  unsubscribes fenv l sid ->
  nth_error (subscriptions w) sid = Some (victim, true) ->
  List.length (L1 ++ l :: L2) < m ->
  exists i w',
    dispatch (runJ (S n)) m a w = Some (Ok a, w') /\
    indexOf victim (L1 ++ l :: L2) = Some i /\
    nth_error (L1 ++ l :: L2) i = Some victim /\
    trace w'
    = trace w ++ EvCall (currentReducer w) [currentState w; a]
        :: map (fun l => EvCall l []) L1
        ++ EvCall l [] :: EvCall (VUnsub sid) []
        :: map (fun l => EvCall l []) L2 /\
    array_at w' (nextListeners w) = L1 ++ l :: L2 /\
    array_at w' (nextListeners w') = remove_at i (L1 ++ l :: L2) /\
    currentListeners w' = None /\
    currentState w' = s /\
    nth_error (subscriptions w') sid = Some (victim, false).
Proof.
  intros Hi Hc Ha Hr Harr Hq1 Hq2 (lid & -> & Hbody) Hs Hm.
  rewrite dispatch_guards by assumption.
  unfold Redux.dispatch_body.
  rewrite (call_returns env fenv REPLACE _ _ _ s) by exact Hr.
  simpl nextListeners.
  set (w4 := set_current _ _).
  assert (Harr4 : array_at w4 (nextListeners w) = L1 ++ VFun lid :: L2)
    by exact Harr.
  rewrite length_app in Hm. simpl in Hm.
  destruct m as [|m]; [lia|].
  replace (S m) with (List.length L1 + (S (m - List.length L1))) by lia.
  rewrite (notify_quiet_prefix env fenv REPLACE (S n) _ L1 (VFun lid :: L2));
    [|exact Harr4|exact Hq1].
  set (w5 := log_calls L1 w4).
  assert (Hnth : nth_error (array_at w5 (nextListeners w)) (List.length L1)
                 = Some (VFun lid)).
  { change (array_at w5 (nextListeners w)) with (array_at w (nextListeners w)).
    rewrite Harr, nth_error_app2, Nat.sub_diag by lia. reflexivity. }
  simpl Nat.add. rewrite notify_S, Hnth.
  unfold Redux.call at 1. rewrite Hbody.
  unfold perform. rewrite run_do, exec_call. unfold Redux.call.
  set (w6 := log (EvCall (VUnsub sid) []) (log (EvCall (VFun lid) []) w5)).
  assert (Hc6 : consistent w6).
  { destruct Hc as ([V1 V2] & F & C). split; [split; exact V1|].
    split; [exact F|exact C]. }
  assert (Hs6 : nth_error (subscriptions w6) sid = Some (victim, true))
    by exact Hs.
  destruct (unsubscribe_live_spec sid victim w6 Hc6 eq_refl Hs6)
    as (i & w7 & I1 & I2 & X & A7 & _ & _).
  destruct (unsubscribe_spec sid victim w6 eq_refl (proj1 Hc6) Hs6)
    as (w7' & X' & _ & _ & _ & C7 & U7 & _ & St7 & _ & _ & T7).
  rewrite X in X'. inversion X'; subst w7'. clear X'.
  assert (Hfz : frozen (nextListeners w) w6).
  { split; [exact (proj1 (proj1 Hc))|right; reflexivity]. }
  destruct (unsubscribe_frozen _ _ _ _ _ Hfz X) as [_ F7].
  change (array_at w6 (nextListeners w)) with (array_at w (nextListeners w))
    in F7.
  change (array_at w6 (nextListeners w6))
    with (array_at w (nextListeners w)) in I1, I2, A7.
  rewrite Harr in I1, I2, A7, F7.
  rewrite X, run_ret.
  rewrite (notify_quiet env fenv REPLACE (S n) _ L2).
  - exists i. eexists. split; [reflexivity|].
    split; [exact I1|]. split; [exact I2|].
    split.
    { simpl. rewrite T7. simpl. rewrite <- !app_assoc. reflexivity. }
    split; [exact F7|]. split; [exact A7|]. split; [exact C7|].
    split; [exact St7|].
    change (nth_error (subscriptions w7) sid = Some (victim, false)).
    rewrite U7. apply nth_error_update_nth_eq.
    apply nth_error_Some. congruence.
  - rewrite F7. clear. induction L1 as [|h t IH]; simpl; [reflexivity|exact IH].
  - exact Hq2.
  - lia.
Qed.

(** ** Validation at composition time, with its calls *)

Local Abbreviation probe_calls := (probe_calls INIT PROBE_UNKNOWN_ACTION).
Local Abbreviation passes_from :=
  (passes_from fenv INIT PROBE_UNKNOWN_ACTION).

Lemma advance_advance k1 e1 k2 e2 w :
  advance k2 e2 (advance k1 e1 w) = advance (k1 + k2) (e1 ++ e2) w.
Proof.
  unfold advance. simpl. rewrite <- app_assoc, Nat.add_assoc. reflexivity.
Qed.

Lemma advance_zero w : advance 0 [] w = w.
Proof.
  unfold advance. rewrite Nat.add_0_r, app_nil_r. destruct w; reflexivity.
Qed.

Lemma new_object_advance w : set_addr (S (nextAddr w)) w = advance 1 [] w.
Proof.
  unfold advance, set_addr. rewrite Nat.add_1_r, app_nil_r. reflexivity.
Qed.

Lemma log_advance e w : log e w = advance 0 [e] w.
Proof. unfold advance, log. rewrite Nat.add_0_r. reflexivity. Qed.

Lemma call_raises n f args e w :
  raises fenv f args e ->
  call (runJ n) f args w = Some (Err e, log (EvCall f args) w).
Proof.
  intros (id & -> & Hb). simpl. rewrite Hb. apply run_throw.
Qed.

(** The part of the validation that runs over reducers that pass. *)
Lemma validation_prefix (C : Type) (g : option Error -> Prog C) :
  forall pre rest i n w,
    passes_from i pre ->
    run (4 * List.length pre + n)
      (bind
         (try_catch
            (bind (assertReducerShape_from i (pre ++ rest))
               (fun _ => Ret None))
            (fun e => Ret (Some e)))
         g) w
    = run n
        (bind
           (try_catch
              (bind (assertReducerShape_from (i + List.length pre) rest)
                 (fun _ => Ret None))
              (fun e => Ret (Some e)))
           g)
        (advance (2 * List.length pre) (probe_calls i (nextAddr w) pre) w).
Proof.
  induction pre as [|[k0 r0] pre IH]; intros rest i n w Hp.
  - simpl. rewrite Nat.add_0_r, advance_zero. reflexivity.
  - destruct Hp as [(v1 & v2 & H1 & Hd1 & H2 & Hd2) Hp].
    replace (4 * List.length ((k0, r0) :: pre) + n)
      with (S (S (S (S (4 * List.length pre + n))))) by (simpl; lia).
    simpl app. simpl Redux.assertReducerShape_from.
    rewrite run_guarded_perform, exec_new_object.
    rewrite run_guarded_perform, exec_call.
    erewrite call_returns by apply H1. rewrite Hd1.
    rewrite run_guarded_perform, exec_new_object.
    rewrite run_guarded_perform, exec_call.
    erewrite call_returns by apply H2. rewrite Hd2.
    rewrite IH by exact Hp.
    simpl List.length. rewrite (Nat.add_succ_r i). simpl Nat.add.
    f_equal.
    unfold advance, log, set_addr. simpl. f_equal; [lia|].
    rewrite <- !app_assoc. reflexivity.
Qed.

Lemma run_combination_sticky c e m state action w :
  rethrown c = Some e -> 0 < m ->
  run m (combination c state action) w
  = Some (Err e,
          if is_undefined state then set_addr (S (nextAddr w)) w else w).
Proof.
  intros Hc Hm. unfold Redux.combination.
  destruct (is_undefined state).
  - destruct m as [|m]; [lia|]. unfold perform. simpl bind.
    rewrite run_do, exec_new_object. rewrite Hc. apply run_throw.
  - simpl bind. rewrite Hc. apply run_throw.
Qed.

Lemma retained_no_proto :
  forall reducers, has_own "__proto__" (filter retained reducers) = false.
Proof.
  induction reducers as [|[k r] rs IH]; [reflexivity|].
  simpl. unfold retained at 1. simpl.
  destruct (is_function r); simpl; [|exact IH].
  destruct (String.eqb k "__proto__") eqn:E; simpl; [exact IH|].
  rewrite E. exact IH.
Qed.

Lemma retained_functions :
  forall reducers,
    Forall (fun kr => is_function (snd kr) = true) (filter retained reducers).
Proof.
  intros reducers. apply Forall_forall. intros kr Hin.
  apply filter_In in Hin. destruct Hin as [_ H].
  unfold retained in H. apply andb_prop in H. exact (proj1 H).
Qed.




(** ** The composite reducer, further *)

(** The loop over a run of reducers that return defined values. *)
Lemma run_combination_loop_prefix (A : Type) state action
    (f : bool * list (string * JsVal) -> Prog A) :
  is_nullish state = false ->
  forall pre vs,
    slice_results pre state action vs ->
    forall rest n hasChanged nextState w,
      run (List.length pre + n)
        (bind (combination_loop env (pre ++ rest) state action
                 hasChanged nextState) f) w
      = run n
          (bind (combination_loop env rest state action
                   (hasChanged || slice_changed env pre vs state)
                   (next_props pre vs nextState)) f)
          (log_events (reducer_calls env pre state action) w).
Proof.
  intros Hst pre vs H. induction H as [|[key r] v pre vs [Hr Hu] _ IH];
    intros rest n hc ns w.
  - simpl. rewrite orb_false_r, log_events_nil. reflexivity.
  - simpl app. simpl combination_loop. rewrite (get_prop_slice _ _ _ Hst).
    unfold perform. simpl bind.
    change (List.length ((key, r) :: pre) + n)
      with (S (List.length pre + n)).
    rewrite run_do, exec_call.
    simpl in Hr. rewrite (call_returns env fenv REPLACE _ _ _ _ _ Hr).
    rewrite Hu. rewrite IH. simpl.
    rewrite log_events_cons, orb_assoc. reflexivity.
Qed.


Lemma assign_fresh {A : Type} key (v : A) :
  forall ns, ~ In key (map fst ns) -> assign key v ns = ns ++ [(key, v)].
Proof.
  induction ns as [|[k x] t IH]; intros Hn; simpl; [reflexivity|].
  destruct (String.eqb k key) eqn:E.
  - apply String.eqb_eq in E. exfalso. apply Hn. left. exact E.
  - rewrite IH; [reflexivity|]. intros H. apply Hn. right. exact H.
Qed.

Lemma next_props_combine :
  forall rs vs ns,
    NoDup (map fst ns ++ map fst rs) ->
    List.length vs = List.length rs ->
    next_props rs vs ns = ns ++ combine (map fst rs) vs.
Proof.
  induction rs as [|[k r] rs IH]; intros vs ns Hd Hl.
  - simpl. rewrite app_nil_r. reflexivity.
  - destruct vs as [|v vs]; [discriminate|]. simpl.
    rewrite assign_fresh.
    + rewrite IH.
      * rewrite <- app_assoc. reflexivity.
      * rewrite map_app. simpl. rewrite <- app_assoc. exact Hd.
      * simpl in Hl. lia.
    + intros Hin. simpl in Hd. apply NoDup_remove_2 in Hd.
      apply Hd. apply in_or_app. left. exact Hin.
Qed.

Lemma slice_results_length rs state action vs :
  slice_results rs state action vs -> List.length vs = List.length rs.
Proof.
  intros H. induction H; simpl; [reflexivity|]. f_equal. assumption.
Qed.

Lemma has_own_combine_notin key :
  forall keys (vs : list JsVal),
    ~ In key keys -> has_own key (combine keys vs) = false.
Proof.
  induction keys as [|k keys IH]; intros vs Hn; [reflexivity|].
  destruct vs as [|v vs]; [reflexivity|]. simpl.
  destruct (String.eqb k key) eqn:E.
  - apply String.eqb_eq in E. exfalso. apply Hn. left. exact E.
  - apply IH. intros H. apply Hn. right. exact H.
Qed.

(** X16.  Whenever an ordinary composite returns a new object, that
    object has exactly the retained keys, in their order, each with its
    reducer's result: a key of the incoming state that no retained reducer
    addresses is not a property of the new object. *)
Theorem composite_keeps_only_retained_keys n c state action vs w :
  rethrown c = None ->
  ordinary env c ->
  NoDup (finalReducerKeys c) ->
  is_nullish state = false ->
  slice_results (finalReducers c) state action vs ->
  slice_changed env (finalReducers c) vs state
  || negb (Nat.eqb (List.length (finalReducerKeys c)) (key_count env state))
  = true ->
  run (S (List.length (finalReducers c) + n))
    (combination c state action) w
  = Some (Ok (VObj (nextAddr w) true (combine (finalReducerKeys c) vs)),
          log_events (reducer_calls env (finalReducers c) state action)
            (set_addr (S (nextAddr w)) w)) /\
  forall key,
    ~ In key (finalReducerKeys c) ->
    has_own key (combine (finalReducerKeys c) vs) = false.
Proof.
  intros Herr Hord Hd Hst Hs Hch. split.
  - rewrite (run_combination env fenv REPLACE n c state action vs w
               Herr Hord Hst Hs).
    rewrite Hch. rewrite next_props_combine.
    + reflexivity.
    + exact Hd.
    + eapply slice_results_length. exact Hs.
  - intros key Hn. apply has_own_combine_notin. exact Hn.
Qed.

(** X17.  Called with [undefined] as state (the first dispatch of a store
    without preloaded state), an ordinary composite takes the object
    [{}] it builds as default: every retained reducer receives what that
    object holds under its key, which is [undefined] unless the key names
    a member of the prototype of an object literal; with at least one
    reducer the composite returns a second object built in that call,
    with exactly the retained keys and the reducers' results. *)
Theorem composite_builds_the_initial_state n c action vs w :
  rethrown c = None ->
  ordinary env c ->
  NoDup (finalReducerKeys c) ->
  let default := VObj (nextAddr w) true [] in
  slice_results (finalReducers c) default action vs ->
  run (S (S (List.length (finalReducers c) + n)))
    (combination c VUndefined action) w
  = Some (Ok (match finalReducers c with
              | [] => default
              | _ :: _ =>
                  VObj (S (nextAddr w)) true
                    (combine (finalReducerKeys c) vs)
              end),
          log_events (reducer_calls env (finalReducers c) default action)
            (set_addr (S (S (nextAddr w))) w)) /\
  (forall key,
      slice env default key = inherited env (nextAddr w) key).
Proof.
  intros Herr Hord Hd default Hs. split; [|reflexivity].
  unfold Redux.combination at 1. simpl is_undefined. cbv iota.
  unfold perform at 1. simpl bind. rewrite run_do, exec_new_object.
  cbv beta iota. simpl bind. rewrite Herr. fold default.
  rewrite (no_warning_calls env c default Hord). simpl bind.
  unfold perform at 1. rewrite run_do, exec_new_object. cbv beta iota.
  rewrite (run_combination_loop env fenv REPLACE _ default _ _ eq_refl
             _ _ Hs).
  rewrite next_props_combine;
    [|exact Hd|eapply slice_results_length; exact Hs].
  simpl app. unfold finalReducerKeys.
  inversion Hs as [|[key r] v rs vs' [Hr Hu] Hrest Hrs Hvs].
  - simpl. rewrite run_ret. reflexivity.
  - destruct (false || slice_changed env ((key, r) :: rs) (v :: vs') default);
      simpl; rewrite run_ret; reflexivity.
Qed.

(** The calls of a reducer named [hasOwnProperty], when it returns. *)
Lemma run_hasOwnProperty_calls (A : Type) f (K : unit -> Prog A) :
  forall keys,
    Forall (fun key => exists v, returns f [VStr key] v) keys ->
    forall n w,
      run (List.length keys + n) (bind (hasOwnProperty_calls f keys) K) w
      = run n (K tt)
          (log_events (map (fun key => EvCall f [VStr key]) keys) w).
Proof.
  induction keys as [|key keys IH]; intros Hf n w.
  - simpl. rewrite log_events_nil. reflexivity.
  - inversion Hf as [|? ? [v Hv] Hrest]; subst.
    simpl hasOwnProperty_calls. unfold perform. simpl bind.
    change (List.length (key :: keys) + n)
      with (S (List.length keys + n)).
    rewrite run_do, exec_call.
    rewrite (call_returns env fenv REPLACE _ _ _ _ _ Hv).
    rewrite (IH Hrest). simpl map. rewrite log_events_cons. reflexivity.
Qed.

(** X27.  In the development build, a retained reducer named
    [hasOwnProperty] hides the method of [Object.prototype] that the shape
    warning calls on the reducers: on a plain object state, the composite
    then calls that reducer once per key of the state, with the key as its
    first argument and before the per-key loop; when these calls return,
    the loop follows as usual, and when the first of them throws, the
    composite throws that error without having called any reducer on a
    slice. *)
Theorem hasOwnProperty_reducer_is_called n c f addr props action w :
  rethrown c = None ->
  production env = false ->
  has_own "hasOwnProperty" (finalReducers c) = true ->
  f = lookup "hasOwnProperty" (finalReducers c) ->
  let state := VObj addr true props in
  let keys := map fst props in
  (forall vs,
      Forall (fun key => exists v, returns f [VStr key] v) keys ->
      slice_results (finalReducers c) state action vs ->
      exists result,
        run (List.length keys + S (List.length (finalReducers c) + n))
          (combination c state action) w
        = Some (Ok result,
                log_events
                  (map (fun key => EvCall f [VStr key]) keys
                   ++ reducer_calls env (finalReducers c) state action)
                  (set_addr (S (nextAddr w)) w))) /\
  (forall key rest e,
      keys = key :: rest ->
      raises fenv f [VStr key] e ->
      run (S n) (combination c state action) w
      = Some (Err e, log (EvCall f [VStr key]) w)).
Proof.
  intros Herr Hprod Hk Hf state keys.
  assert (Hlen : Nat.eqb (List.length (finalReducers c)) 0 = false).
  { destruct (finalReducers c); [discriminate Hk|reflexivity]. }
  assert (Hcalls :
    (if production env then Ret tt
     else shape_warning_calls (finalReducers c) state)
    = hasOwnProperty_calls f keys).
  { rewrite Hprod. unfold Redux.shape_warning_calls.
    rewrite Hlen, Hk, Hf. reflexivity. }
  split.
  - intros vs Hret Hs.
    exists (if slice_changed env (finalReducers c) vs state
               || negb (Nat.eqb (List.length (finalReducerKeys c))
                          (List.length props))
            then VObj (nextAddr w) true (next_props (finalReducers c) vs [])
            else state).
    unfold Redux.combination.
    simpl is_undefined. cbv iota. simpl bind. rewrite Herr, Hcalls.
    rewrite (run_hasOwnProperty_calls _ _ _ _ Hret).
    unfold perform. rewrite run_do. simpl exec. cbv beta iota.
    rewrite (run_combination_loop env fenv REPLACE _ state _ _ eq_refl
               _ _ Hs).
    unfold keys_length. simpl is_nullish. cbv iota. simpl own_keys.
    rewrite length_map. simpl nextAddr.
    assert (Hw : log_events (reducer_calls env (finalReducers c) state action)
                   (set_addr (S (nextAddr w))
                      (log_events
                         (map (fun key => EvCall f [VStr key]) keys) w))
                 = log_events
                     (map (fun key => EvCall f [VStr key]) keys
                      ++ reducer_calls env (finalReducers c) state action)
                     (set_addr (S (nextAddr w)) w)).
    { unfold log_events. simpl. rewrite <- app_assoc. reflexivity. }
    rewrite Hw.
    destruct (slice_changed env (finalReducers c) vs state);
      [|destruct (Nat.eqb (List.length (finalReducerKeys c))
                    (List.length props))];
      cbn [orb negb bind]; apply run_ret.
  - intros key rest e Hkeys Hr. unfold Redux.combination.
    simpl is_undefined. cbv iota. simpl bind. rewrite Herr, Hcalls, Hkeys.
    simpl hasOwnProperty_calls. unfold perform. simpl bind.
    rewrite run_do, exec_call. rewrite (call_raises _ _ _ _ _ Hr).
    apply run_throw.
Qed.

(** X18.  On [null] as state (a store preloaded with [null]), a composite
    without validation error raises a [TypeError] before it calls any
    reducer. *)
Theorem composite_on_null_raises_type_error n c action w :
  shapeAssertionError c = None ->
  run (S n) (combination c VNull action) w
  = Some (Err ErrTypeError, set_addr (S (nextAddr w)) w).
Proof.
  intros Herr. unfold Redux.combination. simpl bind.
  unfold rethrown. rewrite Herr.
  assert (Hw : (if production env then Ret tt
                else shape_warning_calls (finalReducers c) VNull) = Ret tt).
  { destruct (production env); [reflexivity|].
    unfold Redux.shape_warning_calls.
    destruct (Nat.eqb _ 0); reflexivity. }
  rewrite Hw. simpl bind.
  unfold perform at 1. rewrite run_do, exec_new_object. cbv beta iota.
  destruct (finalReducers c) as [|[key r] rs]; simpl; apply run_throw.
Qed.

(** ** The shape warning *)

Lemma has_key_In key keys : has_key key keys = true <-> In key keys.
Proof.
  unfold has_key. rewrite existsb_exists. split.
  - intros (x & Hx & He). apply String.eqb_eq in He. subst. exact Hx.
  - intros H. exists key. split; [exact H|apply String.eqb_refl].
Qed.

Lemma has_key_app key a b :
  has_key key (a ++ b) = has_key key a || has_key key b.
Proof. unfold has_key. apply existsb_app. Qed.

Lemma filter_nil_iff {A : Type} (f : A -> bool) (l : list A) :
  filter f l = [] <-> forall x, In x l -> f x = false.
Proof.
  induction l as [|h t IH]; simpl.
  - split; [intros _ x []|reflexivity].
  - destruct (f h) eqn:E.
    + split; [discriminate|]. intros H. specialize (H h (or_introl eq_refl)).
      congruence.
    + rewrite IH. split.
      * intros H x [<-|Hx]; [exact E|apply H; exact Hx].
      * intros H x Hx. apply H. right. exact Hx.
Qed.

Lemma unexpected_keys_pure reducers addr cache :
  has_own "hasOwnProperty" reducers = false ->
  forall keys,
    unexpected_keys env reducers addr cache keys
    = Ret (filter (unexpected env reducers addr cache) keys).
Proof.
  intros Hk. induction keys as [|key keys IH]; [reflexivity|].
  simpl unexpected_keys. unfold hasOwnProperty. rewrite Hk. simpl bind.
  rewrite IH. simpl bind. simpl filter.
  destruct (unexpected env reducers addr cache key) eqn:E;
    unfold unexpected in E; rewrite E; reflexivity.
Qed.

(** The function on a plain state, without a reducer named
    [hasOwnProperty]. *)
Lemma shape_warning_plain class_name state reducers action addr cache n w :
  reducers <> [] ->
  has_own "hasOwnProperty" reducers = false ->
  isPlainObject state = true ->
  exists message,
    run n
      (getUnexpectedStateShapeWarningMessage env INIT REPLACE class_name
         state reducers action addr cache) w
    = Some (Ok (message,
                cache_add cache
                  (filter (unexpected env reducers addr cache)
                     (own_keys env state))), w) /\
    (action_has_type env action REPLACE = true -> message = None) /\
    (action_has_type env action REPLACE = false ->
     (message = None <->
      filter (unexpected env reducers addr cache) (own_keys env state) = [])).
Proof.
  intros Hne Hk Hp.
  assert (Hlen : Nat.eqb (List.length (map fst reducers)) 0 = false).
  { destruct reducers; [contradiction|reflexivity]. }
  unfold getUnexpectedStateShapeWarningMessage.
  rewrite Hlen, Hp. simpl negb. cbv iota.
  rewrite (unexpected_keys_pure _ _ _ Hk). simpl bind.
  set (found := filter (unexpected env reducers addr cache)
                  (own_keys env state)).
  destruct (action_has_type env action REPLACE).
  - exists None. rewrite run_ret. split; [reflexivity|].
    split; [reflexivity|discriminate].
  - destruct found as [|k rest] eqn:E.
    + exists None. simpl. rewrite run_ret. split; [reflexivity|].
      split; [discriminate|]. intros _. split; reflexivity.
    + change (Nat.ltb 0 (List.length (k :: rest))) with true. cbv iota.
      eexists. rewrite run_ret.
      split; [reflexivity|]. split; [discriminate|].
      intros _. split; discriminate.
Qed.

(** Running a sequence does not depend on how it is bracketed. *)
Lemma run_bind_assoc (A B C : Type) (p : Prog A) (f : A -> Prog B)
    (g : B -> Prog C) :
  forall n w,
    run n (bind (bind p f) g) w = run n (bind p (fun x => bind (f x) g)) w.
Proof.
  induction p as [a|e|c k IH]; intros n w; try reflexivity.
  simpl bind. destruct n as [|n]; [reflexivity|]. rewrite !run_do.
  destruct (exec (runJ n) n c w) as [[r w1]|]; [|reflexivity].
  apply IH.
Qed.

Lemma hasOwnProperty_calls_spec reducers addr cache :
  has_own "hasOwnProperty" reducers = true ->
  forall keys (K : list string -> Prog unit),
    (forall found, K found = Ret tt) ->
    forall n w,
      run n (bind (unexpected_keys env reducers addr cache keys) K) w
      = run n
          (hasOwnProperty_calls (lookup "hasOwnProperty" reducers) keys) w.
Proof.
  intros Hk. induction keys as [|key keys IH]; intros K HK n w.
  - simpl. rewrite HK. reflexivity.
  - simpl unexpected_keys. unfold hasOwnProperty. rewrite Hk.
    simpl hasOwnProperty_calls. unfold perform. simpl bind.
    destruct n as [|n]; [reflexivity|]. rewrite !run_do.
    destruct (exec (runJ n) n _ w) as [[[v|e] w1]|]; try reflexivity.
    simpl bind. rewrite run_bind_assoc. apply IH.
    intros found. simpl. apply HK.
Qed.

(** What [combination] runs in the development build is what a call of
    [getUnexpectedStateShapeWarningMessage] does to the store, whatever
    the action and the cache. *)
Lemma shape_warning_calls_spec class_name state reducers action addr cache :
  forall n w,
    run n
      (bind
         (getUnexpectedStateShapeWarningMessage env INIT REPLACE class_name
            state reducers action addr cache)
         (fun _ => Ret tt)) w
    = run n (shape_warning_calls reducers state) w.
Proof.
  intros n w.
  unfold getUnexpectedStateShapeWarningMessage, Redux.shape_warning_calls.
  rewrite length_map.
  destruct (Nat.eqb (List.length reducers) 0); [reflexivity|].
  destruct (negb (isPlainObject state)); [reflexivity|].
  destruct (has_own "hasOwnProperty" reducers) eqn:Hk.
  - rewrite run_bind_assoc. apply hasOwnProperty_calls_spec; [exact Hk|].
    intros found.
    destruct (action_has_type env action REPLACE); [reflexivity|].
    destruct (Nat.ltb 0 (List.length found)); reflexivity.
  - rewrite (unexpected_keys_pure _ _ _ Hk). simpl bind.
    destruct (action_has_type env action REPLACE); [reflexivity|].
    destruct (Nat.ltb 0 (List.length _)); reflexivity.
Qed.

(** X19.  The shape warning is given once.  For a plain state and
    reducers none of which is named [hasOwnProperty] (so that the test
    [reducers.hasOwnProperty(key)] calls nobody): after one call (with any
    action, [REPLACE] included, for which the call is silent but still
    records the unknown keys), every later call for the same state and
    reducers, with any action, returns no message and leaves the cache as
    it is.  A key [__proto__] of the state is never recorded; it is
    assumed to be read as truthy in the cache, as it is where
    [Object.prototype] has its accessor. *)
Theorem shape_warning_is_given_once class_name
    state reducers action action' addr cache n n' w w' :
  reducers <> [] ->
  has_own "hasOwnProperty" reducers = false ->
  isPlainObject state = true ->
  (In "__proto__" (own_keys env state) ->
   truthy (inherited env addr "__proto__") = true) ->
  exists message cache',
    run n
      (getUnexpectedStateShapeWarningMessage env INIT REPLACE class_name
         state reducers action addr cache) w
    = Some (Ok (message, cache'), w) /\
    run n'
      (getUnexpectedStateShapeWarningMessage env INIT REPLACE class_name
         state reducers action' addr cache') w'
    = Some (Ok (None, cache'), w') /\
    (action_has_type env action REPLACE = true -> message = None).
Proof.
  intros Hne Hk Hp Hproto.
  destruct (shape_warning_plain class_name state reducers action addr cache
              n w Hne Hk Hp) as (message & H1 & H2 & _).
  set (found := filter (unexpected env reducers addr cache)
                  (own_keys env state)) in *.
  set (cache' := cache_add cache found) in *.
  assert (Hnone : filter (unexpected env reducers addr cache')
                    (own_keys env state) = []).
  { apply filter_nil_iff. intros key Hin. unfold unexpected.
    destruct (has_own key reducers) eqn:E1; [reflexivity|].
    simpl. apply negb_false_iff. unfold cached, cache', cache_add.
    rewrite has_key_app.
    destruct (has_key key cache) eqn:E2; [reflexivity|].
    destruct (truthy (inherited env addr key)) eqn:E3;
      [apply orb_true_r|].
    assert (Hu : In key found).
    { unfold found. apply filter_In. split; [exact Hin|].
      unfold unexpected, cached. rewrite E1, E2, E3. reflexivity. }
    assert (Hk' : String.eqb key "__proto__" = false).
    { destruct (String.eqb key "__proto__") eqn:E; [|reflexivity].
      apply String.eqb_eq in E. subst key.
      rewrite (Hproto Hin) in E3. discriminate. }
    assert (Hin' : In key (filter (fun key => negb (String.eqb key "__proto__"))
                             found)).
    { apply filter_In. split; [exact Hu|]. rewrite Hk'. reflexivity. }
    apply has_key_In in Hin'. rewrite Hin'. reflexivity. }
  destruct (shape_warning_plain class_name state reducers action' addr cache'
              n' w' Hne Hk Hp) as (message' & H1' & H2' & H3').
  rewrite Hnone in H1', H3'.
  assert (Hsame : cache_add cache' [] = cache')
    by (unfold cache_add; simpl; apply app_nil_r).
  rewrite Hsame in H1'.
  assert (Hm : message' = None).
  { destruct (action_has_type env action' REPLACE) eqn:E.
    - apply H2'. reflexivity.
    - apply (H3' eq_refl). reflexivity. }
  subst message'.
  exists message, cache'. split; [exact H1|]. split; [exact H1'|exact H2].
Qed.

(** X20.  For a plain state, reducers none of which is named
    [hasOwnProperty] and an action other than [REPLACE], the shape warning
    is silent exactly when every key of the state is a reducer key or is
    read as truthy in the cache, as a key recorded earlier is, and as a
    key that names a member of the prototype of the cache is
    ([constructor], [toString]); and the cache only grows. *)
Theorem shape_warning_is_silent_iff_keys_known class_name
    state reducers action addr cache n w :
  reducers <> [] ->
  has_own "hasOwnProperty" reducers = false ->
  isPlainObject state = true ->
  action_has_type env action REPLACE = false ->
  exists message cache',
    run n
      (getUnexpectedStateShapeWarningMessage env INIT REPLACE class_name
         state reducers action addr cache) w
    = Some (Ok (message, cache'), w) /\
    (message = None <->
     forall key, In key (own_keys env state) ->
                 has_own key reducers = true \/
                 In key cache \/
                 truthy (inherited env addr key) = true) /\
    (forall key, In key cache -> In key cache').
Proof.
  intros Hne Hk Hp Hr.
  destruct (shape_warning_plain class_name state reducers action addr cache
              n w Hne Hk Hp) as (message & H1 & _ & H3).
  specialize (H3 Hr).
  eexists. eexists. split; [exact H1|]. split.
  - rewrite H3, filter_nil_iff. split.
    + intros H key Hin. specialize (H key Hin). unfold unexpected in H.
      destruct (has_own key reducers); [left; reflexivity|].
      simpl in H. apply negb_false_iff in H. unfold cached in H.
      apply orb_prop in H. destruct H as [H|H].
      * right. left. apply has_key_In. exact H.
      * right. right. exact H.
    + intros H key Hin. unfold unexpected, cached.
      destruct (H key Hin) as [H1'|[H1'|H1']].
      * rewrite H1'. reflexivity.
      * apply has_key_In in H1'. rewrite H1'. apply andb_false_r.
      * rewrite H1', orb_true_r. apply andb_false_r.
  - intros key Hin. unfold cache_add. apply in_or_app. left. exact Hin.
Qed.

(** ** Bound action creators *)

Lemma In_assign {A : Type} key (v : A) :
  forall ns x, In x (assign key v ns) -> x = (key, v) \/ In x ns.
Proof.
  induction ns as [|[k y] t IH]; simpl; intros x H.
  - destruct H as [H|[]]. left. symmetry. exact H.
  - destruct (String.eqb k key) eqn:E.
    + apply String.eqb_eq in E. subst k.
      destruct H as [H|H]; [left; symmetry; exact H|right; right; exact H].
    + destruct H as [H|H]; [right; left; exact H|].
      destruct (IH x H) as [H'|H']; [left; exact H'|right; right; exact H'].
Qed.

Lemma bind_entries_sound ac d :
  is_nullish ac = false ->
  forall keys bound key b,
    In (key, b) (bind_entries env ac keys d bound) ->
    In (key, b) bound \/
    (In key keys /\ bindable env ac key = true /\
     b = bindActionCreator (slice env ac key) d).
Proof.
  intros Hac. induction keys as [|k keys IH]; intros bound key b H.
  - left. exact H.
  - simpl in H. rewrite (get_prop_slice _ _ _ Hac) in H.
    apply IH in H. destruct H as [H|(H1 & H2 & H3)].
    + fold (bindable env ac k) in H. destruct (bindable env ac k) eqn:E.
      * apply In_assign in H. destruct H as [H|H]; [|left; exact H].
        inversion H; subst. right. split; [left; reflexivity|].
        split; [exact E|reflexivity].
      * left. exact H.
    + right. split; [right; exact H1|]. split; assumption.
Qed.

Lemma bind_entries_distinct ac d :
  is_nullish ac = false ->
  forall keys bound,
    NoDup keys ->
    (forall key, In key (map fst bound) -> ~ In key keys) ->
    bind_entries env ac keys d bound
    = bound
        ++ map (fun key => (key, bindActionCreator (slice env ac key) d))
             (filter (bindable env ac) keys).
Proof.
  intros Hac. induction keys as [|k keys IH]; intros bound Hd Hb.
  - simpl. rewrite app_nil_r. reflexivity.
  - inversion Hd as [|? ? Hk Hd']; subst.
    simpl bind_entries. rewrite (get_prop_slice _ _ _ Hac).
    fold (bindable env ac k). simpl filter.
    destruct (bindable env ac k) eqn:E.
    + rewrite assign_fresh.
      * rewrite IH; [simpl; rewrite <- app_assoc; reflexivity|exact Hd'|].
        intros key Hin Hin'. rewrite map_app in Hin.
        apply in_app_or in Hin. destruct Hin as [Hin|[<-|[]]].
        -- apply (Hb key Hin). right. exact Hin'.
        -- apply Hk. exact Hin'.
      * intros Hin. apply (Hb k Hin). left. reflexivity.
    + apply IH; [exact Hd'|].
      intros key Hin Hin'. apply (Hb key Hin). right. exact Hin'.
Qed.


(** X22.  A bound action creator called on an idle store first calls its
    action creator with the arguments, then dispatches what it returned:
    when that is a well-formed action, the store's reducer and listeners
    run as in a dispatch and the call returns the action; when it is not a
    plain object (a function, for instance), the call raises
    [ErrActionNotPlain] and the store keeps its state and calls no
    reducer. *)
Theorem bound_creator_dispatches_what_it_creates n f args v w :
  isDispatching w = false ->
  returns f args v ->
  let b := bindActionCreator f StoreDispatch in
  (forall s,
      well_formed env v = true ->
      returns (currentReducer w) [currentState w; v] s ->
      Forall quiet (array_at w (nextListeners w)) ->
      List.length (array_at w (nextListeners w)) < n ->
      run (S (S n)) (call_bound b args) w
      = Some (Ok v,
              after_dispatch (log (EvCall f args) w) v s
                (array_at w (nextListeners w)))) /\
  (isPlainObject v = false ->
   run (S (S n)) (call_bound b args) w
   = Some (Err ErrActionNotPlain, log (EvCall f args) w)).
Proof.
  intros Hi Hf b. split.
  - intros s Hv Hr Hq Hn.
    unfold call_bound, b. simpl actionCreator. simpl boundDispatch.
    unfold perform at 1. rewrite run_do, exec_call.
    rewrite (call_returns env fenv REPLACE _ _ _ _ _ Hf).
    unfold perform. rewrite run_do.
    change (exec (runJ n) n (ODispatch v) (log (EvCall f args) w))
      with (dispatch (runJ n) n v (log (EvCall f args) w)).
    rewrite (dispatch_quiet env fenv REPLACE n n (log (EvCall f args) w) v s);
      try assumption.
    apply run_ret.
  - intros Hp.
    unfold call_bound, b. simpl actionCreator. simpl boundDispatch.
    unfold perform at 1. rewrite run_do, exec_call.
    rewrite (call_returns env fenv REPLACE _ _ _ _ _ Hf).
    unfold perform. rewrite run_do.
    change (exec (runJ n) n (ODispatch v) (log (EvCall f args) w))
      with (dispatch (runJ n) n v (log (EvCall f args) w)).
    unfold Redux.dispatch. rewrite Hp. simpl. apply run_throw.
Qed.

(** ** The observable adapter *)

Lemma exec_getState rec n w : exec rec n OGetState w = Some (getState w).
Proof. reflexivity. Qed.

Lemma run_observeState n observer next v w :
  get_prop env observer "next" = Ok next ->
  truthy next = true ->
  isDispatching w = false ->
  returns next [currentState w] v ->
  run (S (S n)) (observeState env observer) w
  = Some (Ok VUndefined, log (EvCall next [currentState w]) w).
Proof.
  intros Hn Ht Hi Hr. unfold observeState. rewrite Hn, Ht.
  unfold perform at 1. rewrite run_do, exec_getState.
  unfold getState. rewrite Hi.
  unfold perform. rewrite run_do, exec_call.
  rewrite (call_returns env fenv REPLACE _ _ _ _ _ Hr). apply run_ret.
Qed.

(** X23.  Subscribing an observer whose [next] is a function, on an idle
    store: [next] is called once at once with the current state, the
    closure is subscribed after the listeners that were there, and the
    method returns an object that holds its [unsubscribe]; at the next
    dispatch, the closure is called after those listeners and calls
    [next] with the new state. *)
Theorem observer_receives_every_state
    n m w lid observer next a s :
  isDispatching w = false ->
  valid_refs w ->
  typeof observer = "object" -> observer <> VNull ->
  get_prop env observer "next" = Ok next ->
  truthy next = true ->
  (forall st, exists v, returns next [st] v) ->
  fenv lid [] = observeState env observer ->
  well_formed env a = true ->
  returns (currentReducer w) [currentState w; a] s ->
  Forall quiet (array_at w (nextListeners w)) ->
  List.length (array_at w (nextListeners w)) + 1 < m ->
  exists w1 w2,
    run (S (S (S (S n)))) (observable_subscribe env (VFun lid) observer) w
    = Some (Ok (VObj (nextAddr w) true
                  [("unsubscribe",
                    VUnsub (List.length (subscriptions w)))]), w1) /\
    trace w1 = trace w ++ [EvCall next [currentState w]] /\
    array_at w1 (nextListeners w1)
    = array_at w (nextListeners w) ++ [VFun lid] /\
    dispatch (runJ (S (S n))) m a w1 = Some (Ok a, w2) /\
    currentState w2 = s /\
    trace w2
    = trace w1 ++ EvCall (currentReducer w) [currentState w; a]
        :: map (fun l => EvCall l []) (array_at w (nextListeners w))
        ++ [EvCall (VFun lid) []; EvCall next [s]].
Proof.
  intros Hi Hv Hty Hnn Hnext Ht Hret Hbody Ha Hr Hq Hm.
  set (L := array_at w (nextListeners w)) in *.
  destruct (Hret (currentState w)) as [v0 Hv0].
  set (w0 := log (EvCall next [currentState w]) w).
  assert (Hv0' : valid_refs w0) by exact Hv.
  destruct (subscribe_spec (VFun lid) w0 Hi eq_refl Hv0')
    as (w1 & S1 & A1 & _ & V1 & _ & _ & U1 & R1 & St1 & I1 & N1 & T1).
  assert (Hsub :
    run (S (S (S (S n)))) (observable_subscribe env (VFun lid) observer) w
    = Some (Ok (VObj (nextAddr w) true
                  [("unsubscribe", VUnsub (List.length (subscriptions w)))]),
            set_addr (S (nextAddr w1)) w1)).
  { unfold observable_subscribe. rewrite Hty. simpl negb.
    assert (Hnull : strict_eq observer VNull = false)
      by (destruct observer; try reflexivity; contradiction).
    rewrite Hnull. simpl orb. cbv iota.
    unfold observeState. rewrite Hnext, Ht.
    unfold perform at 1. simpl bind. rewrite run_do, exec_getState.
    unfold getState. rewrite Hi. cbv beta iota.
    unfold perform at 1. simpl bind. rewrite run_do, exec_call.
    rewrite (call_returns env fenv REPLACE _ _ _ _ _ Hv0). cbv beta iota.
    simpl bind. unfold perform at 1. rewrite run_do, exec_subscribe.
    fold w0. rewrite S1. cbv beta iota.
    unfold perform. rewrite run_do, exec_new_object. rewrite N1.
    apply run_ret. }
  set (w1' := set_addr (S (nextAddr w1)) w1) in *.
  (* the dispatch *)
  destruct (Hret s) as [v1 Hv1].
  assert (Hd :
    dispatch (runJ (S (S n))) m a w1'
    = Some (Ok a,
            log (EvCall next [s])
              (log (EvCall (VFun lid) [])
                 (log_calls L
                    (set_current (Some (nextListeners w1'))
                       (set_dispatching false
                          (set_state s
                             (log (EvCall (currentReducer w1')
                                     [currentState w1'; a])
                                (set_dispatching true w1'))))))))).
  { rewrite dispatch_guards; [|exact Ha|exact I1].
    unfold Redux.dispatch_body.
    assert (Hr' : returns (currentReducer w1') [currentState w1'; a] s).
    { change (currentReducer w1') with (currentReducer w1).
      change (currentState w1') with (currentState w1).
      rewrite R1, St1. exact Hr. }
    rewrite (call_returns env fenv REPLACE _ _ _ s) by exact Hr'.
    simpl nextListeners.
    set (w4 := set_current _ _).
    assert (Harr4 : array_at w4 (nextListeners w1) = L ++ [VFun lid])
      by exact A1.
    destruct m as [|m]; [lia|].
    replace (S m) with (List.length L + (S (m - List.length L))) by lia.
    rewrite (notify_quiet_prefix env fenv REPLACE (S (S n)) _ L [VFun lid]);
      [|exact Harr4|exact Hq].
    assert (Hnth : nth_error (array_at (log_calls L w4) (nextListeners w1))
                     (List.length L) = Some (VFun lid)).
    { change (array_at (log_calls L w4) (nextListeners w1))
        with (array_at w1 (nextListeners w1)).
      rewrite A1.
      change (array_at w0 (nextListeners w0)) with L.
      rewrite nth_error_app2, Nat.sub_diag by lia. reflexivity. }
    simpl Nat.add. rewrite notify_S, Hnth.
    unfold Redux.call. rewrite Hbody.
    rewrite (run_observeState n observer next v1); try assumption;
      [|reflexivity].
    destruct (m - List.length L) as [|k] eqn:Hk; [lia|].
    rewrite notify_S.
    match goal with
    | |- context [nth_error (array_at ?W ?r) (S (List.length L))] =>
        assert (Hend : nth_error (array_at W r) (S (List.length L)) = None)
    end.
    { change (array_at _ (nextListeners w1))
        with (array_at w1 (nextListeners w1)).
      rewrite A1. change (array_at w0 (nextListeners w0)) with L.
      apply nth_error_None. rewrite length_app. simpl. lia. }
    rewrite Hend. reflexivity. }
  exists w1'. eexists. split; [exact Hsub|].
  split; [exact T1|]. split; [exact A1|].
  split; [exact Hd|]. split; [reflexivity|].
  simpl. change (currentReducer w1) with (currentReducer w1).
  rewrite R1, St1. simpl.
  unfold L. rewrite <- !app_assoc. reflexivity.
Qed.

(** X24.  What [observable().subscribe] does not do: an observer that is
    not an object, or is [null], is refused with a [TypeError] before
    anything else happens; while a dispatch is in progress the method
    fails with a [ReentrancyError], raised by [getState] when
    [observer.next] (an own property or a method of the prototype) is
    truthy and by [subscribe] when it is falsy, and nothing is
    subscribed; an observer whose [next] is falsy is subscribed on an idle
    store without any call, and its closure does nothing when
    notified. *)
Theorem observable_subscribe_edge_cases n lid observer w :
  (typeof observer <> "object" \/ observer = VNull ->
   run n (observable_subscribe env (VFun lid) observer) w
   = Some (Err ErrTypeError, w)) /\
  (forall next,
      typeof observer = "object" -> observer <> VNull ->
      get_prop env observer "next" = Ok next ->
      (isDispatching w = true -> truthy next = true ->
       run (S n) (observable_subscribe env (VFun lid) observer) w
       = Some (Err ErrGetStateWhileDispatching, w)) /\
      (isDispatching w = true -> truthy next = false ->
       run (S n) (observable_subscribe env (VFun lid) observer) w
       = Some (Err ErrSubscribeWhileDispatching, w)) /\
      (isDispatching w = false -> truthy next = false -> valid_refs w ->
       fenv lid [] = observeState env observer ->
       quiet (VFun lid) /\
       exists w1,
         run (S (S n)) (observable_subscribe env (VFun lid) observer) w
         = Some (Ok (VObj (nextAddr w) true
                       [("unsubscribe",
                         VUnsub (List.length (subscriptions w)))]), w1) /\
         trace w1 = trace w /\
         array_at w1 (nextListeners w1)
         = array_at w (nextListeners w) ++ [VFun lid])).
Proof.
  split.
  - intros H. unfold observable_subscribe.
    assert (Hc : negb (String.eqb (typeof observer) "object")
                 || strict_eq observer VNull = true).
    { destruct H as [H| ->]; [|reflexivity].
      destruct (String.eqb (typeof observer) "object") eqn:E; [|reflexivity].
      apply String.eqb_eq in E. contradiction. }
    rewrite Hc. apply run_throw.
  - intros next Hty Hnn Hnext.
    assert (Hhead :
               observable_subscribe env (VFun lid) observer
               = bind (observeState env observer)
                   (fun _ =>
                      unsubscribe <- OSubscribe (VFun lid) ;;
                      perform (ONewObject true [("unsubscribe", unsubscribe)])
                        Ret)).
    { unfold observable_subscribe. rewrite Hty.
      assert (Hnull : strict_eq observer VNull = false)
        by (destruct observer; try reflexivity; contradiction).
      rewrite Hnull. reflexivity. }
    rewrite Hhead. unfold observeState. rewrite Hnext.
    split; [|split].
    + intros Hb Ht. rewrite Ht. unfold perform at 1. simpl bind.
      rewrite run_do, exec_getState. unfold getState. rewrite Hb.
      apply run_throw.
    + intros Hb Ht. rewrite Ht. simpl bind. unfold perform at 1.
      rewrite run_do, exec_subscribe. unfold subscribe. simpl. rewrite Hb.
      apply run_throw.
    + intros Hi Ht Hv Hbody. split.
      { exists VUndefined, lid. split; [reflexivity|].
        rewrite Hbody, Ht. reflexivity. }
      destruct (subscribe_spec (VFun lid) w Hi eq_refl Hv)
        as (w1 & S1 & A1 & _ & _ & _ & _ & _ & _ & _ & _ & N1 & T1).
      exists (set_addr (S (nextAddr w1)) w1).
      split; [|split; [exact T1|exact A1]].
      rewrite Ht. simpl bind. unfold perform at 1.
      rewrite run_do, exec_subscribe, S1. cbv beta iota.
      unfold perform. rewrite run_do, exec_new_object, N1. apply run_ret.
Qed.

(** ** Dispatch and construction, further *)


(** X26.  A store cannot be built on a composite that rethrows what its
    validation captured (one of the two validation errors, or any truthy
    value that a reducer threw): the seeding dispatch of [createStore]
    calls the composite, which raises the captured error, and
    [createStore] raises it, for the two validation errors in
    particular. *)
Theorem createStore_surfaces_the_validation_error
    n cid c e preloadedState arg3 addr :
  fenv cid = composite_body c ->
  shapeAssertionError c = Some e ->
  error_truthy e = true ->
  is_function preloadedState = false ->
  exists w',
    createStore (S n) (VFun cid) preloadedState VUndefined arg3 addr
    = Some (Err e, w') /\
    currentState w' = preloadedState /\
    isDispatching w' = false.
Proof.
  intros Hbody Hc Ht Hp. rewrite createStore_plain by exact Hp.
  assert (Hre : rethrown c = Some e)
    by (unfold rethrown; rewrite Hc, Ht; reflexivity).
  simpl is_function. simpl negb. cbv iota.
  rewrite dispatch_guards; [|reflexivity|reflexivity].
  unfold Redux.dispatch_body.
  change (currentReducer
            (set_dispatching true
               (set_addr (S addr) (initial (VFun cid) preloadedState addr))))
    with (VFun cid).
  change (currentState
            (set_dispatching true
               (set_addr (S addr) (initial (VFun cid) preloadedState addr))))
    with preloadedState.
  unfold Redux.call. rewrite Hbody. unfold Redux.composite_body. simpl nth.
  rewrite (run_combination_sticky c e (S n)); [|exact Hre|lia].
  eexists. split; [reflexivity|].
  destruct (is_undefined preloadedState); split; reflexivity.
Qed.

End MoreProperties.

(** ** The further properties at concrete inputs *)

Lemma snapshot_is_never_written_witness :
  let w := initial (VFun 0) (VNum 0) 0 in
  let w' :=
    mkWorld (VFun 0) (VNum 0) (Some 0) 1 false [[]; [VFun 1]]
      [(VFun 1, true)] 0 [] in
  run demo_env more_fenv demo_REPLACE 1 (perform (OSubscribe (VFun 1)) Ret) w
  = Some (Ok (VUnsub 0), w') /\
  array_at w' 0 = array_at w 0.
Proof.
  intros w w'. split; [reflexivity|].
  apply (snapshot_is_never_written demo_env more_fenv demo_REPLACE 1 JsVal
           (perform (OSubscribe (VFun 1)) Ret) 0 w (Ok (VUnsub 0)) w').
  - simpl. lia.
  - left. reflexivity.
  - reflexivity.
Defined.

Lemma store_stays_consistent_witness :
  exists w0,
    createStore demo_env more_fenv demo_INIT demo_REPLACE demo_enhancer 1
      (VFun 0) VUndefined VUndefined VUndefined 0 = Some (Ok VStore, w0) /\
    consistent w0.
Proof.
  eexists. split; [reflexivity|].
  apply (proj1 (store_stays_consistent demo_env more_fenv demo_INIT demo_REPLACE
                  demo_enhancer)
           1 (VFun 0) VUndefined VUndefined 0 (Ok VStore) _ eq_refl eq_refl).
Defined.

Lemma unsubscribe_removes_only_its_listener_witness :
  let w :=
    mkWorld (VFun 0) (VNum 0) (Some 0) 0 false [[VFun 1; VFun 7]]
      [(VFun 1, true); (VFun 7, true)] 0 [] in
  exists w',
    unsubscribe 1 w = (Ok VUndefined, w') /\
    array_at w' (nextListeners w') = [VFun 1].
Proof.
  intros w.
  destruct (unsubscribe_removes_only_its_listener 1 (VFun 7) w)
    as (i & w' & H1 & _ & H3 & H4 & _).
  - split; [split; simpl; lia|]. split; [repeat constructor|].
    intros l. destruct l; try reflexivity; simpl;
      destruct id as [|[|[|[|[|[|[|[|]]]]]]]]; reflexivity.
  - reflexivity.
  - reflexivity.
  - exists w'. split; [exact H3|]. rewrite H4.
    assert (i = 1) as -> by (simpl in H1; congruence). reflexivity.
Defined.

Lemma flag_is_down_after_any_run_witness :
  let w := initial (VFun 2) (VNum 5) 0 in
  exists w',
    run demo_env more_fenv demo_REPLACE 2
      (perform (ODispatch (demo_action 0 "X")) Ret) w
    = Some (Err (ErrUser 7), w') /\
    isDispatching w' = false.
Proof.
  intros w. eexists. split; [reflexivity|].
  eapply (flag_is_down_after_any_run demo_env more_fenv demo_REPLACE 2 JsVal
            (perform (ODispatch (demo_action 0 "X")) Ret) w);
    reflexivity.
Defined.

Lemma store_is_closed_while_dispatching_witness :
  let w := set_dispatching true (initial (VFun 0) (VNum 5) 0) in
  exists w',
    run demo_env more_fenv demo_REPLACE 2
      (Do (OReplaceReducer (VFun 2)) (fun _ => Ret VUndefined)) w
    = Some (Ok VUndefined, w') /\
    currentReducer w' = VFun 2 /\
    same_store w w'.
Proof.
  intros w. eexists. split; [reflexivity|]. split; [reflexivity|].
  eapply (store_is_closed_while_dispatching demo_env more_fenv demo_REPLACE 2 JsVal
            (Do (OReplaceReducer (VFun 2)) (fun _ => Ret VUndefined)) w);
    reflexivity.
Defined.

Lemma unsubscribe_twice_is_a_no_op_witness :
  let w :=
    mkWorld (VFun 0) (VNum 0) (Some 0) 0 false [[VFun 1]]
      [(VFun 1, true)] 0 [] in
  exists w1,
    unsubscribe 0 w = (Ok VUndefined, w1) /\
    unsubscribe 0 w1 = (Ok VUndefined, w1).
Proof.
  intros w.
  destruct (unsubscribe_twice_is_a_no_op demo_env more_fenv demo_REPLACE 0 (VFun 1) w)
    as (w1 & H1 & H2 & _).
  - reflexivity.
  - split; simpl; lia.
  - reflexivity.
  - exists w1. split; assumption.
Defined.

Lemma argument_errors_leave_the_store_untouched_witness :
  let w := initial (VFun 0) (VNum 5) 0 in
  replaceReducer demo_env more_fenv demo_REPLACE (demo_run 1) 1 (VNum 3) w
  = Some (Err ErrNextReducerNotFunction, w).
Proof.
  intros w.
  apply (proj1 (proj2 (proj2 (proj2
           (argument_errors_leave_the_store_untouched demo_env more_fenv demo_REPLACE
              (demo_run 1) 1 w))))).
  reflexivity.
Defined.

Lemma createStore_argument_checks_witness :
  exists w,
    createStore demo_env more_fenv demo_INIT demo_REPLACE demo_enhancer 1
      (VNum 1) VUndefined (VNum 2) VUndefined 0
    = Some (Err ErrEnhancerNotFunction, w) /\ trace w = [].
Proof.
  apply (proj1 (createStore_argument_checks demo_env more_fenv demo_INIT demo_REPLACE
                  demo_enhancer 1 (VNum 1) VUndefined VUndefined 0)
           (VNum 2) eq_refl eq_refl).
Defined.

Lemma createStore_seeds_the_state_witness :
  createStore demo_env more_fenv demo_INIT demo_REPLACE demo_enhancer 1
    (VFun 0) VUndefined VUndefined VUndefined 0
  = Some (Ok VStore,
          mkWorld (VFun 0) (VNum 0) (Some 0) 0 false [[]] [] 1
            [EvCall (VFun 0) [VUndefined; action_of 0 demo_INIT]]).
Proof.
  apply (proj1 (createStore_seeds_the_state demo_env more_fenv demo_INIT demo_REPLACE
                  demo_enhancer 0 (VFun 0) VUndefined VUndefined 0 eq_refl)).
  exists 0. split; reflexivity.
Defined.

Lemma listener_error_stops_the_pass_witness :
  let w :=
    mkWorld (VFun 0) (VNum 0) (Some 0) 0 false [[VFun 1; VFun 2; VFun 1]]
      [(VFun 1, true); (VFun 2, true); (VFun 1, true)] 0 [] in
  let a := demo_action 0 "INC" in
  exists w',
    dispatch demo_env more_fenv (run demo_env more_fenv demo_REPLACE 0 (A:=JsVal)) 2 a w
    = Some (Err (ErrUser 7), w') /\
    currentState w' = VNum 1 /\
    trace w'
    = [EvCall (VFun 0) [VNum 0; a]; EvCall (VFun 1) []; EvCall (VFun 2) []].
Proof.
  intros w a.
  destruct (listener_error_stops_the_pass demo_env more_fenv demo_REPLACE 0 0 w a
              (VNum 1) (VFun 2) (ErrUser 7) [VFun 1] [VFun 1])
    as (w' & H1 & H2 & _ & _ & H3).
  - reflexivity.
  - reflexivity.
  - exists 0. split; reflexivity.
  - reflexivity.
  - repeat constructor. exists VUndefined, 1. split; reflexivity.
  - exists 2. split; reflexivity.
  - exists w'. split; [exact H1|]. split; [exact H2|exact H3].
Defined.

Lemma unsubscribe_in_listener_waits_for_next_dispatch_witness :
  let w :=
    mkWorld (VFun 0) (VNum 0) (Some 0) 0 false [[VFun 20; VFun 1]]
      [(VFun 1, true); (VFun 20, true)] 0 [] in
  let a := demo_action 0 "INC" in
  exists w',
    dispatch demo_env more_fenv (run demo_env more_fenv demo_REPLACE 1 (A:=JsVal)) 3 a w
    = Some (Ok a, w') /\
    array_at w' (nextListeners w) = [VFun 20; VFun 1] /\
    array_at w' (nextListeners w') = [VFun 20] /\
    currentListeners w' = None.
Proof.
  intros w a.
  destruct (unsubscribe_in_listener_waits_for_next_dispatch demo_env more_fenv
              demo_REPLACE 0 3 w a (VNum 1) (VFun 20) 0 (VFun 1) []
              [VFun 1])
    as (i & w' & H1 & H2 & _ & _ & H3 & H4 & H5 & _).
  - reflexivity.
  - split; [split; simpl; lia|]. split; [repeat constructor|].
    intros l. simpl. lia.
  - reflexivity.
  - exists 0. split; reflexivity.
  - reflexivity.
  - constructor.
  - repeat constructor. exists VUndefined, 1. split; reflexivity.
  - exists 20. split; reflexivity.
  - reflexivity.
  - simpl. lia.
  - exists w'. split; [exact H1|]. split; [exact H3|]. split; [|exact H5].
    rewrite H4. assert (i = 1) as -> by (simpl in H2; congruence).
    reflexivity.
Defined.





Lemma composite_keeps_only_retained_keys_witness :
  let state := VObj 3 true [("count", VNum 1); ("old", VNum 8)] in
  let a := demo_action 4 "NOOP" in
  exists w',
    run demo_env more_fenv demo_REPLACE 2
      (combination demo_env (mkComposite [("count", VFun 0)] None) state a)
      (initial VUndefined VUndefined 5)
    = Some (Ok (VObj 5 true [("count", VNum 1)]), w').
Proof.
  intros state a. eexists.
  apply (proj1 (composite_keeps_only_retained_keys demo_env more_fenv
                  demo_REPLACE 0 (mkComposite [("count", VFun 0)] None)
                  state a [VNum 1] (initial VUndefined VUndefined 5)
                  eq_refl (conj eq_refl (or_intror eq_refl))
                  ltac:(repeat constructor; simpl; intros [])
                  eq_refl
                  ltac:(repeat constructor; exists 0; split; reflexivity)
                  eq_refl)).
Defined.

Lemma composite_builds_the_initial_state_witness :
  exists w',
    run demo_env more_fenv demo_REPLACE 4
      (combination demo_env
         (mkComposite [("count", VFun 0); ("toString", VFun 0)] None)
         VUndefined (action_of 0 demo_INIT))
      (initial VUndefined VUndefined 1)
    = Some (Ok (VObj 2 true [("count", VNum 0); ("toString", VFun 30)]), w').
Proof.
  eexists.
  apply (proj1 (composite_builds_the_initial_state demo_env more_fenv
                  demo_REPLACE 0
                  (mkComposite [("count", VFun 0); ("toString", VFun 0)] None)
                  (action_of 0 demo_INIT) [VNum 0; VFun 30]
                  (initial VUndefined VUndefined 1) eq_refl
                  (conj eq_refl (or_intror eq_refl))
                  ltac:(repeat constructor; simpl; intuition discriminate)
                  ltac:(repeat constructor; exists 0; split; reflexivity))).
Defined.

Lemma composite_on_null_raises_type_error_witness :
  run demo_env more_fenv demo_REPLACE 1
    (combination demo_env (mkComposite [("count", VFun 0)] None) VNull
       (demo_action 0 "INC"))
    (initial VUndefined VUndefined 1)
  = Some (Err ErrTypeError, set_addr 2 (initial VUndefined VUndefined 1)).
Proof.
  apply (composite_on_null_raises_type_error demo_env more_fenv demo_REPLACE 0
           (mkComposite [("count", VFun 0)] None) (demo_action 0 "INC")
           (initial VUndefined VUndefined 1) eq_refl).
Defined.

Lemma shape_warning_is_given_once_witness :
  let state :=
    VObj 3 true [("count", VNum 1); ("old", VNum 8); ("constructor", VNum 2)]
  in
  let a := demo_action 4 "INC" in
  let w := initial VUndefined VUndefined 5 in
  exists message,
    message <> None /\
    run demo_env more_fenv demo_REPLACE 0
      (getUnexpectedStateShapeWarningMessage demo_env demo_INIT demo_REPLACE
         demo_class_name state [("count", VFun 0)] a 70 []) w
    = Some (Ok (message, ["old"]), w) /\
    run demo_env more_fenv demo_REPLACE 0
      (getUnexpectedStateShapeWarningMessage demo_env demo_INIT demo_REPLACE
         demo_class_name state [("count", VFun 0)] a 70 ["old"]) w
    = Some (Ok (None, ["old"]), w).
Proof.
  intros state a w.
  destruct (shape_warning_is_given_once demo_env more_fenv demo_INIT
              demo_REPLACE demo_class_name state [("count", VFun 0)] a a 70
              [] 0 0 w w ltac:(discriminate) eq_refl eq_refl
              (fun _ => eq_refl))
    as (message & cache' & H1 & H2 & _).
  assert (E : Some message <> Some None /\ cache' = ["old"]).
  { vm_compute in H1. inversion H1. split; [discriminate|reflexivity]. }
  destruct E as [E1 E2]. subst cache'.
  exists message. split; [congruence|]. split; [exact H1|exact H2].
Defined.

Lemma shape_warning_is_silent_iff_keys_known_witness :
  let state := VObj 3 true [("count", VNum 1); ("constructor", VNum 2)] in
  let w := initial VUndefined VUndefined 5 in
  exists cache',
    run demo_env more_fenv demo_REPLACE 0
      (getUnexpectedStateShapeWarningMessage demo_env demo_INIT demo_REPLACE
         demo_class_name state [("count", VFun 0)] (demo_action 4 "INC")
         70 []) w
    = Some (Ok (None, cache'), w).
Proof.
  intros state w.
  destruct (shape_warning_is_silent_iff_keys_known demo_env more_fenv
              demo_INIT demo_REPLACE demo_class_name state
              [("count", VFun 0)] (demo_action 4 "INC") 70 [] 0 w
              ltac:(discriminate) eq_refl eq_refl eq_refl)
    as (message & cache' & H1 & H2 & _).
  assert (E : message = None).
  { apply H2. intros key [<- | [<- | []]].
    - left. reflexivity.
    - right. right. reflexivity. }
  subst message. exists cache'. exact H1.
Defined.


Lemma bound_creator_dispatches_what_it_creates_witness :
  let w := mkWorld (VFun 0) (VNum 0) (Some 0) 0 false [[VFun 1]]
             [(VFun 1, true)] 0 [] in
  let v := VObj 60 true [("type", VStr "INC")] in
  run demo_env more_fenv demo_REPLACE 4
    (call_bound (bindActionCreator (VFun 22) StoreDispatch) []) w
  = Some (Ok v, after_dispatch (log (EvCall (VFun 22) []) w) v (VNum 1)
                  [VFun 1]).
Proof.
  intros w v.
  apply (proj1 (bound_creator_dispatches_what_it_creates demo_env more_fenv
                  demo_REPLACE 2 (VFun 22) [] v w eq_refl
                  (ex_intro _ 22 (conj eq_refl eq_refl)))).
  - reflexivity.
  - exists 0. split; reflexivity.
  - repeat constructor. exists VUndefined, 1. split; reflexivity.
  - simpl. lia.
Defined.

Lemma observer_receives_every_state_witness :
  let w := initial (VFun 0) (VNum 0) 1 in
  let a := demo_action 0 "INC" in
  exists w1 w2,
    run demo_env more_fenv demo_REPLACE 4
      (observable_subscribe demo_env (VFun 21) demo_observer) w
    = Some (Ok (VObj 1 true [("unsubscribe", VUnsub 0)]), w1) /\
    dispatch demo_env more_fenv (run demo_env more_fenv demo_REPLACE 2 (A:=JsVal)) 2 a w1
    = Some (Ok a, w2) /\
    trace w2
    = [EvCall (VFun 1) [VNum 0]; EvCall (VFun 0) [VNum 0; a];
       EvCall (VFun 21) []; EvCall (VFun 1) [VNum 1]].
Proof.
  intros w a.
  destruct (observer_receives_every_state demo_env more_fenv demo_REPLACE 0 2 w 21
              demo_observer (VFun 1) a (VNum 1))
    as (w1 & w2 & H1 & H2 & _ & H4 & _ & H6).
  - reflexivity.
  - split; simpl; lia.
  - reflexivity.
  - discriminate.
  - reflexivity.
  - reflexivity.
  - intros st. exists VUndefined, 1. split; reflexivity.
  - reflexivity.
  - reflexivity.
  - exists 0. split; reflexivity.
  - constructor.
  - simpl. lia.
  - exists w1, w2. split; [exact H1|]. split; [exact H4|].
    rewrite H6, H2. reflexivity.
Defined.

Lemma observable_subscribe_edge_cases_witness :
  let w := initial (VFun 0) (VNum 0) 1 in
  let observer := VObj 81 false [] in
  run class_env more_fenv demo_REPLACE 3
    (observable_subscribe class_env (VFun 21) (VNum 3)) w
  = Some (Err ErrTypeError, w) /\
  run class_env more_fenv demo_REPLACE 3
    (observable_subscribe class_env (VFun 21) observer)
    (set_dispatching true w)
  = Some (Err ErrGetStateWhileDispatching, set_dispatching true w).
Proof.
  intros w observer. split.
  - apply (proj1 (observable_subscribe_edge_cases class_env more_fenv
                    demo_REPLACE 3 21 (VNum 3) w)).
    left. discriminate.
  - apply (proj1 (proj2 (observable_subscribe_edge_cases class_env more_fenv
                           demo_REPLACE 2 21 observer
                           (set_dispatching true w))
                    (VFun 1) eq_refl ltac:(discriminate) eq_refl));
      reflexivity.
Defined.


Lemma createStore_surfaces_the_validation_error_witness :
  exists w',
    createStore demo_env more_fenv demo_INIT demo_REPLACE demo_enhancer 2
      (VFun 24) (VNum 5) VUndefined VUndefined 0
    = Some (Err (ErrUndefinedDuringInit "bad"), w') /\
    currentState w' = VNum 5 /\ isDispatching w' = false.
Proof.
  apply (createStore_surfaces_the_validation_error demo_env more_fenv demo_INIT
           demo_REPLACE demo_enhancer 1 24
           (mkComposite [("bad", VFun 9)]
              (Some (ErrUndefinedDuringInit "bad")))
           (ErrUndefinedDuringInit "bad") (VNum 5) VUndefined 0
           eq_refl eq_refl eq_refl eq_refl).
Defined.

Lemma hasOwnProperty_reducer_is_called_witness :
  let state := VObj 3 true [("count", VNum 1)] in
  let a := demo_action 4 "NOOP" in
  let w := initial VUndefined VUndefined 5 in
  (exists result,
      run demo_env more_fenv demo_REPLACE 4
        (combination demo_env
           (mkComposite [("count", VFun 0); ("hasOwnProperty", VFun 0)] None)
           state a) w
      = Some (Ok result,
              log_events
                [EvCall (VFun 0) [VStr "count"];
                 EvCall (VFun 0) [VNum 1; a];
                 EvCall (VFun 0) [VFun 30; a]]
                (set_addr 6 w))) /\
  run demo_env more_fenv demo_REPLACE 1
    (combination demo_env (mkComposite [("hasOwnProperty", VFun 2)] None)
       state a) w
  = Some (Err (ErrUser 7), log (EvCall (VFun 2) [VStr "count"]) w).
Proof.
  intros state a w. split.
  - apply (proj1 (hasOwnProperty_reducer_is_called demo_env more_fenv
                    demo_REPLACE 0
                    (mkComposite
                       [("count", VFun 0); ("hasOwnProperty", VFun 0)] None)
                    (VFun 0) 3 [("count", VNum 1)] a w
                    eq_refl eq_refl eq_refl eq_refl)
             [VNum 1; VFun 30]).
    + repeat constructor. exists (VStr "count"), 0. split; reflexivity.
    + repeat constructor; exists 0; split; reflexivity.
  - apply (proj2 (hasOwnProperty_reducer_is_called demo_env more_fenv
                    demo_REPLACE 0
                    (mkComposite [("hasOwnProperty", VFun 2)] None)
                    (VFun 2) 3 [("count", VNum 1)] a w
                    eq_refl eq_refl eq_refl eq_refl)
             "count" [] (ErrUser 7) eq_refl).
    exists 2. split; reflexivity.
Defined.
